(** * ct-mapreduce: the storage layer, embedded and verified

    A shallow embedding of the [storage] package of ct-mapreduce: the
    identifier types of [types.go] with their string encodings, the
    in-process remote cache, the two storage backends, the issuer
    metadata accumulator and the [FilesystemDatabase.Store] pipeline,
    followed by the properties the specification states about them.

    Conventions.  A Go [string] is a [string] (a sequence of 8-bit
    characters), a [[]byte] is a [list byte], an [int]/[int64] is a [Z],
    and a Go [error] is an [option error] with [None] for [nil].  A
    function returning [(T, error)] returns a pair.  Go maps are [gmap]s.
    A [panic] is the [Panic] outcome of [result].  Mutable receivers are
    threaded as explicit state. *)

From Stdlib Require Import ZArith List String Ascii Lia Bool.
From Stdlib Require OrderedTypeEx.
From Stdlib.Strings Require Import Byte.
From stdpp Require Import gmap strings list sorting.
Import ListNotations.
Local Open Scope Z_scope.

(** ** Go values *)

(** gRPC status codes of errors. *)
Inductive codes := NotFound | AlreadyExists | DeadlineExceeded | Unavailable | Internal | Unknown.

(** Go [error] values: the corrupt-input errors of [encoding/base64]
    and [encoding/ascii85], the two errors of [encoding/hex], an error
    built by [fmt.Errorf] or [errors.New] (its text), a gRPC status
    error (its code and description), and [iterator.Done]. *)
Inductive error :=
| CorruptInputError (offset : Z)
| ErrLength
| InvalidByteError (b : ascii)
| Errorf (msg : string)
| StatusError (c : codes) (desc : string)
| IteratorDone.

(** The outcome of a call that may panic. *)
Inductive result (A : Type) :=
| Ret (a : A)
| Panic (msg : string).
Arguments Ret {A} a.
Arguments Panic {A} msg.

(** What is sent on a channel, and whether the channel was closed. *)
Record stream (A : Type) := { sent : list A; closed : bool }.
Arguments sent {A} s.
Arguments closed {A} s.
Arguments Build_stream {A} sent closed.

Definition Z_of_byte (b : byte) : Z := Z.of_N (Byte.to_N b).

(** Conversion [byte(v)] of an unsigned integer: the low eight bits. *)
Definition byte_of_Z (z : Z) : byte :=
  match Byte.of_N (Z.to_N (z mod 256)) with
  | Some b => b
  | None => x00
  end.

Definition Z_of_ascii (c : ascii) : Z := Z.of_N (N_of_ascii c).
Definition ascii_of_Z (z : Z) : ascii := ascii_of_N (Z.to_N (z mod 256)).

(** [[]byte(s)] and [string(b)]. *)
Definition bytes_of_string (s : string) : list byte := list_byte_of_string s.
Definition string_of_bytes (b : list byte) : string := string_of_list_byte b.

Definition len (s : string) : Z := Z.of_nat (String.length s).

(** Wrap-around of [uint32] arithmetic. *)
Definition u32 (z : Z) : Z := z mod 2 ^ 32.

(** ** encoding/base64 *)

Module base64.

Record Encoding := {
  encode : string;          (* the 64-character alphabet *)
  padChar : option ascii    (* [None] is [NoPadding] *)
}.

Definition encodeURL : string :=
  "ABCDEFGHIJKLMNOPQRSTUVWXYZabcdefghijklmnopqrstuvwxyz0123456789-_".

Definition URLEncoding : Encoding := {| encode := encodeURL; padChar := Some "="%char |}.
Definition RawURLEncoding : Encoding := {| encode := encodeURL; padChar := None |}.

(** [enc.encode[i]] *)
Definition encodeAt (enc : Encoding) (i : Z) : ascii :=
  nth (Z.to_nat i) (list_ascii_of_string (encode enc)) zero.

Fixpoint indexOf (c : ascii) (l : list ascii) (i : Z) : option Z :=
  match l with
  | [] => None
  | x :: r => if Ascii.eqb x c then Some i else indexOf c r (i + 1)
  end.

(** [enc.decodeMap[c]]: the index of [c] in the alphabet, [0xFF] for a
    character outside it. *)
Definition decodeMap (enc : Encoding) (c : ascii) : Z :=
  match indexOf c (list_ascii_of_string (encode enc)) 0 with
  | Some i => i
  | None => 255
  end.

Definition padding (enc : Encoding) (n : nat) : list ascii :=
  match padChar enc with
  | Some p => repeat p n
  | None => []
  end.

(** [Encoding.Encode]: three source bytes make four characters; a last
    block of one or two bytes makes two or three, then padding. *)
Fixpoint Encode (enc : Encoding) (src : list byte) : list ascii :=
  match src with
  | b0 :: b1 :: b2 :: rest =>
      let val := Z.lor (Z.lor (Z.shiftl (Z_of_byte b0) 16) (Z.shiftl (Z_of_byte b1) 8))
                       (Z_of_byte b2) in
      encodeAt enc (Z.land (Z.shiftr val 18) 63)
      :: encodeAt enc (Z.land (Z.shiftr val 12) 63)
      :: encodeAt enc (Z.land (Z.shiftr val 6) 63)
      :: encodeAt enc (Z.land val 63)
      :: Encode enc rest
  | [b0; b1] =>
      let val := Z.lor (Z.shiftl (Z_of_byte b0) 16) (Z.shiftl (Z_of_byte b1) 8) in
      encodeAt enc (Z.land (Z.shiftr val 18) 63)
      :: encodeAt enc (Z.land (Z.shiftr val 12) 63)
      :: encodeAt enc (Z.land (Z.shiftr val 6) 63)
      :: padding enc 1
  | [b0] =>
      let val := Z.shiftl (Z_of_byte b0) 16 in
      encodeAt enc (Z.land (Z.shiftr val 18) 63)
      :: encodeAt enc (Z.land (Z.shiftr val 12) 63)
      :: padding enc 2
  | [] => []
  end.

Definition EncodeToString (enc : Encoding) (src : list byte) : string :=
  string_of_list_ascii (Encode enc src).

Definition isNewline (c : ascii) : bool :=
  Ascii.eqb c "010"%char || Ascii.eqb c "013"%char.

(** Skips a run of ['\n'] and ['\r']; returns how many and what is left. *)
Fixpoint skipNewlines (src : list ascii) : Z * list ascii :=
  match src with
  | c :: rest =>
      if isNewline c then let '(n, r) := skipNewlines rest in (n + 1, r) else (0, src)
  | [] => (0, [])
  end.

(** The bytes of one quantum of [dlen] six-bit values: [dlen - 1] bytes. *)
Definition quantumBytes (dbuf : list Z) : list byte :=
  let d i := nth i dbuf 0 in
  let val := Z.lor (Z.lor (Z.lor (Z.shiftl (d 0%nat) 18) (Z.shiftl (d 1%nat) 12))
                          (Z.shiftl (d 2%nat) 6)) (d 3%nat) in
  firstn (length dbuf - 1)
         [byte_of_Z (Z.shiftr val 16); byte_of_Z (Z.shiftr val 8); byte_of_Z val].

Definition isPad (enc : Encoding) (c : ascii) : bool :=
  match padChar enc with
  | Some p => Ascii.eqb c p
  | None => false
  end.

(** [Encoding.Decode], one input character at a time: [si] is the index
    of the next character, [dbuf] the six-bit values of the quantum
    being read.  Newlines are skipped; padding ends the input; on an
    error the bytes decoded so far are returned with it. *)
Fixpoint decodeFrom (enc : Encoding) (total si : Z) (dbuf : list Z) (src : list ascii)
  : list byte * option error :=
  match src with
  | [] =>
      match dbuf with
      | [] => ([], None)
      | [_] => ([], Some (CorruptInputError (si - 1)))
      | _ =>
          match padChar enc with
          | Some _ => ([], Some (CorruptInputError (si - Z.of_nat (length dbuf))))
          | None => (quantumBytes dbuf, None)
          end
      end
  | c :: rest =>
      let out := decodeMap enc c in
      if negb (out =? 255) then
        let dbuf' := dbuf ++ [out] in
        if (length dbuf' =? 4)%nat then
          let '(bs, e) := decodeFrom enc total (si + 1) [] rest in
          (quantumBytes dbuf' ++ bs, e)
        else decodeFrom enc total (si + 1) dbuf' rest
      else if isNewline c then decodeFrom enc total (si + 1) dbuf rest
      else if negb (isPad enc c) then ([], Some (CorruptInputError si))
      else
        match dbuf with
        | [] | [_] => ([], Some (CorruptInputError si))
        | [_; _] =>
            let '(n1, r1) := skipNewlines rest in
            match r1 with
            | [] => ([], Some (CorruptInputError total))
            | c2 :: r2 =>
                if negb (isPad enc c2) then ([], Some (CorruptInputError (si + n1)))
                else
                  let '(n3, r3) := skipNewlines r2 in
                  (quantumBytes dbuf,
                   match r3 with
                   | [] => None
                   | _ => Some (CorruptInputError (si + 1 + n1 + 1 + n3))
                   end)
            end
        | _ =>
            let '(n3, r3) := skipNewlines rest in
            (quantumBytes dbuf,
             match r3 with
             | [] => None
             | _ => Some (CorruptInputError (si + 1 + n3))
             end)
        end
  end.

Definition DecodeString (enc : Encoding) (s : string) : list byte * option error :=
  decodeFrom enc (len s) 0 [] (list_ascii_of_string s).

End base64.

(** ** encoding/hex *)

Module hex.

Definition hextable : string := "0123456789abcdef".

Definition hexAt (i : Z) : ascii :=
  nth (Z.to_nat i) (list_ascii_of_string hextable) zero.

Fixpoint Encode (src : list byte) : list ascii :=
  match src with
  | [] => []
  | b :: rest =>
      hexAt (Z.shiftr (Z_of_byte b) 4) :: hexAt (Z.land (Z_of_byte b) 15) :: Encode rest
  end.

Definition EncodeToString (src : list byte) : string :=
  string_of_list_ascii (Encode src).

(** [fromHexChar]: the value of one hexadecimal digit, either case. *)
Definition fromHexChar (c : ascii) : option Z :=
  let v := Z_of_ascii c in
  if (48 <=? v) && (v <=? 57) then Some (v - 48)
  else if (97 <=? v) && (v <=? 102) then Some (v - 97 + 10)
  else if (65 <=? v) && (v <=? 70) then Some (v - 65 + 10)
  else None.

(** [hex.Decode]: pairs of digits; a bad digit is reported before an
    odd length; the bytes decoded before the error are returned. *)
Fixpoint Decode (src : list ascii) : list byte * option error :=
  match src with
  | [] => ([], None)
  | [c] =>
      match fromHexChar c with
      | None => ([], Some (InvalidByteError c))
      | Some _ => ([], Some ErrLength)
      end
  | p :: q :: rest =>
      match fromHexChar p with
      | None => ([], Some (InvalidByteError p))
      | Some a =>
          match fromHexChar q with
          | None => ([], Some (InvalidByteError q))
          | Some b =>
              let '(bs, e) := Decode rest in
              (byte_of_Z (Z.lor (Z.shiftl a 4) b) :: bs, e)
          end
      end
  end.

Definition DecodeString (s : string) : list byte * option error :=
  Decode (list_ascii_of_string s).

End hex.

(** ** encoding/ascii85 *)

Module ascii85.

(** The five base-85 digits of a 32-bit value, most significant first,
    each offset from ['!']. *)
Definition digits (v : Z) : list ascii :=
  [ascii_of_Z (33 + (v / 85 / 85 / 85 / 85) mod 85);
   ascii_of_Z (33 + (v / 85 / 85 / 85) mod 85);
   ascii_of_Z (33 + (v / 85 / 85) mod 85);
   ascii_of_Z (33 + (v / 85) mod 85);
   ascii_of_Z (33 + v mod 85)].

Definition pack (b0 b1 b2 b3 : Z) : Z :=
  Z.lor (Z.lor (Z.lor b3 (Z.shiftl b2 8)) (Z.shiftl b1 16)) (Z.shiftl b0 24).

(** [ascii85.Encode]: four bytes make five digits, an all-zero group of
    four makes ['z'], a short last group drops its low digits. *)
Fixpoint Encode (src : list byte) : list ascii :=
  match src with
  | b0 :: b1 :: b2 :: b3 :: rest =>
      let v := pack (Z_of_byte b0) (Z_of_byte b1) (Z_of_byte b2) (Z_of_byte b3) in
      if v =? 0 then "z"%char :: Encode rest else digits v ++ Encode rest
  | [b0; b1; b2] => firstn 4 (digits (pack (Z_of_byte b0) (Z_of_byte b1) (Z_of_byte b2) 0))
  | [b0; b1] => firstn 3 (digits (pack (Z_of_byte b0) (Z_of_byte b1) 0 0))
  | [b0] => firstn 2 (digits (pack (Z_of_byte b0) 0 0 0))
  | [] => []
  end.

(** The [i]-th of the bytes written by the flush of a short group. *)
Fixpoint flushBytes (n : nat) (v : Z) : list byte :=
  match n with
  | O => []
  | S n' => byte_of_Z (Z.shiftr v 24) :: flushBytes n' (u32 (Z.shiftl v 8))
  end.

Fixpoint padWorst (n : nat) (v : Z) : Z :=
  match n with
  | O => v
  | S n' => padWorst n' (u32 (v * 85 + 84))
  end.

(** [ascii85.Decode(dst, src, flush)], one character at a time.  [room]
    is [len(dst) - ndst], [i] the index of the next character, [v] and
    [nb] the value and digit count of the group being read, [nsrc] the
    input consumed by complete groups.  Returns the bytes written, the
    input consumed and the error; a corrupt input returns [0, 0, err]. *)
Fixpoint decodeFrom (flush : bool) (total room i v nb nsrc : Z) (src : list ascii)
  : list byte * Z * option error :=
  match src with
  | [] =>
      if flush then
        if 0 <? nb then
          if nb =? 1 then ([], 0, Some (CorruptInputError total))
          else (flushBytes (Z.to_nat (nb - 1)) (padWorst (Z.to_nat (5 - nb)) v), total, None)
        else ([], total, None)
      else ([], nsrc, None)
  | b :: rest =>
      if room <? 4 then ([], nsrc, None)
      else
        let c := Z_of_ascii b in
        if c <=? 32 then decodeFrom flush total room (i + 1) v nb nsrc rest
        else
          let step (v' nb' : Z) :=
            if nb' =? 5 then
              match decodeFrom flush total (room - 4) (i + 1) 0 0 (i + 1) rest with
              | (bs, n, None) =>
                  (byte_of_Z (Z.shiftr v' 24) :: byte_of_Z (Z.shiftr v' 16)
                   :: byte_of_Z (Z.shiftr v' 8) :: byte_of_Z v' :: bs, n, None)
              | (_, _, Some e) => ([], 0, Some e)
              end
            else
              decodeFrom flush total room (i + 1) v' nb' nsrc rest in
          if (c =? 122) && (nb =? 0) then step 0 5
          else if (33 <=? c) && (c <=? 117) then step (u32 (v * 85 + (c - 33))) (nb + 1)
          else ([], 0, Some (CorruptInputError i))
  end.

Definition MaxEncodedLen (n : Z) : Z := (n + 3) / 4 * 5.

End ascii85.

(** ** crypto/sha256 *)

Module sha256.

Definition rotr (x n : Z) : Z := u32 (Z.lor (Z.shiftr x n) (Z.shiftl x (32 - n))).

Definition K : list Z :=
  [1116352408; 1899447441; 3049323471; 3921009573; 961987163; 1508970993; 2453635748; 2870763221;
   3624381080; 310598401; 607225278; 1426881987; 1925078388; 2162078206; 2614888103; 3248222580;
   3835390401; 4022224774; 264347078; 604807628; 770255983; 1249150122; 1555081692; 1996064986;
   2554220882; 2821834349; 2952996808; 3210313671; 3336571891; 3584528711; 113926993; 338241895;
   666307205; 773529912; 1294757372; 1396182291; 1695183700; 1986661051; 2177026350; 2456956037;
   2730485921; 2820302411; 3259730800; 3345764771; 3516065817; 3600352804; 4094571909; 275423344;
   430227734; 506948616; 659060556; 883997877; 958139571; 1322822218; 1537002063; 1747873779;
   1955562222; 2024104815; 2227730452; 2361852424; 2428436474; 2756734187; 3204031479; 3329325298].

(** Big-endian bytes of an [n]-byte unsigned value. *)
Fixpoint bigEndian (n : nat) (v : Z) : list Z :=
  match n with
  | O => []
  | S n' => (Z.shiftr v (8 * Z.of_nat n')) mod 256 :: bigEndian n' v
  end.

(** The message followed by [0x80], zeros up to 56 modulo 64, and the
    bit length in eight bytes. *)
Definition pad (msg : list Z) : list Z :=
  let n := Z.of_nat (length msg) in
  msg ++ [128] ++ repeat 0 (Z.to_nat ((55 - n) mod 64)) ++ bigEndian 8 (8 * n).

Fixpoint words (bs : list Z) (n : nat) : list Z :=
  match n, bs with
  | S n', b0 :: b1 :: b2 :: b3 :: rest =>
      Z.lor (Z.lor (Z.lor (Z.shiftl b0 24) (Z.shiftl b1 16)) (Z.shiftl b2 8)) b3 :: words rest n'
  | _, _ => []
  end.

Fixpoint schedule (n : nat) (w : list Z) : list Z :=
  match n with
  | O => w
  | S n' =>
      let i := length w in
      let g k := nth (i - k) w 0 in
      let s0 := Z.lxor (Z.lxor (rotr (g 15%nat) 7) (rotr (g 15%nat) 18)) (Z.shiftr (g 15%nat) 3) in
      let s1 := Z.lxor (Z.lxor (rotr (g 2%nat) 17) (rotr (g 2%nat) 19)) (Z.shiftr (g 2%nat) 10) in
      schedule n' (w ++ [u32 (g 16%nat + s0 + g 7%nat + s1)])
  end.

Record regs := { ra : Z; rb : Z; rc : Z; rd : Z; re : Z; rf : Z; rg : Z; rh : Z }.

Definition round (s : regs) (kw : Z * Z) : regs :=
  let '(k, w) := kw in
  let S1 := Z.lxor (Z.lxor (rotr (re s) 6) (rotr (re s) 11)) (rotr (re s) 25) in
  let ch := Z.lxor (Z.land (re s) (rf s)) (Z.land (Z.lxor (re s) 4294967295) (rg s)) in
  let t1 := u32 (rh s + S1 + ch + k + w) in
  let S0 := Z.lxor (Z.lxor (rotr (ra s) 2) (rotr (ra s) 13)) (rotr (ra s) 22) in
  let maj := Z.lxor (Z.lxor (Z.land (ra s) (rb s)) (Z.land (ra s) (rc s))) (Z.land (rb s) (rc s)) in
  let t2 := u32 (S0 + maj) in
  {| ra := u32 (t1 + t2); rb := ra s; rc := rb s; rd := rc s;
     re := u32 (rd s + t1); rf := re s; rg := rf s; rh := rg s |}.

Definition block (h : regs) (bs : list Z) : regs :=
  let w := schedule 48 (words bs 16) in
  let s := fold_left round (combine K w) h in
  {| ra := u32 (ra h + ra s); rb := u32 (rb h + rb s); rc := u32 (rc h + rc s);
     rd := u32 (rd h + rd s); re := u32 (re h + re s); rf := u32 (rf h + rf s);
     rg := u32 (rg h + rg s); rh := u32 (rh h + rh s) |}.

Fixpoint blocks (n : nat) (h : regs) (bs : list Z) : regs :=
  match n with
  | O => h
  | S n' => blocks n' (block h (firstn 64 bs)) (skipn 64 bs)
  end.

Definition digestWords (h : regs) : list Z :=
  [ra h; rb h; rc h; rd h; re h; rf h; rg h; rh h].

(** [sha256.Sum256]: the 32-byte digest. *)
Definition Sum256 (data : list byte) : list byte :=
  let m := pad (map Z_of_byte data) in
  let h0 := {| ra := 1779033703; rb := 3144134277; rc := 1013904242; rd := 2773480762;
               re := 1359893119; rf := 2600822924; rg := 528734635; rh := 1541459225 |} in
  let h := blocks (length m / 64) h0 m in
  flat_map (fun w => map byte_of_Z (bigEndian 4 w)) (digestWords h).

End sha256.

(** ** strings, sort *)

Module strings.

(** [strings.Compare(a, b) <= 0] *)
Definition le (a b : string) : bool := String.leb a b.

(** [strings.Contains(s, substr)] *)
Fixpoint Contains (s substr : string) : bool :=
  String.prefix substr s ||
  match s with
  | EmptyString => false
  | String _ s' => Contains s' substr
  end.

Definition lowerChar (c : ascii) : ascii :=
  let v := Z_of_ascii c in
  if (65 <=? v) && (v <=? 90) then ascii_of_Z (v + 32) else c.

(** [strings.ToLower], on the ASCII letters. *)
Fixpoint ToLower (s : string) : string :=
  match s with
  | EmptyString => EmptyString
  | String c s' => String (lowerChar c) (ToLower s')
  end.

(** The ASCII white space of [unicode.IsSpace]. *)
Definition isSpace (c : ascii) : bool :=
  let v := Z_of_ascii c in
  ((9 <=? v) && (v <=? 13)) || (v =? 32).

Fixpoint trimLeft (s : string) : string :=
  match s with
  | EmptyString => EmptyString
  | String c s' => if isSpace c then trimLeft s' else s
  end.

Fixpoint trimRight (s : string) : string :=
  match s with
  | EmptyString => EmptyString
  | String c s' =>
      match trimRight s' with
      | EmptyString => if isSpace c then EmptyString else String c EmptyString
      | t => String c t
      end
  end.

(** [strings.TrimSpace], on ASCII white space. *)
Definition TrimSpace (s : string) : string := trimRight (trimLeft s).

End strings.

Module bytes.

(** [bytes.Compare(a, b)]: the lexicographic comparison of two byte
    slices, [-1], [0] or [+1]. *)
Fixpoint Compare (a b : list byte) : Z :=
  match a, b with
  | [], [] => 0
  | [], _ :: _ => -1
  | _ :: _, [] => 1
  | x :: a', y :: b' =>
      if Z_of_byte x <? Z_of_byte y then -1
      else if Z_of_byte y <? Z_of_byte x then 1
      else Compare a' b'
  end.

End bytes.

Module sort.

(** The loop of [sort.Search]: [for i < j { h := (i+j)/2; if !f(h) { i = h+1 } else { j = h } }].
    Every turn shrinks [j - i], so [fuel = n] turns are enough for
    [Search(n, f)]. *)
Fixpoint searchLoop (fuel : nat) (f : nat -> bool) (i j : nat) : nat :=
  match fuel with
  | O => i
  | S fuel' =>
      if (i <? j)%nat then
        let h := ((i + j) / 2)%nat in
        if f h then searchLoop fuel' f i h else searchLoop fuel' f (h + 1)%nat j
      else i
  end.

Definition Search (n : nat) (f : nat -> bool) : nat := searchLoop n f 0%nat n.

End sort.

(** ** time *)

Module time.

(** An instant: seconds since the Unix epoch and nanoseconds within the
    second.  All instants are read in UTC. *)
Record Time := { sec : Z; nsec : Z }.

(** The zero value [time.Time{}]: January 1, year 1, 00:00:00 UTC. *)
Definition zero : Time := {| sec := -62135596800; nsec := 0 |}.

(** [time.Unix(sec, 0)] *)
Definition Unix (s : Z) : Time := {| sec := s; nsec := 0 |}.

(** [t.Unix()] *)
Definition toUnix (t : Time) : Z := sec t.

(** [t.Before(u)] *)
Definition Before (t u : Time) : bool :=
  (sec t <? sec u) || ((sec t =? sec u) && (nsec t <? nsec u)).

(** Days since the epoch of a civil date of the proleptic Gregorian
    calendar. *)
Definition daysFromCivil (y m d : Z) : Z :=
  let y' := if m <=? 2 then y - 1 else y in
  let era := y' / 400 in
  let yoe := y' - era * 400 in
  let doy := (153 * (if 2 <? m then m - 3 else m + 9) + 2) / 5 + d - 1 in
  let doe := yoe * 365 + yoe / 4 - yoe / 100 + doy in
  era * 146097 + doe - 719468.

(** The civil date of a day number. *)
Definition civilFromDays (z : Z) : Z * Z * Z :=
  let z' := z + 719468 in
  let era := z' / 146097 in
  let doe := z' - era * 146097 in
  let yoe := (doe - doe / 1460 + doe / 36524 - doe / 146096) / 365 in
  let doy := doe - (365 * yoe + yoe / 4 - yoe / 100) in
  let mp := (5 * doy + 2) / 153 in
  let d := doy - (153 * mp + 2) / 5 + 1 in
  let m := if mp <? 10 then mp + 3 else mp - 9 in
  ((if m <=? 2 then yoe + era * 400 + 1 else yoe + era * 400), m, d).

(** [t.Date()]: year, month and day. *)
Definition Date (t : Time) : Z * Z * Z := civilFromDays (sec t / 86400).

(** [time.Date(y, m, d, 0, 0, 0, 0, time.UTC)] *)
Definition midnight (y m d : Z) : Time := Unix (daysFromCivil y m d * 86400).

Definition digit (v : Z) : ascii := ascii_of_Z (48 + v mod 10).

Fixpoint digitsRev (fuel : nat) (v : Z) : list ascii :=
  match fuel with
  | O => []
  | S fuel' => digit v :: (if v <? 10 then [] else digitsRev fuel' (v / 10))
  end.

(** [appendInt(b, v, width)] for [v >= 0]: the decimal digits of [v],
    padded with zeros to at least [width] of them. *)
Definition decimal (width : nat) (v : Z) : string :=
  let ds := rev (digitsRev (S (Z.to_nat (Z.log2 v))) v) in
  string_of_list_ascii (repeat "0"%char (width - length ds) ++ ds).

(** [t.Format("2006-01-02")], for the years from 0 on. *)
Definition Format (t : Time) : string :=
  let '(y, m, d) := Date t in
  String.append (decimal 4 y)
    (String "-" (String.append (decimal 2 m) (String "-" (decimal 2 d)))).

Definition digitValue (c : ascii) : option Z :=
  let v := Z_of_ascii c in
  if (48 <=? v) && (v <=? 57) then Some (v - 48) else None.

Fixpoint number (cs : list ascii) (acc : Z) : option Z :=
  match cs with
  | [] => Some acc
  | c :: r =>
      match digitValue c with
      | Some v => number r (acc * 10 + v)
      | None => None
      end
  end.

Definition isLeap (y : Z) : bool :=
  ((y mod 4 =? 0) && negb (y mod 100 =? 0)) || (y mod 400 =? 0).

Definition daysIn (m y : Z) : Z :=
  if m =? 2 then (if isLeap y then 29 else 28)
  else if (m =? 4) || (m =? 6) || (m =? 9) || (m =? 11) then 30 else 31.

(** [time.Parse("2006-01-02", value)]: four digits, two digits and two
    digits with dashes between and nothing after; the month and the day
    must exist.  The instant is midnight UTC of that day. *)
Definition Parse (value : string) : Time * option error :=
  match list_ascii_of_string value with
  | [y1; y2; y3; y4; s1; m1; m2; s2; d1; d2] =>
      match number [y1; y2; y3; y4] 0, number [m1; m2] 0, number [d1; d2] 0 with
      | Some y, Some m, Some d =>
          if Ascii.eqb s1 "-" && Ascii.eqb s2 "-" && (1 <=? m) && (m <=? 12)
             && (1 <=? d) && (d <=? daysIn m y)
          then (midnight y m d, None)
          else (zero, Some (Errorf "parsing time"))
      | _, _, _ => (zero, Some (Errorf "parsing time"))
      end
  | _ => (zero, Some (Errorf "parsing time"))
  end.

End time.

(** ** path/filepath, net/url *)

Module filepath.

(** Splits at every ['/']. *)
Fixpoint split (s : list ascii) : list (list ascii) :=
  match s with
  | [] => [[]]
  | c :: r =>
      if Ascii.eqb c "/" then [] :: split r
      else match split r with
           | p :: ps => (c :: p) :: ps
           | [] => [[c]]
           end
  end.

Definition isDot (p : list ascii) : bool :=
  match p with ["."%char] => true | _ => false end.

Definition isDotDot (p : list ascii) : bool :=
  match p with ["."%char; "."%char] => true | _ => false end.

(** The elements of a cleaned path, last first: empty and ["."]
    elements vanish, [".."] removes the element before it, or stays at
    the start of a path that is not rooted. *)
Fixpoint cleanParts (rooted : bool) (parts acc : list (list ascii)) : list (list ascii) :=
  match parts with
  | [] => acc
  | p :: ps =>
      if match p with [] => true | _ => isDot p end then cleanParts rooted ps acc
      else if isDotDot p then
        match acc with
        | q :: acc' =>
            if isDotDot q then cleanParts rooted ps (p :: acc)
            else cleanParts rooted ps acc'
        | [] => if rooted then cleanParts rooted ps [] else cleanParts rooted ps [p]
        end
      else cleanParts rooted ps (p :: acc)
  end.

Fixpoint joinParts (parts : list (list ascii)) : list ascii :=
  match parts with
  | [] => []
  | [p] => p
  | p :: ps => p ++ "/"%char :: joinParts ps
  end.

(** [filepath.Clean] on a Unix path. *)
Definition Clean (path : string) : string :=
  let cs := list_ascii_of_string path in
  let rooted := match cs with c :: _ => Ascii.eqb c "/" | [] => false end in
  let body := joinParts (rev (cleanParts rooted (split cs) [])) in
  match rooted, body with
  | false, [] => "."
  | true, _ => String "/" (string_of_list_ascii body)
  | false, _ => string_of_list_ascii body
  end.

(** [filepath.Join]: the non-empty elements joined by ['/'], cleaned;
    the empty string when there are none. *)
Definition Join (elem : list string) : string :=
  match List.filter (fun e => negb (String.eqb e "")) elem with
  | [] => ""
  | es => Clean (String.concat "/" es)
  end.

End filepath.

Module url.

(** What [IssuerMetadata] reads of a parsed URL: the scheme, lower-cased,
    and the text after the colon, kept as written. *)
Record URL := { Scheme : string; rest : string }.

Definition isAlpha (v : Z) : bool :=
  ((97 <=? v) && (v <=? 122)) || ((65 <=? v) && (v <=? 90)).

Definition isSchemeChar (v : Z) : bool :=
  ((48 <=? v) && (v <=? 57)) || (v =? 43) || (v =? 45) || (v =? 46).

(** [getScheme]: the text before the first colon when it is made of
    letters, digits, [+], [-] and [.] and does not start with one of
    the latter; no scheme otherwise; an error for a leading colon. *)
Fixpoint getScheme (i : nat) (s : string) (all : string) : (string * string) * option error :=
  match s with
  | EmptyString => (("", all), None)
  | String c s' =>
      let v := Z_of_ascii c in
      if isAlpha v then getScheme (S i) s' all
      else if isSchemeChar v then
        match i with
        | O => (("", all), None)
        | _ => getScheme (S i) s' all
        end
      else if v =? 58 then
        match i with
        | O => (("", ""), Some (Errorf "missing protocol scheme"))
        | _ => ((String.substring 0 i all, s'), None)
        end
      else (("", all), None)
  end.

(** [stringContainsCTLByte] *)
Fixpoint containsCTL (s : string) : bool :=
  match s with
  | EmptyString => false
  | String c s' => (Z_of_ascii c <? 32) || (Z_of_ascii c =? 127) || containsCTL s'
  end.

(** [url.Parse], as far as the scheme goes: a control character or a
    leading colon is an error. *)
Definition Parse (rawURL : string) : option URL * option error :=
  if containsCTL rawURL then (None, Some (Errorf "net/url: invalid control character in URL"))
  else
    match getScheme 0 rawURL rawURL with
    | (_, Some e) => (None, Some e)
    | ((scheme, r), None) => (Some {| Scheme := strings.ToLower scheme; rest := r |}, None)
    end.

(** [u.String()] *)
Definition String_ (u : URL) : string :=
  match Scheme u with
  | EmptyString => rest u
  | sch => String.append sch (String ":" (rest u))
  end.

End url.

(** ** storage/types.go *)

Definition kExpirationFormat : string := "2006-01-02".

Definition CertificateLogIDFromShortURL (shortURL : string) : string :=
  base64.EncodeToString base64.URLEncoding (bytes_of_string shortURL).

Module CertificateLog.

Record t := {
  ShortURL : string;              (* URL to the log *)
  MaxEntry : Z;                   (* the most recent entryID logged *)
  LastEntryTime : time.Time       (* when the last update completed *)
}.

Definition ID (o : t) : string := CertificateLogIDFromShortURL (ShortURL o).

End CertificateLog.

Module SPKI.

Record t := { spki : list byte }.

Definition ID (o : t) : string := base64.EncodeToString base64.URLEncoding (spki o).

Definition Sha256DigestURLEncodedBase64 (o : t) : string :=
  let binaryDigest := sha256.Sum256 (spki o) in
  base64.EncodeToString base64.URLEncoding binaryDigest.

End SPKI.

Module Issuer.

Record t := { id : option string; spki : SPKI.t }.

(** [Issuer.ID]: the stored id, or the digest of the SPKI (which the
    source then keeps in [o.id]). *)
Definition ID (o : t) : string :=
  match id o with
  | Some s => s
  | None => SPKI.Sha256DigestURLEncodedBase64 (spki o)
  end.

End Issuer.

Module Serial.

Record t := { serial : list byte }.

Definition ID (s : t) : string := base64.EncodeToString base64.URLEncoding (serial s).

Definition HexString (s : t) : string := hex.EncodeToString (serial s).

Definition String_ (s : t) : string := HexString s.

Definition Ascii85 (s : t) : string := string_of_list_ascii (ascii85.Encode (serial s)).

Definition Cmp (s o : t) : Z := bytes.Compare (serial s) (serial o).

(** The double quote. *)
Definition quote : byte := x22.

(** [json.Marshal(s.HexString())]: the hexadecimal digits between
    double quotes (no character of a hexadecimal string is escaped). *)
Definition MarshalJSON (s : t) : list byte * option error :=
  (quote :: bytes_of_string (HexString s) ++ [quote], None).

(** [UnmarshalJSON] on the receiver [s]: the error and the receiver
    afterwards.  [data[0]] panics on empty data, and [data[1 : len-1]]
    on data of one byte. *)
Definition UnmarshalJSON (data : list byte) (s : t) : result (option error * t) :=
  match data with
  | [] => Panic "index out of range"
  | first :: rest =>
      if negb (Byte.eqb first quote) || negb (Byte.eqb (List.last data x00) quote)
      then Ret (Some (Errorf "Expected surrounding quotes"), s)
      else
        match rest with
        | [] => Panic "slice bounds out of range"
        | _ :: _ =>
            let '(b, err) := hex.DecodeString (string_of_bytes (removelast rest)) in
            Ret (err, {| serial := b |})
        end
  end.

Definition MarshalBinary (s : t) : list byte * option error := MarshalJSON s.

Definition UnmarshalBinary (data : list byte) (s : t) : result (option error * t) :=
  UnmarshalJSON data s.

(** [AsBigInt]: [big.Int.SetBytes] reads the bytes as a big-endian
    unsigned integer. *)
Definition AsBigInt (s : t) : Z :=
  fold_left (fun acc b => acc * 256 + Z_of_byte b) (serial s) 0.

End Serial.

Definition NewSerialFromBytes (b : list byte) : Serial.t := {| Serial.serial := b |}.

Definition NewSerialFromHex (s : string) : result Serial.t :=
  match hex.DecodeString s with
  | (_, Some _) => Panic "encoding/hex"
  | (b, None) => Ret {| Serial.serial := b |}
  end.

Definition NewSerialFromIDString (s : string) : Serial.t * option error :=
  match base64.DecodeString base64.URLEncoding s with
  | (_, Some err) => ({| Serial.serial := [] |}, Some err)
  | (bytes, None) => (NewSerialFromBytes bytes, None)
  end.

Definition NewSerialFromAscii85 (s : string) : Serial.t * option error :=
  match ascii85.decodeFrom true (len s) (4 * len s) 0 0 0 0 (list_ascii_of_string s) with
  | (_, _, Some err) => ({| Serial.serial := [] |}, Some err)
  | (dst, nsrc, None) =>
      if negb (nsrc =? len s)
      then ({| Serial.serial := [] |}, Some (Errorf "Problem decoding Ascii85"))
      else ({| Serial.serial := dst |}, None)
  end.

(** ** x509 certificates and PEM blocks, as far as [storage] reads them *)

Module x509.

Record Certificate := {
  Raw : list byte;
  (* [tbsCert.SerialNumber.Bytes] of [asn1.Unmarshal(RawTBSCertificate)] *)
  SerialNumberBytes : list byte;
  RawSubjectPublicKeyInfo : list byte;
  (* [Issuer.String()] *)
  IssuerDN : string;
  NotAfter : time.Time;
  CRLDistributionPoints : list string
}.

End x509.

Module pem.

Record Block := {
  Type_ : string;
  Headers : list (string * string);
  Bytes : list byte
}.

End pem.

Definition NewIssuer (aCert : x509.Certificate) : Issuer.t :=
  {| Issuer.id := None; Issuer.spki := {| SPKI.spki := x509.RawSubjectPublicKeyInfo aCert |} |}.

Definition NewIssuerFromString (aStr : string) : Issuer.t :=
  {| Issuer.id := Some aStr; Issuer.spki := {| SPKI.spki := [] |} |}.

Definition NewSerial (aCert : x509.Certificate) : Serial.t :=
  NewSerialFromBytes (x509.SerialNumberBytes aCert).

(** The interfaces of [types.go].  Every method takes the state of the
    implementation and returns the new one; the methods of a cache also
    take [now], the reading of the wall clock during the call. *)
Class RemoteCache (C : Type) := {
  Exists : time.Time -> string -> C -> (bool * option error) * C;
  SortedInsert : time.Time -> string -> string -> C -> (bool * option error) * C;
  SortedContains : time.Time -> string -> string -> C -> (bool * option error) * C;
  SortedList : time.Time -> string -> C -> (list string * option error) * C;
  ExpireAt : time.Time -> string -> time.Time -> C -> option error * C
}.

(** Of [StorageBackend], the methods [FilesystemDatabase.Store] calls. *)
Class StorageBackend (B : Type) := {
  MarkDirty : string -> B -> option error * B;
  StoreCertificatePEM : Serial.t -> string -> Issuer.t -> list byte -> B -> option error * B;
  AllocateExpDateAndIssuer : string -> Issuer.t -> B -> option error * B
}.

(** ** The in-process remote cache *)

Module MockRemoteCache.

Record t := {
  Data : gmap string (list string);
  Expirations : gmap string time.Time
}.

Definition New : t := {| Data := ∅; Expirations := ∅ |}.

Definition expired (now : time.Time) (ec : t) (key : string) : bool :=
  match Expirations ec !! key with
  | Some timestamp => time.Before timestamp now
  | None => false
  end.

(** Deletes every key whose expiration lies before [now]. *)
Definition CleanupExpiry (now : time.Time) (ec : t) : t :=
  {| Data := filter (fun kv => expired now ec kv.1 = false) (Data ec);
     Expirations := filter (fun kv => time.Before kv.2 now = false) (Expirations ec) |}.

(** [ec.Data[key]]: the empty slice for a key that is not there. *)
Definition at_ (ec : t) (key : string) : list string := default [] (Data ec !! key).

(** The position [sort.Search] finds for [entry] in a slice. *)
Definition position (entry : string) (l : list string) : nat :=
  sort.Search (length l) (fun i => strings.le entry (nth i l "")).

Definition found (entry : string) (l : list string) : bool :=
  let idx := position entry l in
  (idx <? length l)%nat && String.eqb entry (nth idx l "").

Definition SetInsert (key entry : string) (ec : t) : (bool * option error) * t :=
  let idx := position entry (at_ ec key) in
  if found entry (at_ ec key) then ((false, None), ec)
  else ((true, None),
        {| Data := <[key := take idx (at_ ec key) ++ entry :: drop idx (at_ ec key)]> (Data ec);
           Expirations := Expirations ec |}).

(** [SetRemove]: [append(ec.Data[key][:idx], ec.Data[key][idx:]...)]
    is the slice up to [idx] followed by the slice from [idx] on. *)
Definition SetRemove (now : time.Time) (key entry : string) (ec : t)
  : (bool * option error) * t :=
  let ec := CleanupExpiry now ec in
  let idx := position entry (at_ ec key) in
  if found entry (at_ ec key)
  then ((true, None),
        {| Data := <[key := take idx (at_ ec key) ++ drop idx (at_ ec key)]> (Data ec);
           Expirations := Expirations ec |})
  else ((false, None), ec).

Definition SetContains (now : time.Time) (key entry : string) (ec : t)
  : (bool * option error) * t :=
  let ec := CleanupExpiry now ec in
  ((found entry (at_ ec key), None), ec).

Definition SetList (now : time.Time) (key : string) (ec : t) : (list string * option error) * t :=
  let ec := CleanupExpiry now ec in
  ((at_ ec key, None), ec).

Definition Exists (now : time.Time) (key : string) (ec : t) : (bool * option error) * t :=
  let ec := CleanupExpiry now ec in
  ((bool_decide (is_Some (Data ec !! key)), None), ec).

Definition ExpireAt (key : string) (expTime : time.Time) (ec : t) : option error * t :=
  (None, {| Data := Data ec; Expirations := <[key := expTime]> (Expirations ec) |}).

End MockRemoteCache.

(** The in-process cache names the sorted-set operations [Set...]. *)
#[export] Instance MockRemoteCache_RemoteCache : RemoteCache MockRemoteCache.t := {
  Exists := MockRemoteCache.Exists;
  SortedInsert := fun _ => MockRemoteCache.SetInsert;
  SortedContains := MockRemoteCache.SetContains;
  SortedList := MockRemoteCache.SetList;
  ExpireAt := fun _ => MockRemoteCache.ExpireAt
}.

(** ** Calls, worlds and the error monad

    [FilesystemDatabase] works on a cache and a backend.  A [World]
    holds the state of both and the [trace] of the interface calls made
    so far, each with what it returned.  A computation either yields a
    value or returns early with an error ([if err != nil { return err }]);
    the world it leaves behind is kept in both cases. *)

Inductive event :=
| CallExists (key : string) (res : bool) (err : option error)
| CallSortedInsert (key entry : string) (res : bool) (err : option error)
| CallSortedList (key : string) (res : list string) (err : option error)
| CallExpireAt (key : string) (t : time.Time) (err : option error)
| CallAllocateExpDateAndIssuer (expDate issuerID : string) (err : option error)
| CallStoreCertificatePEM (serial : Serial.t) (expDate issuerID : string) (b : list byte)
    (err : option error)
| CallMarkDirty (id : string) (err : option error).

Record World (C B : Type) := {
  cache : C;
  backend : B;
  trace : list event
}.
Arguments cache {C B} w.
Arguments backend {C B} w.
Arguments trace {C B} w.
Arguments Build_World {C B} cache backend trace.

Inductive outcome (A : Type) :=
| Ok (a : A)
| Err (e : error).
Arguments Ok {A} a.
Arguments Err {A} e.

Definition M (C B A : Type) : Type := World C B -> outcome A * World C B.

Definition ret {C B A} (a : A) : M C B A := fun w => (Ok a, w).

Definition bind {C B A A'} (m : M C B A) (k : A -> M C B A') : M C B A' :=
  fun w =>
    match m w with
    | (Ok a, w') => k a w'
    | (Err e, w') => (Err e, w')
    end.

Notation "x <- m ;; k" := (bind m (fun x => k))
  (at level 100, m at next level, right associativity).
Notation "m ;;; k" := (bind m (fun _ => k))
  (at level 100, right associativity).

(** The [error] a function ending in [return nil] returns. *)
Definition errorOf {A} (o : outcome A) : option error :=
  match o with
  | Ok _ => None
  | Err e => Some e
  end.

Definition checked {A} (a : A) (err : option error) : outcome A :=
  match err with
  | None => Ok a
  | Some e => Err e
  end.

Section Calls.
Context {C B : Type} `{RemoteCache C} `{StorageBackend B}.

Definition logged (w : World C B) (c : C) (b : B) (ev : event) : World C B :=
  {| cache := c; backend := b; trace := trace w ++ [ev] |}.

Definition callExists (now : time.Time) (key : string) : M C B bool :=
  fun w =>
    let '((res, err), c) := Exists now key (cache w) in
    (checked res err, logged w c (backend w) (CallExists key res err)).

Definition callSortedInsert (now : time.Time) (key entry : string) : M C B bool :=
  fun w =>
    let '((res, err), c) := SortedInsert now key entry (cache w) in
    (checked res err, logged w c (backend w) (CallSortedInsert key entry res err)).

Definition callSortedList (now : time.Time) (key : string) : M C B (list string) :=
  fun w =>
    let '((res, err), c) := SortedList now key (cache w) in
    (checked res err, logged w c (backend w) (CallSortedList key res err)).

Definition callExpireAt (now : time.Time) (key : string) (t : time.Time) : M C B unit :=
  fun w =>
    let '(err, c) := ExpireAt now key t (cache w) in
    (checked tt err, logged w c (backend w) (CallExpireAt key t err)).

Definition callAllocateExpDateAndIssuer (expDate : string) (issuer : Issuer.t) : M C B unit :=
  fun w =>
    let '(err, b) := AllocateExpDateAndIssuer expDate issuer (backend w) in
    (checked tt err,
     logged w (cache w) b (CallAllocateExpDateAndIssuer expDate (Issuer.ID issuer) err)).

Definition callStoreCertificatePEM (serial : Serial.t) (expDate : string) (issuer : Issuer.t)
    (b : list byte) : M C B unit :=
  fun w =>
    let '(err, be) := StoreCertificatePEM serial expDate issuer b (backend w) in
    (checked tt err,
     logged w (cache w) be (CallStoreCertificatePEM serial expDate (Issuer.ID issuer) b err)).

Definition callMarkDirty (id : string) : M C B unit :=
  fun w =>
    let '(err, b) := MarkDirty id (backend w) in
    (checked tt err, logged w (cache w) b (CallMarkDirty id err)).

(** Runs a call whose error the caller drops. *)
Definition ignoreError {A} (m : M C B A) : M C B unit :=
  fun w => (Ok tt, snd (m w)).

End Calls.

(** ** KnownCertificates *)

Module KnownCertificates.

Record t := { expDate : string; issuer : Issuer.t }.

Definition kSerials : string := "serials".

(** Modelled from the spec: the key of a shard's known-set,
    [serials::<expDate>::<issuerID>] (the file of [KnownCertificates]
    is not among the sources). *)
Definition serialId (kc : t) : string :=
  String.append kSerials (String.append "::"
    (String.append (expDate kc) (String.append "::" (Issuer.ID (issuer kc))))).

Section Methods.
Context {C B : Type} `{RemoteCache C} `{StorageBackend B}.
Variable slack : Z.

(** Modelled from the spec: [WasUnknown(serial)] performs
    [SortedInsert(serialsKey, serial.ID())] and returns the insert
    result; there is no separate contains-then-insert path. *)
Definition WasUnknown (now : time.Time) (kc : t) (aSerial : Serial.t) : M C B bool :=
  callSortedInsert now (serialId kc) (Serial.ID aSerial).

(** Modelled from the spec: [SetExpiryFlag()] attaches a TTL to the
    serial key equal to [expDate + slack]; it returns nothing.  [slack]
    is in seconds. *)
Definition SetExpiryFlag (now : time.Time) (kc : t) : M C B unit :=
  match time.Parse (expDate kc) with
  | (expireTime, None) =>
      ignoreError (callExpireAt now (serialId kc)
                     {| time.sec := time.sec expireTime + slack; time.nsec := time.nsec expireTime |})
  | (_, Some _) => ret tt
  end.

End Methods.

End KnownCertificates.

Definition NewKnownCertificates (aExpDate : string) (aIssuer : Issuer.t) : KnownCertificates.t :=
  {| KnownCertificates.expDate := aExpDate; KnownCertificates.issuer := aIssuer |}.

(** ** IssuerMetadata, backed by the remote cache *)

Module IssuerMetadata.

Definition kIssuers : string := "issuer".
Definition kCrls : string := "crl".

Record t := { expDate : string; issuer : Issuer.t }.

Definition id (im : t) : string :=
  String.append (expDate im) (String.append "::" (Issuer.ID (issuer im))).

Definition crlsKey (im : t) : string := String.append kCrls (String.append "::" (id im)).
Definition issuersKey (im : t) : string := String.append kIssuers (String.append "::" (id im)).

Section Methods.
Context {C B : Type} `{RemoteCache C} `{StorageBackend B}.

Definition addCRL (now : time.Time) (im : t) (aCRL : string) : M C B unit :=
  match url.Parse (strings.TrimSpace aCRL) with
  | (_, Some _) => ret tt
  | (None, None) => ret tt
  | (Some u, None) =>
      if String.eqb (url.Scheme u) "ldap" || String.eqb (url.Scheme u) "ldaps" then ret tt
      else if negb (String.eqb (url.Scheme u) "http") && negb (String.eqb (url.Scheme u) "https")
      then ret tt
      else
        _ <- callSortedInsert now (crlsKey im) (url.String_ u) ;;
        ret tt
  end.

Definition addIssuerDN (now : time.Time) (im : t) (aIssuerDN : string) : M C B unit :=
  _ <- callSortedInsert now (issuersKey im) aIssuerDN ;;
  ret tt.

Fixpoint addCRLs (now : time.Time) (im : t) (dps : list string) : M C B unit :=
  match dps with
  | [] => ret tt
  | dp :: dps' => addCRL now im dp ;;; addCRLs now im dps'
  end.

(** Must tolerate duplicate information. *)
Definition Accumulate (now : time.Time) (im : t) (aCert : x509.Certificate) : M C B bool :=
  seenBefore <- callExists now (issuersKey im) ;;
  addCRLs now im (x509.CRLDistributionPoints aCert) ;;;
  addIssuerDN now im (x509.IssuerDN aCert) ;;;
  ret seenBefore.

(** [Issuers()] and [CRLs()]: the error case ends the process
    ([glog.Fatalf]) and is the [Err] outcome here. *)
Definition Issuers (now : time.Time) (im : t) : M C B (list string) :=
  callSortedList now (issuersKey im).

Definition CRLs (now : time.Time) (im : t) : M C B (list string) :=
  callSortedList now (crlsKey im).

End Methods.

End IssuerMetadata.

Definition NewIssuerMetadata (aExpDate : string) (aIssuer : Issuer.t) : IssuerMetadata.t :=
  {| IssuerMetadata.expDate := aExpDate; IssuerMetadata.issuer := aIssuer |}.

(** ** IssuerMetadata, the file-backed revision (storage/issuermetadata.go) *)

Module IssuerMetadataFile.

Record metadata := { Crls : list string }.

Record t := { meta : metadata; filePath : string }.

Definition New (aMetadataPath : string) : t :=
  {| meta := {| Crls := [] |}; filePath := aMetadataPath |}.

Definition addCRL (aCRL : string) (im : t) : t :=
  let crls := Crls (meta im) in
  let count := length crls in
  let idx := sort.Search count (fun i => strings.le aCRL (nth i crls "")) in
  if (idx <? count)%nat && String.eqb aCRL (nth idx crls "") then im
  else {| meta := {| Crls := take idx crls ++ aCRL :: drop idx crls |}; filePath := filePath im |}.

(** The loop of [Accumulate] over the distribution points. *)
Fixpoint accumulate (dps : list string) (im : t) : t :=
  match dps with
  | [] => im
  | dp :: dps' =>
      match url.Parse dp with
      | (_, Some _) => accumulate dps' im
      | (None, None) => accumulate dps' im
      | (Some u, None) =>
          if String.eqb (url.Scheme u) "http" || String.eqb (url.Scheme u) "https"
          then accumulate dps' (addCRL dp im)
          else if String.eqb (url.Scheme u) "ldap" || String.eqb (url.Scheme u) "ldaps"
          then im
          else accumulate dps' im
      end
  end.

(** Must tolerate duplicate information. *)
Definition Accumulate (aCert : x509.Certificate) (im : t) : t :=
  accumulate (x509.CRLDistributionPoints aCert) im.

End IssuerMetadataFile.

(** ** The in-memory storage backend (storage/mockbackend.go) *)

Module MockBackend.

Record t := {
  expDateToIssuer : gmap string (list Issuer.t);
  expDateIssuerIDToSerials : gmap string (list Serial.t);
  store : gmap string (list byte)
}.

Definition New : t :=
  {| expDateToIssuer := ∅; expDateIssuerIDToSerials := ∅; store := ∅ |}.

Definition MarkDirty (id : string) (db : t) : option error * t := (None, db).

Definition AllocateExpDateAndIssuer (expDate : string) (issuer : Issuer.t) (db : t)
  : option error * t :=
  let issuers := default [] (expDateToIssuer db !! expDate) in
  let i := sort.Search (length issuers)
             (fun i => strings.le (Issuer.ID issuer) (Issuer.ID (nth i issuers (NewIssuerFromString "")))) in
  if (i <? length issuers)%nat
     && String.eqb (Issuer.ID (nth i issuers (NewIssuerFromString ""))) (Issuer.ID issuer)
  then (None, db)
  else (None,
        {| expDateToIssuer := <[expDate := take i issuers ++ issuer :: drop i issuers]> (expDateToIssuer db);
           expDateIssuerIDToSerials := expDateIssuerIDToSerials db;
           store := store db |}).

Definition StoreCertificatePEM (serial : Serial.t) (expDate : string) (issuer : Issuer.t)
    (b : list byte) (db : t) : option error * t :=
  let key := String.append expDate (Issuer.ID issuer) in
  let val := default [] (expDateIssuerIDToSerials db !! key) in
  (None,
   {| expDateToIssuer := expDateToIssuer db;
      expDateIssuerIDToSerials := <[key := val ++ [serial]]> (expDateIssuerIDToSerials db);
      store := <[String.append "pem" (String.append expDate
                   (String.append (Issuer.ID issuer) (Serial.ID serial))) := b]> (store db) |}).

Definition LoadCertificatePEM (serial : Serial.t) (expDate : string) (issuer : Issuer.t) (db : t)
  : list byte * option error :=
  match store db !! String.append "pem" (String.append expDate
                      (String.append (Issuer.ID issuer) (Serial.ID serial))) with
  | Some data => (data, None)
  | None => ([], Some (Errorf "Couldn't find"))
  end.

Section LogState.
(** [json.Marshal] and [json.Unmarshal] at [CertificateLog]. *)
Variable json_Marshal : CertificateLog.t -> list byte * option error.
Variable json_Unmarshal : list byte -> option CertificateLog.t * option error.

Definition StoreLogState (log : CertificateLog.t) (db : t) : option error * t :=
  match json_Marshal log with
  | (_, Some err) => (Some err, db)
  | (data, None) =>
      (None,
       {| expDateToIssuer := expDateToIssuer db;
          expDateIssuerIDToSerials := expDateIssuerIDToSerials db;
          store := <[String.append "logstate" (CertificateLog.ShortURL log) := data]> (store db) |})
  end.

Definition LoadLogState (logURL : string) (db : t) : option CertificateLog.t * option error :=
  match store db !! String.append "logstate" logURL with
  | Some data => json_Unmarshal data
  | None =>
      (Some {| CertificateLog.ShortURL := logURL; CertificateLog.MaxEntry := 0;
               CertificateLog.LastEntryTime := time.zero |}, None)
  end.

End LogState.

(** The loop of [ListExpirationDates] over the keys of the map. *)
Fixpoint listFrom (truncatedNotBefore : time.Time) (keys : list string) (dates : list string)
  : list string * option error :=
  match keys with
  | [] => (dates, None)
  | key :: keys' =>
      match time.Parse key with
      | (_, Some err) => ([], Some err)
      | (v, None) =>
          if negb (time.Before v truncatedNotBefore)
          then listFrom truncatedNotBefore keys' (dates ++ [key])
          else listFrom truncatedNotBefore keys' dates
      end
  end.

(** The keys are visited in the order of the map, which Go leaves open. *)
Definition ListExpirationDates (aNotBefore : time.Time) (db : t) : list string * option error :=
  let '(y, m, d) := time.Date aNotBefore in
  let truncatedNotBefore := time.midnight y m d in
  listFrom truncatedNotBefore (map fst (map_to_list (expDateToIssuer db))) [].

Definition ListIssuersForExpirationDate (expDate : string) (db : t)
  : list Issuer.t * option error :=
  (default [] (expDateToIssuer db !! expDate), None).

Definition ListSerialsForExpirationDateAndIssuer (expDate : string) (issuer : Issuer.t) (db : t)
  : list Serial.t * option error :=
  (default [] (expDateIssuerIDToSerials db !! String.append expDate (Issuer.ID issuer)), None).

(** [StreamSerialsForExpirationDateAndIssuer]: the listed serials are
    sent on a channel that holds them all; the channel is not closed. *)
Definition StreamSerialsForExpirationDateAndIssuer (expDate : string) (issuer : Issuer.t)
    (db : t) : option (stream Serial.t) * option error :=
  match ListSerialsForExpirationDateAndIssuer expDate issuer db with
  | (_, Some err) => (None, Some err)
  | (allSerials, None) => (Some {| sent := allSerials; closed := false |}, None)
  end.

End MockBackend.

#[export] Instance MockBackend_StorageBackend : StorageBackend MockBackend.t := {
  MarkDirty := MockBackend.MarkDirty;
  StoreCertificatePEM := MockBackend.StoreCertificatePEM;
  AllocateExpDateAndIssuer := MockBackend.AllocateExpDateAndIssuer
}.

(** ** FilesystemDatabase *)

Module FilesystemDatabase.

Section Methods.
Context {C B : Type} `{RemoteCache C} `{StorageBackend B}.
(** The TTL slack of [KnownCertificates.SetExpiryFlag], and
    [pem.EncodeToMemory]. *)
Variable slack : Z.
Variable pem_EncodeToMemory : pem.Block -> list byte.
(** [time.Now().Format(time.RFC3339)] and [strconv.FormatInt(n, 10)]. *)
Variable formatRFC3339 : time.Time -> string.
Variable strconv_FormatInt : Z -> string.

Definition GetKnownCertificates (aExpDate : string) (aIssuer : Issuer.t) : KnownCertificates.t :=
  NewKnownCertificates aExpDate aIssuer.

(** Modelled from the spec: the metadata handle of a shard, with the
    keys [issuer::<expDate>::<issuerID>] and [crl::<expDate>::<issuerID>]
    (the constructor this revision of [GetIssuerMetadata] calls is not
    among the sources). *)
Definition GetIssuerMetadata (aExpDate : string) (aIssuer : Issuer.t) : IssuerMetadata.t :=
  NewIssuerMetadata aExpDate aIssuer.

Definition markDirty (aExpiration : time.Time) : M C B unit :=
  callMarkDirty (time.Format aExpiration).

Definition Store (now : time.Time) (aCert aIssuer : x509.Certificate) (aLogURL : string)
    (aEntryId : Z) : M C B unit :=
  let expDate := time.Format (x509.NotAfter aCert) in
  let issuer := NewIssuer aIssuer in
  let knownCerts := GetKnownCertificates expDate issuer in
  let pemblock :=
    {| pem.Type_ := "CERTIFICATE";
       pem.Headers := [("Log", aLogURL); ("Recorded-at", formatRFC3339 now);
                       ("Entry-id", strconv_FormatInt aEntryId)];
       pem.Bytes := x509.Raw aCert |} in
  let serialNum := NewSerial aCert in
  certWasUnknown <- KnownCertificates.WasUnknown now knownCerts serialNum ;;
  (if certWasUnknown then
     issuerSeenBefore <- IssuerMetadata.Accumulate now (GetIssuerMetadata expDate issuer) aCert ;;
     (if negb issuerSeenBefore then
        (* if the issuer/expdate was unknown in the cache *)
        callAllocateExpDateAndIssuer expDate issuer ;;;
        KnownCertificates.SetExpiryFlag slack now knownCerts
      else ret tt) ;;;
     callStoreCertificatePEM serialNum expDate issuer (pem_EncodeToMemory pemblock)
   else ret tt) ;;;
  (* Mark the directory dirty *)
  markDirty (x509.NotAfter aCert).

(** One submission: the clock reading and the arguments of [Store]. *)
Record submission := {
  at_time : time.Time;
  cert : x509.Certificate;
  issuerCert : x509.Certificate;
  logURL : string;
  entryId : Z
}.

(** A sequence of calls to [Store], whatever each returns. *)
Fixpoint StoreAll (calls : list submission) (w : World C B) : World C B :=
  match calls with
  | [] => w
  | c :: calls' =>
      StoreAll calls' (snd (Store (at_time c) (cert c) (issuerCert c) (logURL c) (entryId c) w))
  end.

End Methods.

End FilesystemDatabase.

(** ** The document store (cloud.google.com/go/firestore), as the backend uses it *)

(** [err.Error()] *)
Definition codeName (c : codes) : string :=
  match c with
  | NotFound => "NotFound"
  | AlreadyExists => "AlreadyExists"
  | DeadlineExceeded => "DeadlineExceeded"
  | Unavailable => "Unavailable"
  | Internal => "Internal"
  | Unknown => "Unknown"
  end.

Definition Error_ (e : error) : string :=
  match e with
  | CorruptInputError n => String.append "illegal data at input byte " (time.decimal 1 n)
  | ErrLength => "encoding/hex: odd length hex string"
  | InvalidByteError b => String.append "encoding/hex: invalid byte: " (String b EmptyString)
  | Errorf msg => msg
  | StatusError c desc =>
      String.append "rpc error: code = " (String.append (codeName c) (String.append " desc = " desc))
  | IteratorDone => "no more items in iterator"
  end.

(** [status.Code(err)] of an error that is not [nil]. *)
Definition status_Code (e : error) : codes :=
  match e with
  | StatusError c _ => c
  | _ => Unknown
  end.

Module firestore.

Inductive value :=
| VString (s : string)
| VInt (z : Z)
| VBytes (b : list byte).

(** The documents of a database, by path. *)
Record Client := { documents : gmap string (gmap string value) }.

(** [client.Doc(path)]: [nil] if the path has an odd number of IDs or
    an empty one. *)
Definition Doc (path : string) : option string :=
  let ids := filepath.split (list_ascii_of_string path) in
  if forallb (fun p => negb (length p =? 0)%nat) ids && Nat.even (length ids)
  then Some path else None.

(** Every call to the server may fail on its own: [fault] is the error
    it then returns, [None] when the server answers. *)
Definition Get (fault : option error) (ref : string) (c : Client)
  : option (gmap string value) * option error :=
  match fault with
  | Some e => (None, Some e)
  | None =>
      match documents c !! ref with
      | Some d => (Some d, None)
      | None => (None, Some (StatusError NotFound "document not found"))
      end
  end.

Definition Create (fault : option error) (ref : string) (data : gmap string value) (c : Client)
  : option error * Client :=
  match fault with
  | Some e => (Some e, c)
  | None =>
      match documents c !! ref with
      | Some _ => (Some (StatusError AlreadyExists "document already exists"), c)
      | None => (None, {| documents := <[ref := data]> (documents c) |})
      end
  end.

Definition Set_ (fault : option error) (ref : string) (data : gmap string value) (c : Client)
  : option error * Client :=
  match fault with
  | Some e => (Some e, c)
  | None => (None, {| documents := <[ref := data]> (documents c) |})
  end.

(** [docsnap.DataAt(field)] *)
Definition DataAt (d : gmap string value) (field : string) : option value * option error :=
  match d !! field with
  | Some v => (Some v, None)
  | None => (None, Some (Errorf "firestore: no field"))
  end.

(** A query: the IDs of the documents it matches, in the order of the
    index, its limit and its offset. *)
Record Query := {
  matching : list string;
  limit : option nat;
  offset : nat
}.

Definition Limit (n : nat) (q : Query) : Query :=
  {| matching := matching q; limit := Some n; offset := offset q |}.

Definition Offset (n : nat) (q : Query) : Query :=
  {| matching := matching q; limit := limit q; offset := n |}.

(** What the calls of [iter.Next()] return: the documents, then
    [iterator.Done] or an error. *)
Record DocumentIterator := {
  items : list (option string);
  final : error
}.

Definition page (q : Query) : list string :=
  match limit q with
  | Some n => take n (drop (offset q) (matching q))
  | None => drop (offset q) (matching q)
  end.

(** [q.Documents(ctx)]: the page of the query; with the fault [(n, e)]
    the error [e] comes after [n] documents. *)
Definition Documents (fault : option (nat * error)) (q : Query) : DocumentIterator :=
  match fault with
  | Some (n, e) =>
      if (n <=? length (page q))%nat
      then {| items := map Some (take n (page q)); final := e |}
      else {| items := map Some (page q); final := IteratorDone |}
  | None => {| items := map Some (page q); final := IteratorDone |}
  end.

(** The ID of [path] as a document of the collection [coll]. *)
Definition childID (coll : string) (path : string) : option string :=
  let c := list_ascii_of_string coll in
  let p := list_ascii_of_string path in
  if bool_decide (take (length c) p = c) then
    match drop (length c) p with
    | sep :: id =>
        if Ascii.eqb sep "/" && negb (length id =? 0)%nat
           && forallb (fun x => negb (Ascii.eqb x "/")) id
        then Some (string_of_list_ascii id) else None
    | [] => None
    end
  else None.

(** [client.Collection(coll).Where("type", "==", ty)] *)
Definition CollectionWhereType (coll ty : string) (c : Client) : Query :=
  {| matching :=
       omap (fun kv =>
               match childID coll kv.1, kv.2 !! "type" with
               | Some id, Some (VString t) => if String.eqb t ty then Some id else None
               | _, _ => None
               end)
            (map_to_list (documents c));
     limit := None;
     offset := 0 |}.

(** [client.Collection(path)]: [nil] if the path has an even number of
    IDs or an empty one. *)
Definition Collection (path : string) : option string :=
  let ids := filepath.split (list_ascii_of_string path) in
  if forallb (fun p => negb (length p =? 0)%nat) ids && Nat.odd (length ids)
  then Some path else None.

(** The snapshots of the documents that
    [client.Collection(coll).Where("type", "==", ty)] matches, in the
    order of the index. *)
Definition SnapshotsWhereType (coll ty : string) (c : Client) : list (gmap string value) :=
  omap (fun kv =>
          match childID coll kv.1, kv.2 !! "type" with
          | Some id, Some (VString t) => if String.eqb t ty then Some kv.2 else None
          | _, _ => None
          end)
       (map_to_list (documents c)).

End firestore.

(** ** The Firestore backend (storage/firestorebackend.go) *)

Definition kFieldType : string := "type".
Definition kFieldData : string := "data".
Definition kFieldExpDate : string := "expDate".
Definition kFieldIssuer : string := "issuer".
Definition kFieldURL : string := "shortUrl".
Definition kFieldUnixTime : string := "unixTime".
Definition kTypePEM : string := "PEM".
Definition kTypeLogState : string := "LogState".
Definition kTypeExpDate : string := "ExpDate".
Definition kTypeMetadata : string := "Metadata".

Definition logNameToId (logURL : string) : string :=
  let digest := sha256.Sum256 (bytes_of_string logURL) in
  base64.EncodeToString base64.RawURLEncoding digest.

Module FirestoreBackend.

(** The client and the counters of [metrics.IncrCounter]. *)
Record t := {
  client : firestore.Client;
  counters : gmap string Z
}.

Definition IncrCounter (key : string) (db : t) : t :=
  {| client := client db;
     counters := <[key := default 0 (counters db !! key) + 1]> (counters db) |}.

Definition withClient (c : firestore.Client) (db : t) : t :=
  {| client := c; counters := counters db |}.

Definition MarkDirty (id : string) (db : t) : option error * t := (None, db).

Definition StoreCertificatePEM (fault : option error) (serial : Serial.t) (expDate : string)
    (issuer : Issuer.t) (b : list byte) (db : t) : result (option error) * t :=
  if (len expDate =? 0) then (Panic "StoreCertificatePEM invalid arguments", db)
  else
    let id := filepath.Join ["ct"; expDate; "issuer"; Issuer.ID issuer; "certs"; Serial.ID serial] in
    match firestore.Doc id with
    | None => (Ret (Some (Errorf "Couldn't open Document")), db)
    | Some doc =>
        let '(err, c) :=
          firestore.Create fault doc
            (<[kFieldType := firestore.VString kTypePEM]>
               (<[kFieldData := firestore.VBytes b]> ∅)) (client db) in
        match err with
        | Some e =>
            match status_Code e with
            | AlreadyExists =>
                (Ret None, IncrCounter "StoreCertificatePEM.collision" (withClient c db))
            | _ => (Ret err, IncrCounter "StoreCertificatePEM.success" (withClient c db))
            end
        | None => (Ret err, IncrCounter "StoreCertificatePEM.success" (withClient c db))
        end
    end.

Definition StoreLogState (fault : option error) (log : CertificateLog.t) (db : t)
  : option error * t :=
  let id := filepath.Join ["logs"; logNameToId (CertificateLog.ShortURL log)] in
  match firestore.Doc id with
  | None => (Some (Errorf "Couldn't open Document"), db)
  | Some doc =>
      let '(err, c) :=
        firestore.Set_ fault doc
          (<[kFieldType := firestore.VString kTypeLogState]>
             (<[kFieldURL := firestore.VString (CertificateLog.ShortURL log)]>
                (<[kFieldData := firestore.VInt (CertificateLog.MaxEntry log)]>
                   (<[kFieldUnixTime :=
                        firestore.VInt (time.toUnix (CertificateLog.LastEntryTime log))]> ∅))))
          (client db) in
      (err, withClient c db)
  end.

Definition allocateExpDate (fault : option error) (expDate : string) (db : t) : option error * t :=
  match firestore.Doc (filepath.Join ["ct"; expDate]) with
  | None => (Some (Errorf "Couldn't allocate document for exp date"), db)
  | Some doc =>
      let '(err, c) :=
        firestore.Set_ fault doc
          (<[kFieldType := firestore.VString kTypeExpDate]>
             (<[kFieldExpDate := firestore.VString expDate]> ∅)) (client db) in
      (err, withClient c db)
  end.

Definition allocateIssuerExpDate (fault : option error) (expDate : string) (issuer : Issuer.t)
    (db : t) : option error * t :=
  match firestore.Doc (filepath.Join ["ct"; expDate; "issuer"; Issuer.ID issuer]) with
  | None => (Some (Errorf "Couldn't allocate document for exp date issuer"), db)
  | Some doc =>
      let '(err, c) :=
        firestore.Set_ fault doc
          (<[kFieldType := firestore.VString kTypeMetadata]>
             (<[kFieldExpDate := firestore.VString expDate]>
                (<[kFieldIssuer := firestore.VString (Issuer.ID issuer)]> ∅))) (client db) in
      (err, withClient c db)
  end.

Definition AllocateExpDateAndIssuer (fault1 fault2 : option error) (expDate : string)
    (issuer : Issuer.t) (db : t) : option error * t :=
  match allocateExpDate fault1 expDate db with
  | (Some err, db') => (Some err, db')
  | (None, db') => allocateIssuerExpDate fault2 expDate issuer db'
  end.

(** [LoadCertificatePEM]: the type assertion [data.([]byte)] panics
    when the document has no [data] field or one of another type. *)
Definition LoadCertificatePEM (fault : option error) (serial : Serial.t) (expDate : string)
    (issuer : Issuer.t) (db : t) : result (list byte * option error) :=
  let id := filepath.Join ["ct"; expDate; "issuer"; Issuer.ID issuer; "certs"; Serial.ID serial] in
  match firestore.Doc id with
  | None => Ret ([], Some (Errorf "Couldn't open Document"))
  | Some doc =>
      match firestore.Get fault doc (client db) with
      | (_, Some err) => Ret ([], Some err)
      | (None, None) => Panic "nil snapshot"
      | (Some docsnap, None) =>
          match firestore.DataAt docsnap kFieldData with
          | (Some (firestore.VBytes data), err) => Ret (data, err)
          | (_, _) => Panic "interface conversion"
          end
      end
  end.

(** [LoadLogState]: a type assertion on a field of the wrong type panics. *)
Definition LoadLogState (fault : option error) (logURL : string) (db : t)
  : result (option CertificateLog.t * option error) :=
  let id := filepath.Join ["logs"; logNameToId logURL] in
  match firestore.Doc id with
  | None => Ret (None, Some (Errorf "Couldn't open Document"))
  | Some doc =>
      match firestore.Get fault doc (client db) with
      | (_, Some err) =>
          match status_Code err with
          | NotFound =>
              (* The default state is a new log *)
              Ret (Some {| CertificateLog.ShortURL := logURL; CertificateLog.MaxEntry := 0;
                           CertificateLog.LastEntryTime := time.zero |}, None)
          | _ => Ret (None, Some err)
          end
      | (None, None) => Panic "nil snapshot"
      | (Some docsnap, None) =>
          match firestore.DataAt docsnap kFieldURL with
          | (_, Some err) => Ret (None, Some err)
          | (url, None) =>
              match firestore.DataAt docsnap kFieldData with
              | (_, Some err) => Ret (None, Some err)
              | (maxEntry, None) =>
                  match firestore.DataAt docsnap kFieldUnixTime with
                  | (_, Some err) => Ret (None, Some err)
                  | (timeSec, None) =>
                      match url, maxEntry, timeSec with
                      | Some (firestore.VString u), Some (firestore.VInt m),
                        Some (firestore.VInt s) =>
                          Ret (Some {| CertificateLog.ShortURL := u;
                                       CertificateLog.MaxEntry := m;
                                       CertificateLog.LastEntryTime := time.Unix s |}, None)
                      | _, _, _ => Panic "interface conversion"
                      end
                  end
              end
          end
      end
  end.

(** The loop of [StreamExpirationDates] over the iterator: the IDs are
    sent until the iterator is done, fails or yields no document. *)
Fixpoint sendIDs (items : list (option string)) : list string :=
  match items with
  | Some id :: items' => id :: sendIDs items'
  | None :: _ => []
  | [] => []
  end.

Definition StreamExpirationDates (fault : option (nat * error)) (aNotBefore : time.Time) (db : t)
  : stream string * option error :=
  let iter := firestore.Documents fault
                (firestore.CollectionWhereType "ct" kTypeExpDate (client db)) in
  ({| sent := sendIDs (firestore.items iter); closed := true |}, None).

Definition ListExpirationDates (fault : option (nat * error)) (aNotBefore : time.Time) (db : t)
  : list string * option error :=
  match StreamExpirationDates fault aNotBefore db with
  | (dateChan, Some err) => ([], Some err)
  | (dateChan, None) => (sent dateChan, None)
  end.

(** The loop of [StreamIssuersForExpirationDate] over the snapshots the
    iterator yields: a document without the field [issuer] is skipped,
    and the type assertion [name.(string)] panics on a field of another
    type. *)
Fixpoint sendIssuers (docs : list (gmap string firestore.value)) : result (list Issuer.t) :=
  match docs with
  | [] => Ret []
  | doc :: docs' =>
      match firestore.DataAt doc kFieldIssuer with
      | (_, Some _) => sendIssuers docs'
      | (Some (firestore.VString name), None) =>
          match sendIssuers docs' with
          | Ret out => Ret (NewIssuerFromString name :: out)
          | Panic msg => Panic msg
          end
      | (_, None) => Panic "interface conversion"
      end
  end.

(** [StreamIssuersForExpirationDate]: with the fault [(n, e)] the
    iterator fails after [n] documents, and the loop returns there as
    it does at the end; the query on a [nil] collection panics. *)
Definition StreamIssuersForExpirationDate (fault : option (nat * error)) (expDate : string)
    (db : t) : result (stream Issuer.t * option error) :=
  let id := filepath.Join ["ct"; expDate; "issuer"] in
  match firestore.Collection id with
  | None => Panic "invalid memory address or nil pointer dereference"
  | Some coll =>
      let docs := firestore.SnapshotsWhereType coll kTypeMetadata (client db) in
      match sendIssuers (match fault with Some (n, _) => take n docs | None => docs end) with
      | Ret out => Ret ({| sent := out; closed := true |}, None)
      | Panic msg => Panic msg
      end
  end.

Definition ListIssuersForExpirationDate (fault : option (nat * error)) (expDate : string)
    (db : t) : result (list Issuer.t * option error) :=
  match StreamIssuersForExpirationDate fault expDate db with
  | Ret (issuerChan, Some err) => Ret ([], Some err)
  | Ret (issuerChan, None) => Ret (sent issuerChan, None)
  | Panic msg => Panic msg
  end.

(** [processSerialDocumentQuery]: the error, the count, and the serials
    sent on the channel. *)
Fixpoint processItems (items : list (option string)) (final : error) (count : nat)
  : option error * nat * list Serial.t :=
  match items with
  | [] =>
      match final with
      | IteratorDone => (None, count, [])
      | err => (Some err, count, [])
      end
  | None :: _ => (Some (Errorf "nil document returned"), count, [])
  | Some id :: items' =>
      match NewSerialFromIDString id with
      | (_, Some _) => processItems items' final count
      | (serialObj, None) =>
          let '(err, n, out) := processItems items' final (count + 1) in
          (err, n, serialObj :: out)
      end
  end.

Definition processSerialDocumentQuery (fault : option (nat * error)) (q : firestore.Query)
  : option error * nat * list Serial.t :=
  let iter := firestore.Documents fault q in
  processItems (firestore.items iter) (firestore.final iter) 0.

(** The loop of [StreamSerialsForExpirationDateAndIssuer].  [faults]
    holds the fault of each query in turn; the queries after the last
    one meet none.  [None] when [fuel] turns were not enough. *)
Fixpoint streamLoop (fuel : nat) (query : firestore.Query) (offset : nat)
    (faults : list (option (nat * error))) : option (list Serial.t) :=
  match fuel with
  | O => None
  | S fuel' =>
      let '(err, count, out) :=
        processSerialDocumentQuery (default None (head faults)) (firestore.Offset offset query) in
      let offset := (offset + count)%nat in
      match err with
      | Some e =>
          if strings.Contains (Error_ e) "DeadlineExceeded"
          then option_map (app out) (streamLoop fuel' query offset (tail faults))
          else Some out
      | None =>
          if (count =? 0)%nat then Some out
          else option_map (app out) (streamLoop fuel' query offset (tail faults))
      end
  end.

(** The stream of a query: every turn of the loop that is followed by
    another uses up a fault or moves the offset forward, so the fuel
    given here is enough.  The channel is closed when the loop returns. *)
Definition streamQuery (faults : list (option (nat * error))) (query : firestore.Query)
  : option (stream Serial.t) :=
  option_map (fun out => {| sent := out; closed := true |})
    (streamLoop (S (length faults + length (firestore.matching query))) query 0 faults).

(** [StreamSerialsForExpirationDateAndIssuer], on the collection of the
    shard. *)
Definition StreamSerialsForExpirationDateAndIssuer (faults : list (option (nat * error)))
    (expDate : string) (issuer : Issuer.t) (db : t) : option (stream Serial.t) :=
  let id := filepath.Join ["ct"; expDate; "issuer"; Issuer.ID issuer; "certs"] in
  streamQuery faults
    (firestore.Limit 4096 (firestore.CollectionWhereType id kTypePEM (client db))).

(** [ListSerialsForExpirationDateAndIssuer]: what the stream sends,
    collected; the stream returns no error. *)
Definition ListSerialsForExpirationDateAndIssuer (faults : list (option (nat * error)))
    (expDate : string) (issuer : Issuer.t) (db : t) : option (list Serial.t * option error) :=
  option_map (fun serialChan => (sent serialChan, None))
    (StreamSerialsForExpirationDateAndIssuer faults expDate issuer db).

End FirestoreBackend.

(** ** Notions for the properties of [Store] *)

(** [a] sorts strictly before [b] ([strings.Compare(a, b) < 0]). *)
Definition before (a b : string) : Prop := String.compare a b = Lt.

(** The key of the known-set of the shard [(e, i)]. *)
Definition serialsKey (e i : string) : string :=
  KnownCertificates.serialId (NewKnownCertificates e (NewIssuerFromString i)).

Definition isPEM (ev : event) : bool :=
  match ev with
  | CallStoreCertificatePEM _ _ _ _ _ => true
  | _ => false
  end.

(** A computation that only makes calls of the kind [Q]. *)
Definition emitting {C B A : Type} (Q : event -> Prop) (m : M C B A) : Prop :=
  forall w, exists evs, trace (snd (m w)) = trace w ++ evs /\ Forall Q evs.

(** No call to [StoreCertificatePEM]. *)
Definition quiet (ev : event) : Prop := isPEM ev = false.


(** No call to [StoreCertificatePEM] but for the serial [s] in the shard [(e, i)]. *)
Definition only (s : Serial.t) (e i : string) (ev : event) : Prop :=
  match ev with
  | CallStoreCertificatePEM s' e' i' _ _ => s' = s /\ e' = e /\ i' = i
  | _ => True
  end.

(** Every call of [StoreCertificatePEM] among [evs] comes after a
    successful insert of its serial into the known-set of its shard. *)
Definition insertedBefore (evs : list event) : Prop :=
  forall pre s e i b err post,
    evs = pre ++ CallStoreCertificatePEM s e i b err :: post ->
    CallSortedInsert (serialsKey e i) (Serial.ID s) true None ∈ pre.

Definition MockWorld : Type := World MockRemoteCache.t MockBackend.t.

(** The instant at which the known-set of a shard of date [e] expires,
    as [SetExpiryFlag] computes it. *)
Definition expiryOf (slack : Z) (e : string) : option time.Time :=
  match time.Parse e with
  | (expireTime, None) =>
      Some {| time.sec := time.sec expireTime + slack; time.nsec := time.nsec expireTime |}
  | (_, Some _) => None
  end.

(** What the cache holds under [key] stays, provided the key has not
    expired at [now]. *)
Definition keeps (now : time.Time) (key : string) (c c' : MockRemoteCache.t) : Prop :=
  MockRemoteCache.expired now c key = false ->
  MockRemoteCache.Data c' !! key = MockRemoteCache.Data c !! key
  /\ MockRemoteCache.Expirations c' !! key = MockRemoteCache.Expirations c !! key.

(** A computation on the in-process cache and backend that returns no
    error, leaves the backend alone and keeps what is under [key]. *)
Definition steady {A : Type} (now : time.Time) (key : string)
    (m : M MockRemoteCache.t MockBackend.t A) : Prop :=
  forall w, (exists a, fst (m w) = Ok a)
            /\ backend (snd (m w)) = backend w
            /\ keeps now key (cache w) (cache (snd (m w))).

#[export] Instance byte_eq_dec : EqDecision byte := Byte.byte_eq_dec.

#[export] Instance Serial_eq_dec : EqDecision Serial.t.
Proof. solve_decision. Defined.

(** The shard of a submission: its expiration date and the id of its issuer. *)
Definition shard (c : FilesystemDatabase.submission) : string * string :=
  (time.Format (x509.NotAfter (FilesystemDatabase.cert c)),
   Issuer.ID (NewIssuer (FilesystemDatabase.issuerCert c))).

(** The serials submitted to the shard [(e, i)], in the order of the calls. *)
Definition submitted (e i : string) (calls : list FilesystemDatabase.submission)
  : list Serial.t :=
  map (fun c => NewSerial (FilesystemDatabase.cert c))
    (filter (fun c => shard c = (e, i)) calls).

(** The serials of the calls to [StoreCertificatePEM] for the shard [(e, i)]. *)
Definition pemWrites (e i : string) (tr : list event) : list Serial.t :=
  omap (fun ev =>
          match ev with
          | CallStoreCertificatePEM s e' i' _ _ =>
              if decide ((e', i') = (e, i)) then Some s else None
          | _ => None
          end) tr.

(** No call is made after the known-set of a shard of date [e] has expired. *)
Definition unexpired (slack : Z) (e : string) (calls : list FilesystemDatabase.submission)
  : bool :=
  forallb (fun c =>
             match expiryOf slack e with
             | Some t => negb (time.Before t (FilesystemDatabase.at_time c))
             | None => true
             end) calls.

(** * Properties *)

(** ** Bytes and bit arithmetic *)

Lemma Z_of_byte_range (b : byte) : 0 <= Z_of_byte b < 256.
Proof.
  unfold Z_of_byte. pose proof (Byte.to_N_bounded b) as Hb. lia.
Qed.

Lemma byte_of_Z_of_byte (b : byte) : byte_of_Z (Z_of_byte b) = b.
Proof.
  unfold byte_of_Z. rewrite Z.mod_small by apply Z_of_byte_range.
  unfold Z_of_byte. rewrite N2Z.id, Byte.of_to_N. reflexivity.
Qed.

Lemma byte_of_Z_mod (z : Z) : byte_of_Z (z mod 256) = byte_of_Z z.
Proof. unfold byte_of_Z. rewrite Z.mod_mod by lia. reflexivity. Qed.

Lemma Z_of_ascii_range (c : ascii) : 0 <= Z_of_ascii c < 256.
Proof.
  unfold Z_of_ascii. pose proof (N_ascii_bounded c) as Hc. lia.
Qed.

Lemma Z_of_ascii_of_Z (z : Z) : 0 <= z < 256 -> Z_of_ascii (ascii_of_Z z) = z.
Proof.
  intros Hz. unfold Z_of_ascii, ascii_of_Z. rewrite Z.mod_small by lia.
  rewrite N_ascii_embedding by lia. lia.
Qed.

(** A bitwise or of two numbers with no common bit is their sum. *)
Lemma lor_add (a b k : Z) :
  0 <= k -> 0 <= b < 2 ^ k -> a mod 2 ^ k = 0 -> Z.lor a b = a + b.
Proof.
  intros Hk Hb Ha.
  pose proof (Z.add_lor_land a b) as Hsum.
  assert (Hland : Z.land a b = 0).
  { apply Z.bits_inj'. intros n Hn. rewrite Z.land_spec, Z.bits_0.
    destruct (Z.lt_ge_cases n k) as [Hlt | Hge].
    - rewrite (Z.div_mod a (2 ^ k)) by lia. rewrite Ha, Z.add_0_r.
      rewrite Z.mul_comm, Z.mul_pow2_bits_low by lia. reflexivity.
    - destruct (Z.eq_dec b 0) as [-> | Hnz].
      + rewrite Z.bits_0. apply andb_false_r.
      + assert (2 ^ k <= 2 ^ n) by (apply Z.pow_le_mono_r; lia).
        rewrite (Z.bits_above_log2 b n); [apply andb_false_r | lia |].
        apply Z.log2_lt_pow2; lia. }
  lia.
Qed.

Lemma land_mod (a k : Z) : 0 <= k -> Z.land a (2 ^ k - 1) = a mod 2 ^ k.
Proof.
  intros Hk. rewrite <- Z.land_ones by lia. f_equal. rewrite Z.ones_equiv. lia.
Qed.

(** Turns shifts, masks and disjoint ors into arithmetic. *)
Ltac arith_bits :=
  repeat rewrite Z.shiftl_mul_pow2 by lia;
  repeat rewrite Z.shiftr_div_pow2 by lia;
  repeat first [rewrite (land_mod _ 6) by lia | rewrite (land_mod _ 4) by lia].

Ltac div_mod_lia := Z.to_euclidean_division_equations; lia.

(** ** Serial encodings (types.go) *)

Section ListInduction.
Context {A : Type} (P : list A -> Prop).

Lemma list_ind3 :
  P [] -> (forall a, P [a]) -> (forall a b, P [a; b]) ->
  (forall a b c l, P l -> P (a :: b :: c :: l)) ->
  forall l, P l.
Proof.
  intros H0 H1 H2 Hstep.
  assert (Hall : forall l, P l /\ (forall a, P (a :: l)) /\ (forall a b, P (a :: b :: l))).
  { induction l as [| x l (IH0 & IH1 & IH2)]; repeat split; auto. }
  intros l. apply Hall.
Qed.

Lemma list_ind4 :
  P [] -> (forall a, P [a]) -> (forall a b, P [a; b]) -> (forall a b c, P [a; b; c]) ->
  (forall a b c d l, P l -> P (a :: b :: c :: d :: l)) ->
  forall l, P l.
Proof.
  intros H0 H1 H2 H3 Hstep.
  assert (Hall : forall l, P l /\ (forall a, P (a :: l)) /\ (forall a b, P (a :: b :: l))
                           /\ (forall a b c, P (a :: b :: c :: l))).
  { induction l as [| x l (IH0 & IH1 & IH2 & IH3)]; repeat split; auto. }
  intros l. apply Hall.
Qed.

End ListInduction.

Lemma quantum3 (b0 b1 b2 : Z) :
  0 <= b0 < 256 -> 0 <= b1 < 256 -> 0 <= b2 < 256 ->
  let val := Z.lor (Z.lor (Z.shiftl b0 16) (Z.shiftl b1 8)) b2 in
  base64.quantumBytes
    [Z.land (Z.shiftr val 18) 63; Z.land (Z.shiftr val 12) 63;
     Z.land (Z.shiftr val 6) 63; Z.land val 63]
  = [byte_of_Z b0; byte_of_Z b1; byte_of_Z b2].
Proof.
  intros H0 H1 H2 val.
  assert (Hval : val = b0 * 65536 + b1 * 256 + b2).
  { subst val. arith_bits.
    rewrite (lor_add (b0 * 2 ^ 16) (b1 * 2 ^ 8) 16) by (try lia; div_mod_lia).
    rewrite (lor_add _ b2 8) by (try lia; div_mod_lia). lia. }
  clearbody val. subst val.
  unfold base64.quantumBytes. cbn [nth length Nat.sub firstn].
  change 63 with (2 ^ 6 - 1). arith_bits.
  set (v := b0 * 65536 + b1 * 256 + b2).
  assert (0 <= v < 2 ^ 24) by (subst v; lia).
  rewrite (lor_add (_ * 2 ^ 18) (_ * 2 ^ 12) 18) by (try lia; div_mod_lia).
  rewrite (lor_add _ (_ * 2 ^ 6) 12) by (try lia; div_mod_lia).
  rewrite (lor_add _ (v mod 2 ^ 6) 6) by (try lia; div_mod_lia).
  replace (_ + _ + _ + _) with v by div_mod_lia.
  rewrite <- (byte_of_Z_mod (v / _)), <- (byte_of_Z_mod (v / 2 ^ 8)), <- (byte_of_Z_mod v).
  repeat f_equal; subst v; div_mod_lia.
Qed.

Lemma quantum2 (b0 b1 : Z) :
  0 <= b0 < 256 -> 0 <= b1 < 256 ->
  let val := Z.lor (Z.shiftl b0 16) (Z.shiftl b1 8) in
  base64.quantumBytes
    [Z.land (Z.shiftr val 18) 63; Z.land (Z.shiftr val 12) 63; Z.land (Z.shiftr val 6) 63]
  = [byte_of_Z b0; byte_of_Z b1].
Proof.
  intros H0 H1 val.
  assert (Hval : val = b0 * 65536 + b1 * 256).
  { subst val. arith_bits.
    rewrite (lor_add (b0 * 2 ^ 16) (b1 * 2 ^ 8) 16) by (try lia; div_mod_lia). lia. }
  clearbody val. subst val.
  unfold base64.quantumBytes. cbn [nth length Nat.sub firstn].
  change 63 with (2 ^ 6 - 1). arith_bits.
  set (v := b0 * 65536 + b1 * 256).
  assert (0 <= v < 2 ^ 24) by (subst v; lia).
  rewrite (lor_add (_ * 2 ^ 18) (_ * 2 ^ 12) 18) by (try lia; div_mod_lia).
  rewrite (lor_add _ (_ * 2 ^ 6) 12) by (try lia; div_mod_lia).
  rewrite Z.lor_0_r.
  rewrite <- (byte_of_Z_mod (_ / _)), <- (byte_of_Z_mod (_ / 2 ^ 8)).
  repeat f_equal; subst v; div_mod_lia.
Qed.

Lemma quantum1 (b0 : Z) :
  0 <= b0 < 256 ->
  let val := Z.shiftl b0 16 in
  base64.quantumBytes [Z.land (Z.shiftr val 18) 63; Z.land (Z.shiftr val 12) 63]
  = [byte_of_Z b0].
Proof.
  intros H0 val.
  unfold base64.quantumBytes. cbn [nth length Nat.sub firstn]. subst val.
  change 63 with (2 ^ 6 - 1). arith_bits.
  rewrite (lor_add (_ * 2 ^ 18) (_ * 2 ^ 12) 18) by (try lia; div_mod_lia).
  rewrite !Z.lor_0_r.
  rewrite <- (byte_of_Z_mod (_ / _)).
  repeat f_equal; div_mod_lia.
Qed.

Lemma sextet_range (x : Z) : 0 <= Z.land x 63 < 64.
Proof. change 63 with (2 ^ 6 - 1). rewrite land_mod by lia. div_mod_lia. Qed.

(** Every character of the URL alphabet decodes to its index. *)
Lemma decodeMap_encodeAt (k : Z) :
  0 <= k < 64 ->
  base64.decodeMap base64.URLEncoding (base64.encodeAt base64.URLEncoding k) = k.
Proof.
  intros Hk.
  assert (Hall : forallb (fun n => base64.decodeMap base64.URLEncoding
                                      (base64.encodeAt base64.URLEncoding (Z.of_nat n))
                                    =? Z.of_nat n) (seq 0 64) = true)
    by (vm_compute; reflexivity).
  rewrite forallb_forall in Hall.
  specialize (Hall (Z.to_nat k)). rewrite Z2Nat.id in Hall by lia.
  apply Z.eqb_eq, Hall, in_seq. lia.
Qed.

Lemma decodeFrom_sextet total si dbuf k rest :
  0 <= k < 64 ->
  base64.decodeFrom base64.URLEncoding total si dbuf
    (base64.encodeAt base64.URLEncoding k :: rest)
  = if (length (dbuf ++ [k]) =? 4)%nat
    then let '(bs, e) := base64.decodeFrom base64.URLEncoding total (si + 1) [] rest in
         (base64.quantumBytes (dbuf ++ [k]) ++ bs, e)
    else base64.decodeFrom base64.URLEncoding total (si + 1) (dbuf ++ [k]) rest.
Proof.
  intros Hk. cbn [base64.decodeFrom]. rewrite decodeMap_encodeAt by assumption.
  destruct (k =? 255) eqn:E; [lia | reflexivity].
Qed.

Lemma decodeFrom_pad2 total si s0 s1 :
  base64.decodeFrom base64.URLEncoding total si [s0; s1] (base64.padding base64.URLEncoding 2)
  = (base64.quantumBytes [s0; s1], None).
Proof. reflexivity. Qed.

Lemma decodeFrom_pad1 total si s0 s1 s2 :
  base64.decodeFrom base64.URLEncoding total si [s0; s1; s2]
    (base64.padding base64.URLEncoding 1)
  = (base64.quantumBytes [s0; s1; s2], None).
Proof. reflexivity. Qed.

Lemma base64_decode_encode (bs : list byte) :
  forall total si,
    base64.decodeFrom base64.URLEncoding total si [] (base64.Encode base64.URLEncoding bs)
    = (bs, None).
Proof.
  induction bs as [| b0 | b0 b1 | b0 b1 b2 bs IH] using list_ind3; intros total si.
  - reflexivity.
  - cbn [base64.Encode].
    rewrite !decodeFrom_sextet by apply sextet_range. cbn [app length Nat.eqb].
    rewrite decodeFrom_pad2, quantum1 by apply Z_of_byte_range.
    rewrite byte_of_Z_of_byte. reflexivity.
  - cbn [base64.Encode].
    rewrite !decodeFrom_sextet by apply sextet_range. cbn [app length Nat.eqb].
    rewrite decodeFrom_pad1, quantum2 by apply Z_of_byte_range.
    rewrite !byte_of_Z_of_byte. reflexivity.
  - cbn [base64.Encode].
    rewrite !decodeFrom_sextet by apply sextet_range. cbn [app length Nat.eqb].
    rewrite IH, quantum3 by apply Z_of_byte_range.
    rewrite !byte_of_Z_of_byte. reflexivity.
Qed.

Lemma NewSerialFromIDString_ID (s : Serial.t) :
  NewSerialFromIDString (Serial.ID s) = (s, None).
Proof.
  unfold NewSerialFromIDString, Serial.ID, base64.DecodeString, base64.EncodeToString.
  rewrite list_ascii_of_string_of_list_ascii, base64_decode_encode.
  destruct s. reflexivity.
Qed.

(** *** hex *)

Lemma fromHexChar_hexAt (k : Z) :
  0 <= k < 16 -> hex.fromHexChar (hex.hexAt k) = Some k.
Proof.
  intros Hk.
  assert (Hall : forallb (fun n => match hex.fromHexChar (hex.hexAt (Z.of_nat n)) with
                                   | Some v => v =? Z.of_nat n
                                   | None => false
                                   end) (seq 0 16) = true)
    by (vm_compute; reflexivity).
  rewrite forallb_forall in Hall.
  specialize (Hall (Z.to_nat k)). rewrite Z2Nat.id in Hall by lia.
  destruct (hex.fromHexChar (hex.hexAt k)) as [v |].
  - f_equal. apply Z.eqb_eq, Hall, in_seq. lia.
  - discriminate Hall. apply in_seq. lia.
Qed.

Lemma nibbles (b : Z) :
  0 <= b < 256 ->
  0 <= Z.shiftr b 4 < 16 /\ 0 <= Z.land b 15 < 16
  /\ Z.lor (Z.shiftl (Z.shiftr b 4) 4) (Z.land b 15) = b.
Proof.
  intros Hb. change 15 with (2 ^ 4 - 1). arith_bits.
  rewrite (lor_add _ _ 4) by (try lia; div_mod_lia).
  repeat split; div_mod_lia.
Qed.

Lemma hex_decode_encode (bs : list byte) : hex.Decode (hex.Encode bs) = (bs, None).
Proof.
  induction bs as [| b bs IH]; [reflexivity |].
  destruct (nibbles (Z_of_byte b) (Z_of_byte_range b)) as (Hhi & Hlo & Hb).
  cbn [hex.Encode hex.Decode].
  rewrite !fromHexChar_hexAt, IH, Hb, byte_of_Z_of_byte by assumption.
  reflexivity.
Qed.

Lemma NewSerialFromHex_HexString (s : Serial.t) :
  NewSerialFromHex (Serial.HexString s) = Ret s.
Proof.
  unfold NewSerialFromHex, Serial.HexString, hex.DecodeString, hex.EncodeToString.
  rewrite list_ascii_of_string_of_list_ascii, hex_decode_encode.
  destruct s. reflexivity.
Qed.

(** *** ascii85 *)

Lemma pack_add (b0 b1 b2 b3 : Z) :
  0 <= b0 < 256 -> 0 <= b1 < 256 -> 0 <= b2 < 256 -> 0 <= b3 < 256 ->
  ascii85.pack b0 b1 b2 b3 = b0 * 16777216 + b1 * 65536 + b2 * 256 + b3.
Proof.
  intros H0 H1 H2 H3. unfold ascii85.pack. arith_bits.
  rewrite (Z.lor_comm b3), (lor_add (b2 * _) b3 8) by (try lia; div_mod_lia).
  rewrite (Z.lor_comm _ (b1 * _)), (lor_add (b1 * _) _ 16) by (try lia; div_mod_lia).
  rewrite (Z.lor_comm _ (b0 * _)), (lor_add (b0 * _) _ 24) by (try lia; div_mod_lia).
  lia.
Qed.

Lemma decode_digit flush total room i v nb nsrc d rest :
  0 <= d < 85 -> 4 <= room -> 
  ascii85.decodeFrom flush total room i v nb nsrc (ascii_of_Z (33 + d) :: rest)
  = if nb + 1 =? 5
    then match ascii85.decodeFrom flush total (room - 4) (i + 1) 0 0 (i + 1) rest with
         | (bs, n, None) =>
             let v' := u32 (v * 85 + d) in
             (byte_of_Z (Z.shiftr v' 24) :: byte_of_Z (Z.shiftr v' 16)
              :: byte_of_Z (Z.shiftr v' 8) :: byte_of_Z v' :: bs, n, None)
         | (_, _, Some e) => ([], 0, Some e)
         end
    else ascii85.decodeFrom flush total room (i + 1) (u32 (v * 85 + d)) (nb + 1) nsrc rest.
Proof.
  intros Hd Hroom. cbn [ascii85.decodeFrom].
  rewrite Z_of_ascii_of_Z by lia.
  destruct (room <? 4) eqn:E1; [lia |].
  destruct (33 + d <=? 32) eqn:E2; [lia |].
  destruct (33 + d =? 122) eqn:E3; [lia |]. cbn [andb].
  destruct (33 <=? 33 + d) eqn:E4; [| lia].
  destruct (33 + d <=? 117) eqn:E5; [| lia]. cbn [andb].
  replace (33 + d - 33) with d by lia. reflexivity.
Qed.

Lemma decode_z flush total room i nsrc rest :
  4 <= room ->
  ascii85.decodeFrom flush total room i 0 0 nsrc ("z"%char :: rest)
  = match ascii85.decodeFrom flush total (room - 4) (i + 1) 0 0 (i + 1) rest with
    | (bs, n, None) => (x00 :: x00 :: x00 :: x00 :: bs, n, None)
    | (_, _, Some e) => ([], 0, Some e)
    end.
Proof.
  intros Hroom. cbn [ascii85.decodeFrom].
  destruct (room <? 4) eqn:E1; [lia |]. reflexivity.
Qed.

(** The value the decoder holds after reading the first [k] digits. *)
Lemma digits_value (v : Z) :
  0 <= v < 2 ^ 32 ->
  let d4 := (v / 85 / 85 / 85 / 85) mod 85 in
  let d3 := (v / 85 / 85 / 85) mod 85 in
  let d2 := (v / 85 / 85) mod 85 in
  let d1 := (v / 85) mod 85 in
  let d0 := v mod 85 in
  u32 (0 * 85 + d4) = v / 85 / 85 / 85 / 85
  /\ u32 (v / 85 / 85 / 85 / 85 * 85 + d3) = v / 85 / 85 / 85
  /\ u32 (v / 85 / 85 / 85 * 85 + d2) = v / 85 / 85
  /\ u32 (v / 85 / 85 * 85 + d1) = v / 85
  /\ u32 (v / 85 * 85 + d0) = v.
Proof.
  intros Hv. cbv zeta. unfold u32. change (2 ^ 32) with 4294967296 in *.
  repeat split; div_mod_lia.
Qed.

Lemma padWorst_small (n : nat) (v : Z) :
  0 <= v -> (v + 1) * 85 ^ Z.of_nat n <= 2 ^ 32 ->
  ascii85.padWorst n v = (v + 1) * 85 ^ Z.of_nat n - 1.
Proof.
  revert v. induction n as [| n IH]; intros v Hv Hsmall.
  - cbn [ascii85.padWorst]. change (85 ^ Z.of_nat 0) with 1. lia.
  - cbn [ascii85.padWorst]. rewrite Nat2Z.inj_succ, Z.pow_succ_r in * by lia.
    unfold u32. rewrite Z.mod_small by nia.
    rewrite IH by nia. nia.
Qed.

Lemma flush1 (b0 : Z) :
  0 <= b0 < 256 ->
  let V := b0 * 16777216 in
  ascii85.flushBytes 1 (ascii85.padWorst 3 (V / 85 / 85 / 85)) = [byte_of_Z b0].
Proof.
  intros H0 V. rewrite padWorst_small by (subst V; change (2 ^ 32) with 4294967296;
    change (85 ^ Z.of_nat 3) with 614125; div_mod_lia).
  change (85 ^ Z.of_nat 3) with 614125.
  set (W := (V / 85 / 85 / 85 + 1) * 614125 - 1).
  assert (HW : V <= W < V + 16777216) by (subst W V; div_mod_lia).
  clearbody W. cbn [ascii85.flushBytes].
  rewrite Z.shiftr_div_pow2 by lia. change (2 ^ 24) with 16777216.
  rewrite <- byte_of_Z_mod. repeat f_equal. subst V. div_mod_lia.
Qed.

Lemma flush2 (b0 b1 : Z) :
  0 <= b0 < 256 -> 0 <= b1 < 256 ->
  let V := b0 * 16777216 + b1 * 65536 in
  ascii85.flushBytes 2 (ascii85.padWorst 2 (V / 85 / 85)) = [byte_of_Z b0; byte_of_Z b1].
Proof.
  intros H0 H1 V. rewrite padWorst_small by (subst V; change (2 ^ 32) with 4294967296;
    change (85 ^ Z.of_nat 2) with 7225; div_mod_lia).
  change (85 ^ Z.of_nat 2) with 7225.
  set (W := (V / 85 / 85 + 1) * 7225 - 1).
  assert (HW : V <= W < V + 65536) by (subst W V; div_mod_lia).
  clearbody W. cbn [ascii85.flushBytes]. unfold u32.
  rewrite !Z.shiftr_div_pow2, Z.shiftl_mul_pow2 by lia.
  change (2 ^ 32) with 4294967296. change (2 ^ 24) with 16777216. change (2 ^ 8) with 256.
  rewrite <- (byte_of_Z_mod (W / _)), <- (byte_of_Z_mod ((W * 256) mod _ / _)).
  repeat f_equal; subst V; div_mod_lia.
Qed.

Lemma flush3 (b0 b1 b2 : Z) :
  0 <= b0 < 256 -> 0 <= b1 < 256 -> 0 <= b2 < 256 ->
  let V := b0 * 16777216 + b1 * 65536 + b2 * 256 in
  ascii85.flushBytes 3 (ascii85.padWorst 1 (V / 85))
  = [byte_of_Z b0; byte_of_Z b1; byte_of_Z b2].
Proof.
  intros H0 H1 H2 V. rewrite padWorst_small by (subst V; change (2 ^ 32) with 4294967296;
    change (85 ^ Z.of_nat 1) with 85; div_mod_lia).
  change (85 ^ Z.of_nat 1) with 85.
  set (W := (V / 85 + 1) * 85 - 1).
  assert (HW : V <= W < V + 256) by (subst W V; div_mod_lia).
  clearbody W. cbn [ascii85.flushBytes]. unfold u32.
  rewrite !Z.shiftr_div_pow2, !Z.shiftl_mul_pow2 by lia.
  change (2 ^ 32) with 4294967296. change (2 ^ 24) with 16777216. change (2 ^ 8) with 256.
  rewrite <- (byte_of_Z_mod (W / _)), <- (byte_of_Z_mod ((W * 256) mod _ / _)),
    <- (byte_of_Z_mod (((W * 256) mod _ * 256) mod _ / _)).
  repeat f_equal; subst V; div_mod_lia.
Qed.

Lemma group_bytes (b0 b1 b2 b3 : Z) :
  0 <= b0 < 256 -> 0 <= b1 < 256 -> 0 <= b2 < 256 -> 0 <= b3 < 256 ->
  let v := b0 * 16777216 + b1 * 65536 + b2 * 256 + b3 in
  [byte_of_Z (Z.shiftr v 24); byte_of_Z (Z.shiftr v 16); byte_of_Z (Z.shiftr v 8); byte_of_Z v]
  = [byte_of_Z b0; byte_of_Z b1; byte_of_Z b2; byte_of_Z b3].
Proof.
  intros H0 H1 H2 H3 v. rewrite !Z.shiftr_div_pow2 by lia.
  rewrite <- (byte_of_Z_mod (_ / _)), <- (byte_of_Z_mod (v / 2 ^ 16)),
    <- (byte_of_Z_mod (v / 2 ^ 8)), <- (byte_of_Z_mod v).
  repeat f_equal; subst v; div_mod_lia.
Qed.

Lemma digit_range (x : Z) : 0 <= x mod 85 < 85.
Proof. div_mod_lia. Qed.

Lemma ascii85_decode_encode (bs : list byte) :
  forall total room i nsrc,
    4 * Z.of_nat (length (ascii85.Encode bs)) <= room ->
    ascii85.decodeFrom true total room i 0 0 nsrc (ascii85.Encode bs) = (bs, total, None).
Proof.
  induction bs as [| b0 | b0 b1 | b0 b1 b2 | b0 b1 b2 b3 bs IH] using list_ind4;
    intros total room i nsrc Hroom.
  - reflexivity.
  - pose proof (Z_of_byte_range b0) as H0.
    cbn [ascii85.Encode ascii85.digits firstn] in *. cbn [length] in Hroom.
    rewrite pack_add by lia.
    destruct (digits_value (Z_of_byte b0 * 16777216 + 0 * 65536 + 0 * 256 + 0))
      as (E4 & E3 & _); [change (2 ^ 32) with 4294967296; lia |].
    rewrite !decode_digit by (first [apply digit_range | lia]).
    change (0 + 1 =? 5) with false. change (0 + 1 + 1 =? 5) with false. cbv iota.
    rewrite E4, E3. cbn [ascii85.decodeFrom].
    change (0 <? 0 + 1 + 1) with true. change (0 + 1 + 1 =? 1) with false. cbv iota.
    change (Z.to_nat (0 + 1 + 1 - 1)) with 1%nat. change (Z.to_nat (5 - (0 + 1 + 1))) with 3%nat.
    replace (Z_of_byte b0 * 16777216 + 0 * 65536 + 0 * 256 + 0)
      with (Z_of_byte b0 * 16777216) by lia.
    rewrite flush1, byte_of_Z_of_byte by lia. reflexivity.
  - pose proof (Z_of_byte_range b0) as H0. pose proof (Z_of_byte_range b1) as H1.
    cbn [ascii85.Encode ascii85.digits firstn] in *. cbn [length] in Hroom.
    rewrite pack_add by lia.
    destruct (digits_value (Z_of_byte b0 * 16777216 + Z_of_byte b1 * 65536 + 0 * 256 + 0))
      as (E4 & E3 & E2 & _); [change (2 ^ 32) with 4294967296; lia |].
    rewrite !decode_digit by (first [apply digit_range | lia]).
    change (0 + 1 =? 5) with false. change (0 + 1 + 1 =? 5) with false.
    change (0 + 1 + 1 + 1 =? 5) with false. cbv iota.
    rewrite E4, E3, E2. cbn [ascii85.decodeFrom].
    change (0 <? 0 + 1 + 1 + 1) with true. change (0 + 1 + 1 + 1 =? 1) with false. cbv iota.
    change (Z.to_nat (0 + 1 + 1 + 1 - 1)) with 2%nat.
    change (Z.to_nat (5 - (0 + 1 + 1 + 1))) with 2%nat.
    replace (Z_of_byte b0 * 16777216 + Z_of_byte b1 * 65536 + 0 * 256 + 0)
      with (Z_of_byte b0 * 16777216 + Z_of_byte b1 * 65536) by lia.
    rewrite flush2, !byte_of_Z_of_byte by lia. reflexivity.
  - pose proof (Z_of_byte_range b0) as H0. pose proof (Z_of_byte_range b1) as H1.
    pose proof (Z_of_byte_range b2) as H2.
    cbn [ascii85.Encode ascii85.digits firstn] in *. cbn [length] in Hroom.
    rewrite pack_add by lia.
    destruct (digits_value (Z_of_byte b0 * 16777216 + Z_of_byte b1 * 65536
                            + Z_of_byte b2 * 256 + 0))
      as (E4 & E3 & E2 & E1 & _); [change (2 ^ 32) with 4294967296; lia |].
    rewrite !decode_digit by (first [apply digit_range | lia]).
    change (0 + 1 =? 5) with false. change (0 + 1 + 1 =? 5) with false.
    change (0 + 1 + 1 + 1 =? 5) with false. change (0 + 1 + 1 + 1 + 1 =? 5) with false.
    cbv iota.
    rewrite E4, E3, E2, E1. cbn [ascii85.decodeFrom].
    change (0 <? 0 + 1 + 1 + 1 + 1) with true. change (0 + 1 + 1 + 1 + 1 =? 1) with false.
    cbv iota.
    change (Z.to_nat (0 + 1 + 1 + 1 + 1 - 1)) with 3%nat.
    change (Z.to_nat (5 - (0 + 1 + 1 + 1 + 1))) with 1%nat.
    replace (Z_of_byte b0 * 16777216 + Z_of_byte b1 * 65536 + Z_of_byte b2 * 256 + 0)
      with (Z_of_byte b0 * 16777216 + Z_of_byte b1 * 65536 + Z_of_byte b2 * 256) by lia.
    rewrite flush3, !byte_of_Z_of_byte by lia. reflexivity.
  - pose proof (Z_of_byte_range b0) as H0. pose proof (Z_of_byte_range b1) as H1.
    pose proof (Z_of_byte_range b2) as H2. pose proof (Z_of_byte_range b3) as H3.
    cbn [ascii85.Encode] in *. rewrite pack_add in * by lia.
    set (v := Z_of_byte b0 * 16777216 + Z_of_byte b1 * 65536 + Z_of_byte b2 * 256
              + Z_of_byte b3) in *.
    destruct (v =? 0) eqn:Ev.
    + cbn [length] in Hroom. rewrite decode_z by lia. rewrite IH by lia.
      assert (Z_of_byte b0 = 0 /\ Z_of_byte b1 = 0 /\ Z_of_byte b2 = 0 /\ Z_of_byte b3 = 0)
        as (Z0 & Z1 & Z2 & Z3) by (subst v; lia).
      rewrite <- (byte_of_Z_of_byte b0), <- (byte_of_Z_of_byte b1),
        <- (byte_of_Z_of_byte b2), <- (byte_of_Z_of_byte b3), Z0, Z1, Z2, Z3.
      reflexivity.
    + rewrite length_app in Hroom. cbn [ascii85.digits length] in Hroom.
      destruct (digits_value v) as (E4 & E3 & E2 & E1 & E0);
        [subst v; change (2 ^ 32) with 4294967296; lia |].
      cbn [ascii85.digits app].
      rewrite !decode_digit by (first [apply digit_range | lia]).
      change (0 + 1 =? 5) with false. change (0 + 1 + 1 =? 5) with false.
      change (0 + 1 + 1 + 1 =? 5) with false. change (0 + 1 + 1 + 1 + 1 =? 5) with false.
      change (0 + 1 + 1 + 1 + 1 + 1 =? 5) with true.
      cbv iota.
      rewrite E4, E3, E2, E1, E0, IH by lia. cbv zeta.
      pose proof (group_bytes _ _ _ _ H0 H1 H2 H3) as Hg. cbv zeta in Hg. fold v in Hg.
      injection Hg as -> -> -> ->. rewrite !byte_of_Z_of_byte. reflexivity.
Qed.

Lemma NewSerialFromAscii85_Ascii85 (s : Serial.t) :
  NewSerialFromAscii85 (Serial.Ascii85 s) = (s, None).
Proof.
  unfold NewSerialFromAscii85, Serial.Ascii85.
  rewrite list_ascii_of_string_of_list_ascii, ascii85_decode_encode.
  - rewrite Z.eqb_refl. destruct s. reflexivity.
  - unfold len. rewrite <- (list_ascii_of_string_of_list_ascii (ascii85.Encode _)) at 1.
    assert (Hlen : forall l, length (list_ascii_of_string l) = String.length l).
    { induction l; cbn; congruence. }
    rewrite Hlen. lia.
Qed.

(** C4.  Serial encodings round-trip: decoding the ID (URL-safe base64
    with padding of the raw serial bytes), the hex string or the
    ascii85 string of a serial gives the serial back, bytewise equal,
    with no error and no panic. *)
Theorem serial_encodings_round_trip (s : Serial.t) :
  NewSerialFromIDString (Serial.ID s) = (s, None)
  /\ NewSerialFromHex (Serial.HexString s) = Ret s
  /\ NewSerialFromAscii85 (Serial.Ascii85 s) = (s, None)
  /\ Serial.ID s = base64.EncodeToString base64.URLEncoding (Serial.serial s)
  /\ base64.padChar base64.URLEncoding = Some "="%char.
Proof.
  split; [apply NewSerialFromIDString_ID |].
  split; [apply NewSerialFromHex_HexString |].
  split; [apply NewSerialFromAscii85_Ascii85 |].
  split; reflexivity.
Qed.

Example serial_ID_padded :
  Serial.ID {| Serial.serial := [x00] |} = "AA=="%string
  /\ Serial.ID {| Serial.serial := [x00; xff] |} = "AP8="%string
  /\ Serial.ID {| Serial.serial := [xfb; xff; xbe] |} = "-_--"%string.
Proof. repeat split; reflexivity. Qed.

(** ** Document paths *)

Lemma length_list_ascii_of_string (s : string) :
  length (list_ascii_of_string s) = String.length s.
Proof. induction s as [| c s IH]; [reflexivity |]. cbn [list_ascii_of_string String.length length]. congruence. Qed.

Lemma list_ascii_of_string_append (s t : string) :
  list_ascii_of_string (String.append s t) = list_ascii_of_string s ++ list_ascii_of_string t.
Proof.
  induction s as [| c s IH]; [reflexivity |].
  change (String.append (String c s) t) with (String c (String.append s t)).
  cbn [list_ascii_of_string app]. congruence.
Qed.

Lemma string_of_list_ascii_app (l k : list ascii) :
  string_of_list_ascii (l ++ k)
  = String.append (string_of_list_ascii l) (string_of_list_ascii k).
Proof.
  induction l as [| c l IH]; [reflexivity |].
  cbn [app string_of_list_ascii].
  change (String.append (String c ?s) ?t) with (String c (String.append s t)).
  congruence.
Qed.

(** The characters of an ID: those of the URL-safe alphabet. *)
Definition idChar (c : ascii) : bool :=
  existsb (Ascii.eqb c) (list_ascii_of_string base64.encodeURL).

Lemma encodeAt_idChar (x : Z) :
  idChar (base64.encodeAt base64.URLEncoding (Z.land x 63)) = true.
Proof.
  pose proof (sextet_range x) as Hx. revert Hx. generalize (Z.land x 63). intros k Hk.
  assert (Hall : forallb (fun n => idChar (base64.encodeAt base64.URLEncoding (Z.of_nat n)))
                   (seq 0 64) = true) by (vm_compute; reflexivity).
  rewrite forallb_forall in Hall.
  specialize (Hall (Z.to_nat k)). rewrite Z2Nat.id in Hall by lia.
  apply Hall, in_seq. lia.
Qed.

Lemma Encode_raw_idChars (bs : list byte) :
  forallb idChar (base64.Encode base64.RawURLEncoding bs) = true.
Proof.
  induction bs as [| b0 | b0 b1 | b0 b1 b2 bs IH] using list_ind3;
    cbn [base64.Encode forallb base64.padding base64.padChar base64.RawURLEncoding];
    change (base64.encodeAt base64.RawURLEncoding) with (base64.encodeAt base64.URLEncoding);
    rewrite ?encodeAt_idChar, ?IH; reflexivity.
Qed.

Lemma Encode_raw_length (bs : list byte) :
  Z.of_nat (length (base64.Encode base64.RawURLEncoding bs))
  = (4 * Z.of_nat (length bs) + 2) / 3.
Proof.
  induction bs as [| b0 | b0 b1 | b0 b1 b2 bs IH] using list_ind3;
    cbn [base64.Encode length base64.padding base64.padChar base64.RawURLEncoding];
    try reflexivity.
  rewrite !Nat2Z.inj_succ. div_mod_lia.
Qed.

Lemma Encode_padded_length (bs : list byte) :
  (Z.of_nat (length (base64.Encode base64.URLEncoding bs))) mod 4 = 0.
Proof.
  induction bs as [| b0 | b0 b1 | b0 b1 b2 bs IH] using list_ind3;
    cbn [base64.Encode length base64.padding base64.padChar base64.URLEncoding repeat];
    try reflexivity.
  rewrite !Nat2Z.inj_succ. div_mod_lia.
Qed.

Lemma Sum256_length (data : list byte) : length (sha256.Sum256 data) = 32%nat.
Proof. reflexivity. Qed.

Lemma idChar_not_sep (c : ascii) :
  idChar c = true -> Ascii.eqb c "/" = false /\ Ascii.eqb c "." = false.
Proof.
  unfold idChar. rewrite existsb_exists. intros (x & Hin & Hx).
  apply Ascii.eqb_eq in Hx. subst x.
  cbn in Hin. repeat (destruct Hin as [<- | Hin]; [split; reflexivity |]). destruct Hin.
Qed.

Lemma split_idChars (l : list ascii) :
  forallb idChar l = true -> filepath.split l = [l].
Proof.
  induction l as [| c l IH]; [reflexivity |].
  cbn [forallb]. intros [Hc Hl]%andb_prop.
  destruct (idChar_not_sep c Hc) as [Hsep _].
  cbn [filepath.split]. rewrite Hsep, IH by assumption. reflexivity.
Qed.

(** A path of a top-level collection and an ID names a document. *)
Lemma Join_collection_id (coll x : string) :
  forallb idChar (list_ascii_of_string coll) = true ->
  forallb idChar (list_ascii_of_string x) = true ->
  coll <> ""%string -> x <> ""%string ->
  filepath.Join [coll; x] = String.append coll (String "/" x)
  /\ firestore.Doc (String.append coll (String "/" x)) = Some (String.append coll (String "/" x)).
Proof.
  intros Hcoll Hx Hc0 Hx0.
  assert (Hsplit : filepath.split (list_ascii_of_string (String.append coll (String "/" x)))
                   = [list_ascii_of_string coll; list_ascii_of_string x]).
  { rewrite list_ascii_of_string_append. cbn [list_ascii_of_string].
    revert Hcoll. generalize (list_ascii_of_string coll) as l.
    induction l as [| c l IH]; intros Hl.
    - cbn [app filepath.split]. change (Ascii.eqb "/" "/") with true. cbv iota.
      rewrite split_idChars by assumption. reflexivity.
    - cbn [forallb] in Hl. apply andb_prop in Hl as [Hc Hl].
      destruct (idChar_not_sep c Hc) as [Hsep _].
      cbn [app filepath.split]. rewrite Hsep, IH by assumption. reflexivity. }
  split.
  - unfold filepath.Join. cbn [List.filter].
    destruct (String.eqb_spec coll "") as [-> | _]; [contradiction |].
    destruct (String.eqb_spec x "") as [-> | _]; [contradiction |].
    cbn [negb String.concat]. unfold filepath.Clean.
    change (String.append coll (String.append "/" x)) with (String.append coll (String "/" x)).
    rewrite Hsplit.
    destruct coll as [| c coll]; [contradiction |].
    destruct x as [| d x]; [contradiction |].
    cbn [list_ascii_of_string forallb] in Hcoll, Hx.
    apply andb_prop in Hcoll as [Hc _]. apply andb_prop in Hx as [Hd _].
    destruct (idChar_not_sep c Hc) as [Hsep Hdot].
    destruct (idChar_not_sep d Hd) as [_ Hdot'].
    change (String.append (String c coll) ?t) with (String c (String.append coll t)).
    cbn [list_ascii_of_string]. rewrite Hsep.
    assert (Hnd : forall a r, Ascii.eqb a "." = false ->
              filepath.isDot (a :: r) = false /\ filepath.isDotDot (a :: r) = false).
    { intros a r Ha. apply Ascii.eqb_neq in Ha.
      unfold filepath.isDot, filepath.isDotDot.
      destruct a as [[] [] [] [] [] [] [] []]; try (split; reflexivity);
        try (exfalso; apply Ha; reflexivity). }
    destruct (Hnd c (list_ascii_of_string coll) Hdot) as [E1 E2].
    destruct (Hnd d (list_ascii_of_string x) Hdot') as [E3 E4].
    cbn [filepath.cleanParts]. rewrite E1, E2. cbn [filepath.cleanParts]. rewrite E3, E4.
    cbn [filepath.cleanParts rev app filepath.joinParts string_of_list_ascii].
    rewrite string_of_list_ascii_app. cbn [string_of_list_ascii].
    rewrite !string_of_list_ascii_of_string. reflexivity.
  - unfold firestore.Doc. rewrite Hsplit. cbn [forallb length Nat.even].
    rewrite !length_list_ascii_of_string.
    destruct coll; [contradiction |]. destruct x; [contradiction |]. reflexivity.
Qed.

Lemma logNameToId_idChars (logURL : string) :
  forallb idChar (list_ascii_of_string (logNameToId logURL)) = true
  /\ String.length (logNameToId logURL) = 43%nat.
Proof.
  unfold logNameToId, base64.EncodeToString.
  rewrite list_ascii_of_string_of_list_ascii. split; [apply Encode_raw_idChars |].
  rewrite <- length_list_ascii_of_string, list_ascii_of_string_of_list_ascii.
  apply Nat2Z.inj. rewrite Encode_raw_length, Sum256_length. reflexivity.
Qed.

(** The document of a log's checkpoint. *)
Lemma log_document_path (logURL : string) :
  filepath.Join ["logs"%string; logNameToId logURL]
  = String.append "logs/" (logNameToId logURL)
  /\ firestore.Doc (String.append "logs/" (logNameToId logURL))
     = Some (String.append "logs/" (logNameToId logURL)).
Proof.
  destruct (logNameToId_idChars logURL) as [Hchars Hlen].
  apply (Join_collection_id "logs" (logNameToId logURL)); try assumption; try reflexivity.
  - discriminate.
  - intros E. rewrite E in Hlen. discriminate Hlen.
Qed.

(** ** Log checkpoints (firestorebackend.go, mockbackend.go) *)

(** The checkpoint of a log that has none. *)
Definition newLog (logURL : string) : CertificateLog.t :=
  {| CertificateLog.ShortURL := logURL; CertificateLog.MaxEntry := 0;
     CertificateLog.LastEntryTime := time.zero |}.

(** The path of the document [StoreLogState] and [LoadLogState] use. *)
Definition logDocument (logURL : string) : string :=
  String.append "logs/" (logNameToId logURL).

(** The fields [StoreLogState] writes. *)
Definition logFields (log : CertificateLog.t) : gmap string firestore.value :=
  <[kFieldType := firestore.VString kTypeLogState]>
    (<[kFieldURL := firestore.VString (CertificateLog.ShortURL log)]>
       (<[kFieldData := firestore.VInt (CertificateLog.MaxEntry log)]>
          (<[kFieldUnixTime :=
               firestore.VInt (time.toUnix (CertificateLog.LastEntryTime log))]> ∅))).

Lemma StoreLogState_eq (fault : option error) (log : CertificateLog.t)
    (db : FirestoreBackend.t) :
  FirestoreBackend.StoreLogState fault log db
  = match fault with
    | Some e => (Some e, db)
    | None =>
        (None,
         FirestoreBackend.withClient
           {| firestore.documents :=
                <[logDocument (CertificateLog.ShortURL log) := logFields log]>
                  (firestore.documents (FirestoreBackend.client db)) |} db)
    end.
Proof.
  unfold FirestoreBackend.StoreLogState.
  destruct (log_document_path (CertificateLog.ShortURL log)) as [-> ->].
  destruct fault; [destruct db as [[docs] ctr] |]; reflexivity.
Qed.

(** What [LoadLogState] returns, by the outcome of its [Get]. *)
Lemma LoadLogState_eq (fault : option error) (logURL : string) (db : FirestoreBackend.t) :
  FirestoreBackend.LoadLogState fault logURL db
  = match firestore.Get fault (logDocument logURL) (FirestoreBackend.client db) with
    | (_, Some err) =>
        match status_Code err with
        | NotFound => Ret (Some (newLog logURL), None)
        | _ => Ret (None, Some err)
        end
    | (None, None) => Panic "nil snapshot"
    | (Some docsnap, None) =>
        match docsnap !! kFieldURL, docsnap !! kFieldData, docsnap !! kFieldUnixTime with
        | None, _, _ | Some _, None, _ | Some _, Some _, None =>
            Ret (None, Some (Errorf "firestore: no field"))
        | Some (firestore.VString u), Some (firestore.VInt m), Some (firestore.VInt s) =>
            Ret (Some {| CertificateLog.ShortURL := u; CertificateLog.MaxEntry := m;
                         CertificateLog.LastEntryTime := time.Unix s |}, None)
        | Some _, Some _, Some _ => Panic "interface conversion"
        end
    end.
Proof.
  unfold FirestoreBackend.LoadLogState, logDocument.
  destruct (log_document_path logURL) as [-> ->].
  destruct (firestore.Get _ _ _) as [[d |] [e |]]; try reflexivity.
  unfold firestore.DataAt.
  destruct (d !! kFieldURL) as [[] |], (d !! kFieldData) as [[] |],
    (d !! kFieldUnixTime) as [[] |]; reflexivity.
Qed.

(** C6.  A log with no stored checkpoint loads as the zero-valued
    checkpoint with its [ShortURL] set and no error, from the Firestore
    backend and from the in-memory one; the Firestore backend returns an
    error only when the call to the server failed with a code other
    than not-found, or when the stored document lacks a field. *)
Theorem LoadLogState_absent (logURL : string) (db : FirestoreBackend.t) (mock : MockBackend.t)
    (json_Unmarshal : list byte -> option CertificateLog.t * option error) :
  (firestore.documents (FirestoreBackend.client db) !! logDocument logURL = None ->
   FirestoreBackend.LoadLogState None logURL db = Ret (Some (newLog logURL), None))
  /\ (MockBackend.store mock !! String.append "logstate" logURL = None ->
      MockBackend.LoadLogState json_Unmarshal logURL mock = (Some (newLog logURL), None))
  /\ (forall fault log err,
        FirestoreBackend.LoadLogState fault logURL db = Ret (log, Some err) ->
        (fault = Some err /\ status_Code err <> NotFound)
        \/ (fault = None
            /\ exists docsnap,
                 firestore.documents (FirestoreBackend.client db) !! logDocument logURL
                 = Some docsnap
                 /\ (docsnap !! kFieldURL = None \/ docsnap !! kFieldData = None
                     \/ docsnap !! kFieldUnixTime = None)))
  /\ newLog logURL
     = {| CertificateLog.ShortURL := logURL; CertificateLog.MaxEntry := 0;
          CertificateLog.LastEntryTime := time.zero |}.
Proof.
  repeat split.
  - intros Habsent. rewrite LoadLogState_eq. unfold firestore.Get. rewrite Habsent.
    reflexivity.
  - intros Habsent. unfold MockBackend.LoadLogState. rewrite Habsent. reflexivity.
  - intros fault log err. rewrite LoadLogState_eq. unfold firestore.Get.
    destruct fault as [e |].
    + destruct (status_Code e) eqn:Ecode; intros [= <- <-]; left; split; congruence.
    + destruct (firestore.documents (FirestoreBackend.client db) !! logDocument logURL)
        as [d |] eqn:Ed; [| discriminate].
      intros Hret. right. split; [reflexivity |]. exists d. split; [reflexivity |].
      destruct (d !! kFieldURL) as [[] |]; [| | | auto];
        (destruct (d !! kFieldData) as [[] |]; [| | | auto]);
        (destruct (d !! kFieldUnixTime) as [[] |]; [| | | auto]); discriminate Hret.
Qed.

Lemma LoadLogState_absent_witness :
  FirestoreBackend.LoadLogState None "ct.googleapis.com/icarus"
    {| FirestoreBackend.client := {| firestore.documents := ∅ |};
       FirestoreBackend.counters := ∅ |}
  = Ret (Some (newLog "ct.googleapis.com/icarus"), None).
Proof.
  apply (proj1 (LoadLogState_absent "ct.googleapis.com/icarus" _ MockBackend.New
                  (fun _ => (None, None)))).
  apply lookup_empty.
Defined.

(** C10.  Storing a checkpoint and loading it back gives the same
    [ShortURL] and [MaxEntry], and the [LastEntryTime] cut to whole
    seconds: [time.Unix(LastEntryTime.Unix(), 0)]. *)
Theorem LoadLogState_StoreLogState (log : CertificateLog.t) (db : FirestoreBackend.t) :
  fst (FirestoreBackend.StoreLogState None log db) = None
  /\ FirestoreBackend.LoadLogState None (CertificateLog.ShortURL log)
       (snd (FirestoreBackend.StoreLogState None log db))
     = Ret (Some {| CertificateLog.ShortURL := CertificateLog.ShortURL log;
                    CertificateLog.MaxEntry := CertificateLog.MaxEntry log;
                    CertificateLog.LastEntryTime :=
                      {| time.sec := time.sec (CertificateLog.LastEntryTime log);
                         time.nsec := 0 |} |}, None).
Proof.
  rewrite StoreLogState_eq. split; [reflexivity |].
  rewrite LoadLogState_eq. cbn [snd FirestoreBackend.withClient FirestoreBackend.client].
  unfold firestore.Get. cbn [firestore.documents]. rewrite lookup_insert_eq.
  reflexivity.
Qed.


(** A log and an empty database, for the examples. *)
Definition icarus : CertificateLog.t :=
  {| CertificateLog.ShortURL := "ct.googleapis.com/icarus"; CertificateLog.MaxEntry := 5;
     CertificateLog.LastEntryTime := {| time.sec := 1575072000; time.nsec := 999 |} |}.

Definition emptyFirestore : FirestoreBackend.t :=
  {| FirestoreBackend.client := {| firestore.documents := ∅ |};
     FirestoreBackend.counters := ∅ |}.

Lemma ID_length_mod4 (log : CertificateLog.t) :
  (Z.of_nat (String.length (CertificateLog.ID log))) mod 4 = 0.
Proof.
  unfold CertificateLog.ID, CertificateLogIDFromShortURL, base64.EncodeToString.
  rewrite <- length_list_ascii_of_string, list_ascii_of_string_of_list_ascii.
  apply Encode_padded_length.
Qed.

(** C5, as the code has it.  The checkpoint of a log is the document
    [logs/<id>] where [id] is the unpadded URL-safe base64 of the
    SHA-256 digest of the short URL ([logNameToId]): [StoreLogState]
    writes that document and [LoadLogState] reads no other.  The id is
    never [CertificateLog.ID()], the padded URL-safe base64 of the short
    URL itself. *)
Theorem log_checkpoint_document (log : CertificateLog.t) (db : FirestoreBackend.t) :
  FirestoreBackend.StoreLogState None log db
  = (None,
     FirestoreBackend.withClient
       {| firestore.documents :=
            <[logDocument (CertificateLog.ShortURL log) := logFields log]>
              (firestore.documents (FirestoreBackend.client db)) |} db)
  /\ (forall fault db',
        firestore.documents (FirestoreBackend.client db')
          !! logDocument (CertificateLog.ShortURL log)
        = firestore.documents (FirestoreBackend.client db)
            !! logDocument (CertificateLog.ShortURL log) ->
        FirestoreBackend.LoadLogState fault (CertificateLog.ShortURL log) db'
        = FirestoreBackend.LoadLogState fault (CertificateLog.ShortURL log) db)
  /\ logDocument (CertificateLog.ShortURL log)
     = String.append "logs/"
         (base64.EncodeToString base64.RawURLEncoding
            (sha256.Sum256 (bytes_of_string (CertificateLog.ShortURL log))))
  /\ logNameToId (CertificateLog.ShortURL log) <> CertificateLog.ID log
  /\ CertificateLog.ID log
     = base64.EncodeToString base64.URLEncoding (bytes_of_string (CertificateLog.ShortURL log)).
Proof.
  split; [apply (StoreLogState_eq None) |].
  split.
  { intros fault db' Hsame. rewrite !LoadLogState_eq. unfold firestore.Get.
    rewrite Hsame. reflexivity. }
  split; [reflexivity |].
  split; [| reflexivity].
  intros Heq. pose proof (ID_length_mod4 log) as Hmod.
  rewrite <- Heq in Hmod.
  destruct (logNameToId_idChars (CertificateLog.ShortURL log)) as [_ Hlen].
  rewrite Hlen in Hmod. discriminate Hmod.
Qed.

Lemma log_checkpoint_document_witness :
  FirestoreBackend.LoadLogState None (CertificateLog.ShortURL icarus)
    (snd (FirestoreBackend.StoreLogState None icarus emptyFirestore))
  = FirestoreBackend.LoadLogState None (CertificateLog.ShortURL icarus)
      (snd (FirestoreBackend.StoreLogState None icarus
              (snd (FirestoreBackend.StoreLogState None icarus emptyFirestore)))).
Proof.
  symmetry.
  apply (proj1 (proj2 (log_checkpoint_document icarus
                         (snd (FirestoreBackend.StoreLogState None icarus emptyFirestore))))).
  rewrite !StoreLogState_eq. cbn [snd FirestoreBackend.withClient FirestoreBackend.client
                                     firestore.documents].
  rewrite !lookup_insert_eq. reflexivity.
Defined.

(** C5, as the claim has it, fails: the checkpoint of the log
    [ct.googleapis.com/icarus] is written to [logs/rrHp...VSk], and no
    document [logs/<CertificateLog.ID()>] exists afterwards. *)
Lemma log_checkpoint_id_counterexample :
  CertificateLog.ID icarus = "Y3QuZ29vZ2xlYXBpcy5jb20vaWNhcnVz"%string
  /\ map fst (map_to_list
                (firestore.documents
                   (FirestoreBackend.client
                      (snd (FirestoreBackend.StoreLogState None icarus emptyFirestore)))))
     = ["logs/rrHpzV7z5O6qf-PrWAVhbjlrRfD-HtyFveH9hrllVSk"%string]
  /\ firestore.documents
       (FirestoreBackend.client
          (snd (FirestoreBackend.StoreLogState None icarus emptyFirestore)))
       !! filepath.Join ["logs"%string; CertificateLog.ID icarus]
     = None.
Proof. repeat split; vm_compute; reflexivity. Qed.

(** ** StoreCertificatePEM (firestorebackend.go) *)

Definition collisions (db : FirestoreBackend.t) : Z :=
  default 0 (FirestoreBackend.counters db !! "StoreCertificatePEM.collision"%string).

Lemma collisions_IncrCounter (db : FirestoreBackend.t) :
  collisions (FirestoreBackend.IncrCounter "StoreCertificatePEM.collision" db)
  = collisions db + 1.
Proof.
  unfold collisions, FirestoreBackend.IncrCounter. cbn [FirestoreBackend.counters].
  rewrite lookup_insert_eq. reflexivity.
Qed.

(** A write to a document that exists: the collision path. *)
Lemma StoreCertificatePEM_existing (serial : Serial.t) (expDate : string) (issuer : Issuer.t)
    (b : list byte) (db : FirestoreBackend.t) (doc : string) :
  (len expDate =? 0) = false ->
  firestore.Doc (filepath.Join ["ct"%string; expDate; "issuer"%string; Issuer.ID issuer;
                                "certs"%string; Serial.ID serial]) = Some doc ->
  is_Some (firestore.documents (FirestoreBackend.client db) !! doc) ->
  FirestoreBackend.StoreCertificatePEM None serial expDate issuer b db
  = (Ret None, FirestoreBackend.IncrCounter "StoreCertificatePEM.collision" db).
Proof.
  intros Hlen Hdoc [x Hx]. unfold FirestoreBackend.StoreCertificatePEM, firestore.Create.
  rewrite Hlen, Hdoc, Hx. destruct db as [c ctr]. reflexivity.
Qed.

(** C7.  After a write that succeeded, a second write to the same
    document (whatever the bytes) returns [nil], leaves the documents
    as they are and adds one to the collision counter; a call that
    fails at the server with a code other than already-exists returns
    that error, and one that fails with already-exists returns [nil]. *)
Theorem StoreCertificatePEM_idempotent (serial : Serial.t) (expDate : string)
    (issuer : Issuer.t) (b b' : list byte) (db db1 : FirestoreBackend.t) :
  FirestoreBackend.StoreCertificatePEM None serial expDate issuer b db = (Ret None, db1) ->
  (exists db2,
     FirestoreBackend.StoreCertificatePEM None serial expDate issuer b' db1 = (Ret None, db2)
     /\ FirestoreBackend.client db2 = FirestoreBackend.client db1
     /\ collisions db2 = collisions db1 + 1)
  /\ (forall err,
        fst (FirestoreBackend.StoreCertificatePEM (Some err) serial expDate issuer b' db1)
        = Ret (match status_Code err with AlreadyExists => None | _ => Some err end)).
Proof.
  intros Hfirst.
  assert (Hargs : (len expDate =? 0) = false
                  /\ exists doc,
                       firestore.Doc (filepath.Join ["ct"%string; expDate; "issuer"%string;
                                                     Issuer.ID issuer; "certs"%string;
                                                     Serial.ID serial]) = Some doc
                       /\ is_Some (firestore.documents (FirestoreBackend.client db1) !! doc)).
  { revert Hfirst. unfold FirestoreBackend.StoreCertificatePEM, firestore.Create.
    destruct (len expDate =? 0); [discriminate |].
    destruct (firestore.Doc _) as [doc |]; [| discriminate].
    intros Hfirst. split; [reflexivity |]. exists doc. split; [reflexivity |].
    destruct (firestore.documents (FirestoreBackend.client db) !! doc) as [x |] eqn:Ed;
      cbn in Hfirst; injection Hfirst as <-; cbn.
    - rewrite Ed. eauto.
    - rewrite lookup_insert_eq. eauto. }
  destruct Hargs as (Hlen & doc & Hdoc & Hthere). split.
  - eexists. split; [eapply StoreCertificatePEM_existing; eassumption |].
    split; [reflexivity | apply collisions_IncrCounter].
  - intros err. unfold FirestoreBackend.StoreCertificatePEM, firestore.Create.
    rewrite Hlen, Hdoc. destruct (status_Code err); reflexivity.
Qed.

(** A serial, a date and an issuer, for the examples. *)
Definition serial7 : Serial.t := {| Serial.serial := [x00; x07] |}.
Definition issuerX : Issuer.t := NewIssuerFromString "issuerX".

Lemma StoreCertificatePEM_idempotent_witness :
  exists db2,
    FirestoreBackend.StoreCertificatePEM None serial7 "2019-11-30" issuerX [xda]
      (snd (FirestoreBackend.StoreCertificatePEM None serial7 "2019-11-30" issuerX [xda; xda]
              emptyFirestore))
    = (Ret None, db2)
    /\ FirestoreBackend.client db2
       = FirestoreBackend.client
           (snd (FirestoreBackend.StoreCertificatePEM None serial7 "2019-11-30" issuerX
                   [xda; xda] emptyFirestore))
    /\ collisions db2
       = collisions
           (snd (FirestoreBackend.StoreCertificatePEM None serial7 "2019-11-30" issuerX
                   [xda; xda] emptyFirestore)) + 1.
Proof.
  apply (proj1 (StoreCertificatePEM_idempotent serial7 "2019-11-30" issuerX [xda; xda] [xda]
                  emptyFirestore _ eq_refl)).
Defined.

(** ** Streaming the serials of a shard (firestorebackend.go) *)

(** The error of a query that ran into its deadline. *)
Definition deadline (desc : string) : error := StatusError DeadlineExceeded desc.

Definition isDeadline (e : error) : bool := strings.Contains (Error_ e) "DeadlineExceeded".

Lemma deadline_recognised (desc : string) : isDeadline (deadline desc) = true.
Proof. reflexivity. Qed.

(** The query of a shard that holds the documents of [serials]. *)
Definition shardQuery (serials : list Serial.t) : firestore.Query :=
  firestore.Limit 4096
    {| firestore.matching := map Serial.ID serials; firestore.limit := None;
       firestore.offset := 0 |}.

Lemma processItems_serials (ss : list Serial.t) (final : error) (count : nat) :
  FirestoreBackend.processItems (map Some (map Serial.ID ss)) final count
  = (match final with IteratorDone => None | err => Some err end, (count + length ss)%nat, ss).
Proof.
  revert count. induction ss as [| s ss IH]; intros count.
  - cbn. rewrite Nat.add_0_r. destruct final; reflexivity.
  - cbn [map FirestoreBackend.processItems length].
    rewrite NewSerialFromIDString_ID, IH. f_equal. f_equal. lia.
Qed.

Lemma page_shardQuery (ss : list Serial.t) (offset : nat) :
  firestore.page (firestore.Offset offset (shardQuery ss))
  = map Serial.ID (take 4096 (drop offset ss)).
Proof.
  unfold firestore.page, firestore.Offset, shardQuery, firestore.Limit.
  cbn [firestore.limit firestore.offset firestore.matching].
  rewrite skipn_map, firstn_map. reflexivity.
Qed.

(** One query of the stream: what it sends, how many, and its error. *)
Lemma query_shardQuery (ss : list Serial.t) (offset : nat) (fault : option (nat * error)) :
  FirestoreBackend.processSerialDocumentQuery fault (firestore.Offset offset (shardQuery ss))
  = match fault with
    | Some (n, e) =>
        if (n <=? length (take 4096 (drop offset ss)))%nat
        then (match e with IteratorDone => None | err => Some err end, n,
              take n (take 4096 (drop offset ss)))
        else (None, length (take 4096 (drop offset ss)), take 4096 (drop offset ss))
    | None => (None, length (take 4096 (drop offset ss)), take 4096 (drop offset ss))
    end.
Proof.
  unfold FirestoreBackend.processSerialDocumentQuery, firestore.Documents.
  rewrite page_shardQuery, length_map.
  destruct fault as [[n e] |].
  - destruct (n <=? _)%nat eqn:En; cbn [firestore.items firestore.final].
    + apply Nat.leb_le in En.
      rewrite firstn_map, processItems_serials, length_take_le by exact En.
      reflexivity.
    + rewrite processItems_serials. reflexivity.
  - cbn [firestore.items firestore.final]. rewrite processItems_serials. reflexivity.
Qed.

(** The stream from any offset, under queries that only ever run into
    their deadline: what is left of the shard, each serial once. *)
Lemma streamLoop_deadlines (ss : list Serial.t) (fuel : nat) :
  forall (offset : nat) (faults : list (option (nat * string))),
    (offset <= length ss)%nat ->
    (length faults + (length ss - offset) < fuel)%nat ->
    FirestoreBackend.streamLoop fuel (shardQuery ss) offset
      (map (option_map (fun f => (f.1, deadline f.2))) faults)
    = Some (drop offset ss).
Proof.
  induction fuel as [| fuel IH]; intros offset faults Hoff Hfuel; [lia |].
  cbn [FirestoreBackend.streamLoop]. rewrite query_shardQuery.
  set (page := take 4096 (drop offset ss)).
  assert (Hpage : length page = (4096 `min` (length ss - offset))%nat)
    by (subst page; rewrite length_take, length_drop; reflexivity).
  assert (Hrest : forall n, (n <= length page)%nat ->
            take n page ++ drop (offset + n) ss = drop offset ss).
  { intros n Hn. subst page. rewrite take_take, Nat.min_l by lia.
    rewrite <- (take_drop n (drop offset ss)) at 2. rewrite drop_drop. reflexivity. }
  assert (Hnext : forall n faults',
            (n <= length page)%nat -> (length faults' + (length ss - (offset + n)) < fuel)%nat ->
            option_map (app (take n page))
              (FirestoreBackend.streamLoop fuel (shardQuery ss) (offset + n)
                 (map (option_map (fun f => (f.1, deadline f.2))) faults'))
            = Some (drop offset ss)).
  { intros n faults' Hn Hm. rewrite IH by lia. cbn [option_map]. f_equal. apply Hrest, Hn. }
  assert (Hwhole : forall faults',
            (length faults' <= length faults)%nat ->
            (if (length page =? 0)%nat then Some page
             else option_map (app page)
                    (FirestoreBackend.streamLoop fuel (shardQuery ss) (offset + length page)
                       (map (option_map (fun f => (f.1, deadline f.2))) faults')))
            = Some (drop offset ss)).
  { intros faults' Hf. destruct (length page =? 0)%nat eqn:E0.
    - apply Nat.eqb_eq in E0. f_equal.
      rewrite <- (Hrest (length page)) by lia. rewrite firstn_all.
      assert (drop (offset + length page) ss = []) as ->; [| symmetry; apply app_nil_r].
      apply drop_ge. lia.
    - apply Nat.eqb_neq in E0.
      rewrite <- (firstn_all page) at 1. apply Hnext; lia. }
  destruct faults as [| [[n desc] |] faults];
    cbn [map option_map head tail from_option fst snd]; unfold id.
  - apply (Hwhole []). reflexivity.
  - cbn [length] in Hfuel.
    destruct (n <=? length page)%nat eqn:En.
    + apply Nat.leb_le in En. unfold deadline at 1. cbv beta iota zeta.
      change (strings.Contains _ _) with (isDeadline (deadline desc)).
      rewrite deadline_recognised. apply Hnext; lia.
    + apply Hwhole. cbn [length]. lia.
  - cbn [length] in Hfuel. apply Hwhole. cbn [length]. lia.
Qed.

Lemma streamQuery_deadlines (ss : list Serial.t) (faults : list (option (nat * string))) :
  FirestoreBackend.streamQuery (map (option_map (fun f => (f.1, deadline f.2))) faults)
    (shardQuery ss)
  = Some {| sent := ss; closed := true |}.
Proof.
  unfold FirestoreBackend.streamQuery.
  rewrite streamLoop_deadlines; [reflexivity | lia |].
  rewrite length_map. unfold shardQuery, firestore.Limit. cbn [firestore.matching].
  rewrite length_map. lia.
Qed.

(** An error that is not a deadline ends the stream where it strikes. *)
Lemma streamLoop_other_error (ss : list Serial.t) (fuel offset n : nat) (e : error)
    (rest : list (option (nat * error))) :
  isDeadline e = false -> e <> IteratorDone ->
  (n <= length (take 4096 (drop offset ss)))%nat ->
  FirestoreBackend.streamLoop (S fuel) (shardQuery ss) offset (Some (n, e) :: rest)
  = Some (take n (take 4096 (drop offset ss))).
Proof.
  intros He Hdone Hn. cbn [FirestoreBackend.streamLoop head from_option]. unfold id.
  rewrite query_shardQuery. apply Nat.leb_le in Hn. rewrite Hn.
  unfold isDeadline in He.
  destruct e; try (rewrite He; reflexivity). contradiction.
Qed.

Definition shardCollection (expDate : string) (issuer : Issuer.t) : string :=
  filepath.Join ["ct"%string; expDate; "issuer"%string; Issuer.ID issuer; "certs"%string].

(** C9.  The stream of a shard whose documents are those of [serials]
    pages with limit 4096 from an offset that advances by the number of
    serials delivered; when queries run into their deadline, after any
    number of documents each, the stream still sends every serial
    exactly once, in the order of the index, and closes the channel;
    any other error ends the stream where it strikes, with the channel
    closed. *)
Theorem stream_serials_exactly_once (expDate : string) (issuer : Issuer.t)
    (db : FirestoreBackend.t) (serials : list Serial.t)
    (faults : list (option (nat * string))) :
  firestore.matching
    (firestore.CollectionWhereType (shardCollection expDate issuer) kTypePEM
       (FirestoreBackend.client db))
  = map Serial.ID serials ->
  FirestoreBackend.StreamSerialsForExpirationDateAndIssuer
    (map (option_map (fun f => (f.1, deadline f.2))) faults) expDate issuer db
  = Some {| sent := serials; closed := true |}
  /\ (forall offset fault,
        FirestoreBackend.processSerialDocumentQuery fault
          (firestore.Offset offset (shardQuery serials))
        = match fault with
          | Some (n, e) =>
              if (n <=? length (take 4096 (drop offset serials)))%nat
              then (match e with IteratorDone => None | err => Some err end, n,
                    take n (take 4096 (drop offset serials)))
              else (None, length (take 4096 (drop offset serials)),
                    take 4096 (drop offset serials))
          | None => (None, length (take 4096 (drop offset serials)),
                     take 4096 (drop offset serials))
          end)
  /\ (forall fuel offset n e rest,
        isDeadline e = false -> e <> IteratorDone ->
        (n <= length (take 4096 (drop offset serials)))%nat ->
        FirestoreBackend.streamLoop (S fuel) (shardQuery serials) offset (Some (n, e) :: rest)
        = Some (take n (take 4096 (drop offset serials))))
  /\ (forall faults' out,
        FirestoreBackend.StreamSerialsForExpirationDateAndIssuer faults' expDate issuer db
        = Some out -> closed out = true).
Proof.
  intros Hdocs.
  assert (Hquery : firestore.Limit 4096
                     (firestore.CollectionWhereType (shardCollection expDate issuer) kTypePEM
                        (FirestoreBackend.client db)) = shardQuery serials).
  { unfold shardQuery. f_equal. revert Hdocs. unfold firestore.CollectionWhereType.
    cbn [firestore.matching]. intros ->. reflexivity. }
  repeat split.
  - unfold FirestoreBackend.StreamSerialsForExpirationDateAndIssuer.
    fold (shardCollection expDate issuer). rewrite Hquery. apply streamQuery_deadlines.
  - intros offset fault. apply query_shardQuery.
  - intros fuel offset n e rest. apply streamLoop_other_error.
  - intros faults' out. unfold FirestoreBackend.StreamSerialsForExpirationDateAndIssuer,
      FirestoreBackend.streamQuery.
    destruct (FirestoreBackend.streamLoop _ _ _ _); [| discriminate].
    intros [= <-]. reflexivity.
Qed.

Definition serial9 : Serial.t := {| Serial.serial := [x09] |}.

Definition twoSerials : FirestoreBackend.t :=
  snd (FirestoreBackend.StoreCertificatePEM None serial9 "2019-11-30" issuerX [xda]
         (snd (FirestoreBackend.StoreCertificatePEM None serial7 "2019-11-30" issuerX [xda]
                 emptyFirestore))).

Lemma stream_serials_exactly_once_witness :
  FirestoreBackend.StreamSerialsForExpirationDateAndIssuer
    (map (option_map (fun f => (f.1, deadline f.2)))
       [Some (1%nat, "context deadline exceeded"%string)])
    "2019-11-30" issuerX twoSerials
  = Some {| sent := [serial9; serial7]; closed := true |}.
Proof.
  refine (proj1 (stream_serials_exactly_once "2019-11-30" issuerX twoSerials
                   [serial9; serial7] [Some (1%nat, "context deadline exceeded"%string)] _)).
  vm_compute. reflexivity.
Defined.

(** The scenario E6: a shard of 16,384 serials, a deadline after every
    4,096 documents. *)
Example stream_16384 (serials : list Serial.t) :
  FirestoreBackend.streamQuery
    (map (option_map (fun f => (f.1, deadline f.2)))
       (repeat (Some (4096%nat, "context deadline exceeded"%string)) 4))
    (shardQuery serials)
  = Some {| sent := serials; closed := true |}.
Proof. apply streamQuery_deadlines. Qed.

(** ** Listing the expiration dates *)

(** A database with the shard [2019-01-01] of [issuerX] allocated. *)
Definition oneShard : FirestoreBackend.t :=
  snd (FirestoreBackend.AllocateExpDateAndIssuer None None "2019-01-01" issuerX emptyFirestore).

Definition oneShardMock : MockBackend.t :=
  snd (MockBackend.AllocateExpDateAndIssuer "2019-01-01" issuerX MockBackend.New).

(** 2020-06-01 12:00:00 UTC *)
Definition june2020 : time.Time := {| time.sec := 1591012800; time.nsec := 0 |}.

(** [notBefore], truncated to its day. *)
Definition truncated (aNotBefore : time.Time) : time.Time :=
  let '(y, m, d) := time.Date aNotBefore in time.midnight y m d.

(** The Firestore backend never reads [aNotBefore]. *)
Lemma Firestore_ListExpirationDates_any (fault : option (nat * error))
    (aNotBefore aNotBefore' : time.Time) (db : FirestoreBackend.t) :
  FirestoreBackend.ListExpirationDates fault aNotBefore db
  = FirestoreBackend.ListExpirationDates fault aNotBefore' db.
Proof. reflexivity. Qed.

(** C8 fails on the Firestore backend: asked for the dates not before
    June 1, 2020, it lists the shard of January 1, 2019; the in-memory
    backend, asked the same, lists nothing. *)
Lemma ListExpirationDates_ignores_notBefore :
  FirestoreBackend.ListExpirationDates None june2020 oneShard = (["2019-01-01"%string], None)
  /\ sent (fst (FirestoreBackend.StreamExpirationDates None june2020 oneShard))
     = ["2019-01-01"%string]
  /\ time.Before (fst (time.Parse "2019-01-01")) (truncated june2020) = true
  /\ MockBackend.ListExpirationDates june2020 oneShardMock = ([], None).
Proof. repeat split; vm_compute; reflexivity. Qed.

Lemma listFrom_spec (trunc : time.Time) (keys : list string) :
  forall acc dates,
    MockBackend.listFrom trunc keys acc = (dates, None) ->
    forall d, In d dates
              <-> In d acc \/ (In d keys /\ time.Before (fst (time.Parse d)) trunc = false).
Proof.
  induction keys as [| key keys IH]; intros acc dates Hrun d.
  - cbn in Hrun. injection Hrun as <-. cbn. tauto.
  - cbn [MockBackend.listFrom] in Hrun.
    destruct (time.Parse key) as [v [e |]] eqn:Ekey; [discriminate |].
    destruct (time.Before v trunc) eqn:Ev; cbn [negb] in Hrun.
    + rewrite (IH _ _ Hrun). cbn [In].
      split; [tauto |]. intros [H | [[<- | H] Hb]]; [tauto | | tauto].
      rewrite Ekey in Hb. cbn in Hb. congruence.
    + rewrite (IH _ _ Hrun). rewrite in_app_iff. cbn [In].
      split; [| tauto]. intros [[H | [<- | []]] | H]; [tauto | | tauto].
      right. split; [tauto |]. rewrite Ekey. exact Ev.
Qed.

(** The in-memory backend does what C8 says: it lists the allocated
    dates that are not before the day of [aNotBefore], and only those. *)
Lemma Mock_ListExpirationDates_filters (aNotBefore : time.Time) (db : MockBackend.t)
    (dates : list string) :
  MockBackend.ListExpirationDates aNotBefore db = (dates, None) ->
  forall d, In d dates
            <-> is_Some (MockBackend.expDateToIssuer db !! d)
                /\ time.Before (fst (time.Parse d)) (truncated aNotBefore) = false.
Proof.
  unfold MockBackend.ListExpirationDates, truncated.
  destruct (time.Date aNotBefore) as [[y m] day]. intros Hrun d.
  rewrite (listFrom_spec _ _ _ _ Hrun d). cbn [In].
  assert (Hkeys : In d (map fst (map_to_list (MockBackend.expDateToIssuer db)))
                  <-> is_Some (MockBackend.expDateToIssuer db !! d)).
  { rewrite in_map_iff. split.
    - intros ([k v] & <- & Hin). apply list_elem_of_In, elem_of_map_to_list in Hin. eauto.
    - intros [v Hv]. exists (d, v). split; [reflexivity |].
      apply list_elem_of_In, elem_of_map_to_list. exact Hv. }
  tauto.
Qed.

Lemma Mock_ListExpirationDates_filters_witness :
  In "2019-01-01"%string ["2019-01-01"%string]
  <-> is_Some (MockBackend.expDateToIssuer oneShardMock !! "2019-01-01"%string)
      /\ time.Before (fst (time.Parse "2019-01-01")) (truncated (time.Unix 0)) = false.
Proof.
  refine (Mock_ListExpirationDates_filters (time.Unix 0) oneShardMock ["2019-01-01"%string] _
            "2019-01-01"%string).
  vm_compute. reflexivity.
Defined.

(** ** Issuer metadata *)

(** The certificate of the scenario E3. *)
Definition certE3 : x509.Certificate :=
  {| x509.Raw := []; x509.SerialNumberBytes := [x01]; x509.RawSubjectPublicKeyInfo := [];
     x509.IssuerDN := "CN=issuer"; x509.NotAfter := time.Unix 1575072000;
     x509.CRLDistributionPoints :=
       ["http://a/crl"; "ldap://b"; "https://c/crl"; "http://a/crl"]%string |}.

Definition emptyWorld : World MockRemoteCache.t MockBackend.t :=
  {| cache := MockRemoteCache.New; backend := MockBackend.New; trace := [] |}.

(** C3 on the two revisions of [IssuerMetadata.Accumulate], at the
    certificate of E3.  The file-backed revision returns at the
    [ldap://b] entry and never sees [https://c/crl]; the cache-backed
    revision skips it and goes on, and [CRLs()] is
    [http://a/crl; https://c/crl]. *)
Lemma Accumulate_E3 :
  IssuerMetadataFile.Crls
    (IssuerMetadataFile.meta (IssuerMetadataFile.Accumulate certE3 (IssuerMetadataFile.New "meta")))
  = ["http://a/crl"%string]
  /\ fst (IssuerMetadata.CRLs (time.Unix 1500000000) (NewIssuerMetadata "2019-11-30" issuerX)
            (snd (IssuerMetadata.Accumulate (time.Unix 1500000000)
                    (NewIssuerMetadata "2019-11-30" issuerX) certE3 emptyWorld)))
     = Ok ["http://a/crl"%string; "https://c/crl"%string].
Proof. split; vm_compute; reflexivity. Qed.

(** ** The known-set: sorted insertion (MockRemoteCache.SetInsert) *)

Lemma before_trans (a b c : string) : before a b -> before b c -> before a c.
Proof.
  unfold before. intros Hab Hbc.
  apply OrderedTypeEx.String_as_OT.cmp_lt.
  eapply OrderedTypeEx.String_as_OT.lt_trans; apply OrderedTypeEx.String_as_OT.cmp_lt; eassumption.
Qed.

Lemma before_irrefl (a : string) : ~ before a a.
Proof.
  unfold before. intros H.
  assert (E : String.compare a a = Eq) by (apply OrderedTypeEx.String_as_OT.cmp_eq; reflexivity).
  congruence.
Qed.

Lemma before_dec (a b : string) : {before a b} + {~ before a b}.
Proof. unfold before. destruct (String.compare a b); [right | left | right]; congruence. Qed.

Lemma before_total (a b : string) : ~ before a b -> a <> b -> before b a.
Proof.
  unfold before. intros H1 H2. rewrite String.compare_antisym.
  destruct (String.compare a b) eqn:E; [| congruence | reflexivity].
  apply OrderedTypeEx.String_as_OT.cmp_eq in E. congruence.
Qed.

Lemma le_before (a x : string) : before x a -> strings.le a x = false.
Proof.
  unfold before, strings.le, String.leb. intros H.
  rewrite String.compare_antisym, H. reflexivity.
Qed.

Lemma le_not_before (a x : string) : ~ before x a -> strings.le a x = true.
Proof.
  unfold before, strings.le, String.leb. intros H.
  rewrite String.compare_antisym. destruct (String.compare x a); try reflexivity. congruence.
Qed.

(** [sort.Search] on a predicate that is false below [p] and true from
    [p] on returns [p]. *)
Lemma searchLoop_threshold (f : nat -> bool) (n p : nat) :
  (forall k, (k < p)%nat -> f k = false) ->
  (forall k, (p <= k)%nat -> (k < n)%nat -> f k = true) ->
  forall fuel i j, (i <= p)%nat -> (p <= j)%nat -> (j <= n)%nat -> (j - i <= fuel)%nat ->
  sort.searchLoop fuel f i j = p.
Proof.
  intros Hlo Hhi. induction fuel as [| fuel IH]; intros i j Hi Hj Hn Hf; cbn [sort.searchLoop].
  - lia.
  - destruct (Nat.ltb_spec i j) as [Hij | Hij]; [| lia].
    assert (Hh : (i <= (i + j) / 2 < j)%nat).
    { split; [apply Nat.div_le_lower_bound | apply Nat.Div0.div_lt_upper_bound]; lia. }
    destruct (f ((i + j) / 2)%nat) eqn:E.
    + apply IH; try lia.
      destruct (Nat.le_gt_cases p ((i + j) / 2)) as [L | L]; [exact L |].
      rewrite (Hlo _ L) in E. discriminate.
    + apply IH; try lia.
      destruct (Nat.le_gt_cases p ((i + j) / 2)) as [L | L]; [| lia].
      rewrite (Hhi _ L) in E by lia. discriminate.
Qed.

Lemma Search_threshold (f : nat -> bool) (n p : nat) :
  (p <= n)%nat ->
  (forall k, (k < p)%nat -> f k = false) ->
  (forall k, (p <= k)%nat -> (k < n)%nat -> f k = true) ->
  sort.Search n f = p.
Proof. intros Hp Hlo Hhi. unfold sort.Search. apply (searchLoop_threshold f n p Hlo Hhi); lia. Qed.

(** A strictly sorted slice splits at [entry]. *)
Lemma sorted_split (entry : string) (l : list string) :
  StronglySorted before l ->
  exists l1 l2, l = l1 ++ l2 /\ Forall (fun x => before x entry) l1
                /\ Forall (fun x => ~ before x entry) l2.
Proof.
  induction 1 as [| x l Hs IH Hx].
  - exists [], []. repeat split; constructor.
  - destruct (before_dec x entry) as [Hb | Hb].
    + destruct IH as (l1 & l2 & -> & H1 & H2).
      exists (x :: l1), l2. repeat split; [constructor; assumption | assumption].
    + exists [], (x :: l). repeat split; [constructor |].
      constructor; [exact Hb |].
      eapply Forall_impl; [exact Hx |]. cbn. intros y Hxy Hy. apply Hb.
      eapply before_trans; eassumption.
Qed.

Lemma position_split (entry : string) (l1 l2 : list string) :
  Forall (fun x => before x entry) l1 -> Forall (fun x => ~ before x entry) l2 ->
  MockRemoteCache.position entry (l1 ++ l2) = length l1.
Proof.
  intros H1 H2. unfold MockRemoteCache.position.
  apply Search_threshold.
  - rewrite length_app. lia.
  - intros k Hk. rewrite app_nth1 by exact Hk. apply le_before.
    rewrite Forall_forall in H1. apply H1. apply list_elem_of_In, nth_In. exact Hk.
  - intros k Hk Hn. rewrite length_app in Hn. rewrite app_nth2 by lia. apply le_not_before.
    rewrite Forall_forall in H2. apply H2. apply list_elem_of_In, nth_In. lia.
Qed.

(** On a strictly sorted slice the search finds exactly the members. *)
Lemma found_sorted (entry : string) (l : list string) :
  StronglySorted before l -> MockRemoteCache.found entry l = true <-> entry ∈ l.
Proof.
  intros Hs. destruct (sorted_split entry l Hs) as (l1 & l2 & -> & H1 & H2).
  unfold MockRemoteCache.found. rewrite (position_split _ _ _ H1 H2).
  rewrite andb_true_iff, Nat.ltb_lt, String.eqb_eq, length_app.
  rewrite app_nth2 by lia. rewrite Nat.sub_diag.
  split.
  - intros [Hlt E]. destruct l2 as [| h t]; [cbn in Hlt; lia |].
    cbn in E. subst h. apply elem_of_app. right. left.
  - intros Hin. apply elem_of_app in Hin. destruct Hin as [Hin | Hin].
    + rewrite Forall_forall in H1. destruct (before_irrefl entry). apply H1. exact Hin.
    + destruct l2 as [| h t]; [inversion Hin |].
      split; [cbn; lia |]. cbn.
      apply elem_of_cons in Hin. destruct Hin as [E | Hin]; [exact E |].
      apply StronglySorted_app_1_r in Hs. inversion Hs as [| ? ? _ Hh]; subst.
      rewrite Forall_forall in Hh. specialize (Hh _ Hin).
      inversion H2 as [| ? ? Hn _]; subst. contradiction.
Qed.

(** Inserting an entry that is not there, at the position found, keeps
    the slice strictly sorted and adds the entry. *)
Lemma insert_sorted (entry : string) (l : list string) :
  StronglySorted before l -> entry ∉ l ->
  let idx := MockRemoteCache.position entry l in
  StronglySorted before (take idx l ++ entry :: drop idx l)
  /\ forall x, x ∈ take idx l ++ entry :: drop idx l <-> x = entry \/ x ∈ l.
Proof.
  intros Hs Hnot. destruct (sorted_split entry l Hs) as (l1 & l2 & -> & H1 & H2).
  cbn zeta. rewrite (position_split _ _ _ H1 H2).
  rewrite take_app_length, drop_app_length. split.
  - assert (H2' : Forall (before entry) l2).
    { rewrite Forall_forall in H2 |- *. intros x Hx. apply before_total; [apply H2, Hx |].
      intros ->. apply Hnot, elem_of_app. right. exact Hx. }
    apply StronglySorted_app in Hs. destruct Hs as (H12 & Hs1 & Hs2).
    apply StronglySorted_app_2; [| exact Hs1 | constructor; assumption].
    intros x1 x2 Hx1 Hx2. rewrite Forall_forall in H1, H2'.
    apply elem_of_cons in Hx2. destruct Hx2 as [-> | Hx2]; [apply H1, Hx1 |].
    eapply before_trans; [apply H1, Hx1 | apply H2', Hx2].
  - intros x. rewrite !elem_of_app, elem_of_cons. tauto.
Qed.

(** [SetInsert] on a strictly sorted set: it never fails, it reports
    [true] exactly when the entry was not there, the set stays strictly
    sorted and gains the entry, and nothing else in the cache changes. *)
Theorem SetInsert_sorted_set (key entry : string) (ec : MockRemoteCache.t) :
  StronglySorted before (MockRemoteCache.at_ ec key) ->
  let r := MockRemoteCache.SetInsert key entry ec in
  r.1.2 = None
  /\ (r.1.1 = true <-> entry ∉ MockRemoteCache.at_ ec key)
  /\ StronglySorted before (MockRemoteCache.at_ r.2 key)
  /\ (forall x, x ∈ MockRemoteCache.at_ r.2 key <-> x = entry \/ x ∈ MockRemoteCache.at_ ec key)
  /\ (forall k, k <> key -> MockRemoteCache.at_ r.2 k = MockRemoteCache.at_ ec k)
  /\ MockRemoteCache.Expirations r.2 = MockRemoteCache.Expirations ec
  /\ (MockRemoteCache.SetInsert key entry r.2).1.1 = false.
Proof.
  intros Hs r. subst r. unfold MockRemoteCache.SetInsert.
  pose proof (found_sorted entry _ Hs) as Hf.
  destruct (MockRemoteCache.found entry (MockRemoteCache.at_ ec key)) eqn:Ef; cbn [fst snd].
  - assert (Hin : entry ∈ MockRemoteCache.at_ ec key) by (apply Hf; reflexivity).
    rewrite Ef. cbn [fst snd].
    split; [reflexivity |]. split; [split; [discriminate | intros Hn; contradiction] |].
    split; [exact Hs |]. split; [| auto].
    intros x. split; [right; assumption | intros [-> | Hx]; assumption].
  - assert (Hnot : entry ∉ MockRemoteCache.at_ ec key).
    { intros Hin. apply Hf in Hin. discriminate Hin. }
    destruct (insert_sorted entry _ Hs Hnot) as [Hs' Hm'].
    assert (Eat : MockRemoteCache.at_
                    {| MockRemoteCache.Data :=
                         <[key := take (MockRemoteCache.position entry (MockRemoteCache.at_ ec key))
                                    (MockRemoteCache.at_ ec key)
                                  ++ entry :: drop (MockRemoteCache.position entry
                                                      (MockRemoteCache.at_ ec key))
                                                (MockRemoteCache.at_ ec key)]>
                           (MockRemoteCache.Data ec);
                       MockRemoteCache.Expirations := MockRemoteCache.Expirations ec |} key
                  = take (MockRemoteCache.position entry (MockRemoteCache.at_ ec key))
                      (MockRemoteCache.at_ ec key)
                    ++ entry :: drop (MockRemoteCache.position entry (MockRemoteCache.at_ ec key))
                                  (MockRemoteCache.at_ ec key)).
    { unfold MockRemoteCache.at_ at 1. cbn [MockRemoteCache.Data].
      rewrite lookup_insert_eq. reflexivity. }
    rewrite Eat.
    assert (Hf' : MockRemoteCache.found entry
                    (take (MockRemoteCache.position entry (MockRemoteCache.at_ ec key))
                       (MockRemoteCache.at_ ec key)
                     ++ entry :: drop (MockRemoteCache.position entry (MockRemoteCache.at_ ec key))
                                   (MockRemoteCache.at_ ec key)) = true).
    { apply found_sorted; [exact Hs' |]. apply Hm'. left. reflexivity. }
    rewrite Hf'. cbn [fst snd].
    split; [reflexivity |]. split; [split; [intros _; exact Hnot | reflexivity] |].
    split; [exact Hs' |]. split; [exact Hm' |]. split; [| auto].
    intros k Hk. unfold MockRemoteCache.at_ at 1. cbn [MockRemoteCache.Data].
      rewrite lookup_insert_ne by congruence. reflexivity.
Qed.

Lemma SetInsert_sorted_set_witness :
  (MockRemoteCache.SetInsert "serials::2019-01-01::i" "Cw=="
     (snd (MockRemoteCache.SetInsert "serials::2019-01-01::i" "Cg==" MockRemoteCache.New))).1.2
  = None.
Proof.
  refine (proj1 (SetInsert_sorted_set "serials::2019-01-01::i" "Cw=="
                   (snd (MockRemoteCache.SetInsert "serials::2019-01-01::i" "Cg=="
                           MockRemoteCache.New)) _)).
  vm_compute. repeat constructor.
Defined.

(** ** Keys of the shards *)

Lemma list_ascii_of_string_inj (s t : string) :
  list_ascii_of_string s = list_ascii_of_string t -> s = t.
Proof.
  intros E. rewrite <- (string_of_list_ascii_of_string s), <- (string_of_list_ascii_of_string t).
  congruence.
Qed.

(** Two concatenations with tails of one length agree part by part. *)
Lemma append_inj_tail (a b a' b' : string) :
  String.length b = String.length b' ->
  String.append a b = String.append a' b' -> a = a' /\ b = b'.
Proof.
  intros Hl E. apply (f_equal list_ascii_of_string) in E.
  rewrite !list_ascii_of_string_append in E.
  apply app_inj_2 in E; [| rewrite !length_list_ascii_of_string; exact Hl].
  destruct E as [E1 E2]. split; apply list_ascii_of_string_inj; assumption.
Qed.

Lemma length_append (a b : string) :
  String.length (String.append a b) = (String.length a + String.length b)%nat.
Proof.
  rewrite <- !length_list_ascii_of_string, list_ascii_of_string_append, length_app. reflexivity.
Qed.

Lemma serialId_serialsKey (e : string) (issuer : Issuer.t) :
  KnownCertificates.serialId (NewKnownCertificates e issuer) = serialsKey e (Issuer.ID issuer).
Proof. reflexivity. Qed.

Lemma serialsKey_inj (e i e' i' : string) :
  String.length i = String.length i' ->
  serialsKey e i = serialsKey e' i' -> e = e' /\ i = i'.
Proof.
  intros Hl E. unfold serialsKey, KnownCertificates.serialId, NewKnownCertificates,
    KnownCertificates.kSerials in E.
  cbn [KnownCertificates.expDate KnownCertificates.issuer Issuer.ID NewIssuerFromString
       Issuer.id] in E.
  apply (f_equal list_ascii_of_string) in E. rewrite !list_ascii_of_string_append in E.
  do 2 apply app_inv_head in E.
  apply app_inj_2 in E; [| rewrite !length_app, !length_list_ascii_of_string; cbn; lia].
  destruct E as [E1 E2]. apply app_inv_head in E2.
  split; apply list_ascii_of_string_inj; assumption.
Qed.

(** The key of a shard in [MockBackend.expDateIssuerIDToSerials]. *)
Lemma shard_key_inj (e i e' i' : string) :
  String.length i = String.length i' ->
  String.append e i = String.append e' i' -> e = e' /\ i = i'.
Proof. apply append_inj_tail. Qed.

Lemma Encode_padded_length_exact (bs : list byte) :
  Z.of_nat (length (base64.Encode base64.URLEncoding bs))
  = 4 * ((Z.of_nat (length bs) + 2) / 3).
Proof.
  induction bs as [| b0 | b0 b1 | b0 b1 b2 bs IH] using list_ind3;
    cbn [base64.Encode length base64.padding base64.padChar base64.URLEncoding repeat];
    try reflexivity.
  rewrite !Nat2Z.inj_succ. div_mod_lia.
Qed.

(** An issuer id is the padded base64 of a SHA-256 digest: 44 characters. *)
Lemma Issuer_ID_length (aCert : x509.Certificate) :
  String.length (Issuer.ID (NewIssuer aCert)) = 44%nat.
Proof.
  unfold Issuer.ID, NewIssuer. cbn [Issuer.id Issuer.spki].
  unfold SPKI.Sha256DigestURLEncodedBase64, base64.EncodeToString.
  rewrite <- length_list_ascii_of_string, list_ascii_of_string_of_list_ascii.
  apply Nat2Z.inj. rewrite Encode_padded_length_exact, Sum256_length. reflexivity.
Qed.

Lemma Serial_ID_inj (s s' : Serial.t) : Serial.ID s = Serial.ID s' -> s = s'.
Proof.
  intros E. pose proof (NewSerialFromIDString_ID s) as H1.
  rewrite E, NewSerialFromIDString_ID in H1. congruence.
Qed.

Lemma crlsKey_serialsKey (im : IssuerMetadata.t) (e i : string) :
  IssuerMetadata.crlsKey im <> serialsKey e i.
Proof. discriminate. Qed.

Lemma issuersKey_serialsKey (im : IssuerMetadata.t) (e i : string) :
  IssuerMetadata.issuersKey im <> serialsKey e i.
Proof. discriminate. Qed.

(** ** The calls of [Store] (FilesystemDatabase.Store) *)

Lemma quiet_only s e i ev : quiet ev -> only s e i ev.
Proof. destruct ev; cbn; try tauto. discriminate. Qed.

Section Quiet.
Context {C B : Type} `{RemoteCache C} `{StorageBackend B}.

Lemma emitting_ret {A} Q (a : A) : emitting Q (ret a : M C B A).
Proof. intros w. exists []. cbn. rewrite app_nil_r. split; [reflexivity | constructor]. Qed.

Lemma emitting_bind {A A'} Q (m : M C B A) (k : A -> M C B A') :
  emitting Q m -> (forall a, emitting Q (k a)) -> emitting Q (bind m k).
Proof.
  intros Hm Hk w. unfold bind. destruct (Hm w) as (evs & E & F).
  destruct (m w) as [[a | err] w']; cbn [snd] in *.
  - destruct (Hk a w') as (evs' & E' & F'). exists (evs ++ evs').
    rewrite E', E, app_assoc. split; [reflexivity | apply Forall_app; split; assumption].
  - exists evs. split; assumption.
Qed.

Lemma quietly_ignoreError {A} (m : M C B A) : emitting quiet m -> emitting quiet (ignoreError m).
Proof. intros Hm w. exact (Hm w). Qed.

Lemma quietly_callExists now key : emitting quiet (callExists now key : M C B bool).
Proof.
  intros w. unfold callExists. destruct (Exists now key (cache w)) as [[res err] c].
  eexists. split; [reflexivity |]. repeat constructor.
Qed.

Lemma quietly_callSortedInsert now key entry :
  emitting quiet (callSortedInsert now key entry : M C B bool).
Proof.
  intros w. unfold callSortedInsert.
  destruct (SortedInsert now key entry (cache w)) as [[res err] c].
  eexists. split; [reflexivity |]. repeat constructor.
Qed.

Lemma quietly_callExpireAt now key t : emitting quiet (callExpireAt now key t : M C B unit).
Proof.
  intros w. unfold callExpireAt. destruct (ExpireAt now key t (cache w)) as [err c].
  eexists. split; [reflexivity |]. repeat constructor.
Qed.

Lemma quietly_callAllocateExpDateAndIssuer e i :
  emitting quiet (callAllocateExpDateAndIssuer e i : M C B unit).
Proof.
  intros w. unfold callAllocateExpDateAndIssuer.
  destruct (AllocateExpDateAndIssuer e i (backend w)) as [err b].
  eexists. split; [reflexivity |]. repeat constructor.
Qed.

Lemma quietly_callMarkDirty id : emitting quiet (callMarkDirty id : M C B unit).
Proof.
  intros w. unfold callMarkDirty. destruct (MarkDirty id (backend w)) as [err b].
  eexists. split; [reflexivity |]. repeat constructor.
Qed.

Lemma quietly_addCRL now im dp : emitting quiet (IssuerMetadata.addCRL now im dp : M C B unit).
Proof.
  unfold IssuerMetadata.addCRL.
  destruct (url.Parse (strings.TrimSpace dp)) as [[u |] [err |]]; try apply emitting_ret.
  destruct (_ || _); [apply emitting_ret |].
  destruct (_ && _); [apply emitting_ret |].
  apply emitting_bind; [apply quietly_callSortedInsert | intros; apply emitting_ret].
Qed.

Lemma quietly_addCRLs now im dps : emitting quiet (IssuerMetadata.addCRLs now im dps : M C B unit).
Proof.
  induction dps as [| dp dps IH]; cbn [IssuerMetadata.addCRLs]; [apply emitting_ret |].
  apply emitting_bind; [apply quietly_addCRL | intros; exact IH].
Qed.

Lemma quietly_Accumulate now im aCert :
  emitting quiet (IssuerMetadata.Accumulate now im aCert : M C B bool).
Proof.
  unfold IssuerMetadata.Accumulate, IssuerMetadata.addIssuerDN.
  apply emitting_bind; [apply quietly_callExists | intros seen].
  apply emitting_bind; [apply quietly_addCRLs | intros _].
  apply emitting_bind; [| intros; apply emitting_ret].
  apply emitting_bind; [apply quietly_callSortedInsert | intros; apply emitting_ret].
Qed.

Lemma quietly_SetExpiryFlag slack now kc :
  emitting quiet (KnownCertificates.SetExpiryFlag slack now kc : M C B unit).
Proof.
  unfold KnownCertificates.SetExpiryFlag.
  destruct (time.Parse _) as [t [err |]]; [apply emitting_ret |].
  apply quietly_ignoreError, quietly_callExpireAt.
Qed.

Lemma emitting_impl {A} (Q Q' : event -> Prop) (m : M C B A) :
  (forall ev, Q ev -> Q' ev) -> emitting Q m -> emitting Q' m.
Proof.
  intros HQ Hm w. destruct (Hm w) as (evs & E & F). exists evs. split; [exact E |].
  eapply Forall_impl; eassumption.
Qed.

Lemma only_callStoreCertificatePEM s e issuer b :
  emitting (only s e (Issuer.ID issuer)) (callStoreCertificatePEM s e issuer b : M C B unit).
Proof.
  intros w. unfold callStoreCertificatePEM.
  destruct (StoreCertificatePEM s e issuer b (backend w)) as [err be].
  eexists. split; [reflexivity |]. repeat constructor.
Qed.

Lemma insertedBefore_quiet (evs : list event) : Forall quiet evs -> insertedBefore evs.
Proof.
  intros F pre s e i b err post ->. apply Forall_app in F. destruct F as [_ F].
  inversion F as [| ? ? Q _]. discriminate Q.
Qed.

Lemma insertedBefore_app (evs evs' : list event) :
  insertedBefore evs -> insertedBefore evs' -> insertedBefore (evs ++ evs').
Proof.
  intros H1 H2 pre s e i b err post E.
  apply app_eq_app in E. destruct E as (l & [[-> E] | [-> ->]]).
  - destruct l as [| x l]; cbn [app] in E.
    + symmetry in E. apply (H2 []) in E. inversion E.
    + injection E as <- ->. eapply (H1 pre). reflexivity.
  - apply elem_of_app. right. eapply (H2 l). reflexivity.
Qed.

Section StoreOrder.
Variable slack : Z.
Variable pem_EncodeToMemory : pem.Block -> list byte.
Variable formatRFC3339 : time.Time -> string.
Variable strconv_FormatInt : Z -> string.

Lemma Store_insertedBefore now aCert aIssuer aLogURL aEntryId (w : World C B) :
  exists evs,
    trace (snd (FilesystemDatabase.Store slack pem_EncodeToMemory formatRFC3339
                  strconv_FormatInt now aCert aIssuer aLogURL aEntryId w))
    = trace w ++ evs
    /\ insertedBefore evs.
Proof.
  unfold FilesystemDatabase.Store, KnownCertificates.WasUnknown,
    FilesystemDatabase.GetKnownCertificates, FilesystemDatabase.markDirty.
  rewrite serialId_serialsKey.
  set (e := time.Format (x509.NotAfter aCert)).
  set (s := NewSerial aCert). set (issuer := NewIssuer aIssuer).
  match goal with |- context [bind (callSortedInsert _ _ _) ?k] => set (rest := k) end.
  assert (Hrest : forall res : bool,
            emitting (if res then only s e (Issuer.ID issuer) else quiet) (rest res)).
  { intros res. subst rest. cbv beta. apply emitting_bind.
    - destruct res; [| apply emitting_ret].
      apply emitting_bind.
      + apply (emitting_impl quiet); [apply quiet_only | apply quietly_Accumulate].
      + intros seen. apply emitting_bind; [| intros; apply only_callStoreCertificatePEM].
        apply (emitting_impl quiet); [apply quiet_only |].
        destruct (negb seen); [| apply emitting_ret].
        apply emitting_bind; [apply quietly_callAllocateExpDateAndIssuer |].
        intros _. apply quietly_SetExpiryFlag.
    - intros _. destruct res.
      + apply (emitting_impl quiet); [apply quiet_only | apply quietly_callMarkDirty].
      + apply quietly_callMarkDirty. }
  unfold bind at 1, callSortedInsert.
  destruct (SortedInsert now (serialsKey e (Issuer.ID issuer)) (Serial.ID s) (cache w))
    as [[res err] c].
  destruct err as [err |]; cbn [checked].
  - eexists. split; [reflexivity |]. apply insertedBefore_quiet. repeat constructor.
  - destruct (Hrest res (logged w c (backend w)
               (CallSortedInsert (serialsKey e (Issuer.ID issuer)) (Serial.ID s) res None)))
      as (evs & E & F).
    exists (CallSortedInsert (serialsKey e (Issuer.ID issuer)) (Serial.ID s) res None :: evs).
    split; [rewrite E; cbn [logged trace]; rewrite <- app_assoc; reflexivity |].
    destruct res.
    + intros pre s' e' i' b perr post Eq.
      destruct pre as [| x pre]; cbn [app] in Eq; [discriminate Eq |].
      injection Eq as <- ->. apply Forall_app in F. destruct F as [_ F].
      apply Forall_cons in F. destruct F as [F _]. cbn [only] in F.
      destruct F as (-> & -> & ->). left.
    + apply (insertedBefore_app [_] evs); [| apply insertedBefore_quiet, F].
      apply insertedBefore_quiet. repeat constructor.
Qed.

Lemma StoreAll_insertedBefore calls (w : World C B) :
  exists evs,
    trace (FilesystemDatabase.StoreAll slack pem_EncodeToMemory formatRFC3339
             strconv_FormatInt calls w)
    = trace w ++ evs
    /\ insertedBefore evs.
Proof.
  revert w. induction calls as [| c calls IH]; intros w; cbn [FilesystemDatabase.StoreAll].
  - exists []. rewrite app_nil_r. split; [reflexivity | apply insertedBefore_quiet; constructor].
  - destruct (Store_insertedBefore (FilesystemDatabase.at_time c) (FilesystemDatabase.cert c)
                (FilesystemDatabase.issuerCert c) (FilesystemDatabase.logURL c)
                (FilesystemDatabase.entryId c) w) as (evs1 & E1 & I1).
    destruct (IH (snd (FilesystemDatabase.Store slack pem_EncodeToMemory formatRFC3339
                         strconv_FormatInt (FilesystemDatabase.at_time c)
                         (FilesystemDatabase.cert c) (FilesystemDatabase.issuerCert c)
                         (FilesystemDatabase.logURL c) (FilesystemDatabase.entryId c) w)))
      as (evs2 & E2 & I2).
    exists (evs1 ++ evs2). rewrite E2, E1, app_assoc.
    split; [reflexivity | apply insertedBefore_app; assumption].
Qed.

End StoreOrder.

End Quiet.

Section StoreErrors.
Context {C B : Type} `{RemoteCache C} `{StorageBackend B}.
Variable slack : Z.
Variable pem_EncodeToMemory : pem.Block -> list byte.
Variable formatRFC3339 : time.Time -> string.
Variable strconv_FormatInt : Z -> string.

(** When the shard cannot be allocated, [Store] returns the error: the
    serial is in the known-set by then and no PEM write is made. *)
Lemma Store_allocate_error now aCert aIssuer aLogURL aEntryId (w w2 : World C B)
    (c1 : C) (b3 : B) (err : error) :
  let e := time.Format (x509.NotAfter aCert) in
  let issuer := NewIssuer aIssuer in
  let K := serialsKey e (Issuer.ID issuer) in
  let s := NewSerial aCert in
  SortedInsert now K (Serial.ID s) (cache w) = ((true, None), c1) ->
  IssuerMetadata.Accumulate now (NewIssuerMetadata e issuer) aCert
    (logged w c1 (backend w) (CallSortedInsert K (Serial.ID s) true None))
  = (Ok false, w2) ->
  AllocateExpDateAndIssuer e issuer (backend w2) = (Some err, b3) ->
  FilesystemDatabase.Store slack pem_EncodeToMemory formatRFC3339 strconv_FormatInt
    now aCert aIssuer aLogURL aEntryId w
  = (Err err,
     logged w2 (cache w2) b3 (CallAllocateExpDateAndIssuer e (Issuer.ID issuer) (Some err))).
Proof.
  intros e issuer K s Hins Hacc Halloc.
  unfold FilesystemDatabase.Store, KnownCertificates.WasUnknown,
    FilesystemDatabase.GetKnownCertificates, FilesystemDatabase.GetIssuerMetadata.
  rewrite serialId_serialsKey. fold e issuer K s.
  unfold bind at 1, callSortedInsert. rewrite Hins. cbn [checked].
  unfold bind. rewrite Hacc. cbn [negb].
  unfold callAllocateExpDateAndIssuer. rewrite Halloc. reflexivity.
Qed.

End StoreErrors.

(** ** [Store] on the in-process cache and backend *)

Lemma keeps_refl now key c : keeps now key c c.
Proof. intros _. split; reflexivity. Qed.

Lemma keeps_trans now key c c' c'' :
  keeps now key c c' -> keeps now key c' c'' -> keeps now key c c''.
Proof.
  intros H1 H2 Hc. destruct (H1 Hc) as [D1 E1].
  assert (Hc' : MockRemoteCache.expired now c' key = false).
  { unfold MockRemoteCache.expired in *. rewrite E1. exact Hc. }
  destruct (H2 Hc') as [D2 E2]. split; congruence.
Qed.

Lemma CleanupExpiry_keeps now key c : keeps now key c (MockRemoteCache.CleanupExpiry now c).
Proof.
  intros Hc. unfold MockRemoteCache.CleanupExpiry.
  cbn [MockRemoteCache.Data MockRemoteCache.Expirations].
  split.
  - rewrite map_lookup_filter. destruct (MockRemoteCache.Data c !! key) as [l |]; [| reflexivity].
    cbn. rewrite option_guard_True by exact Hc. reflexivity.
  - rewrite map_lookup_filter. unfold MockRemoteCache.expired in Hc.
    destruct (MockRemoteCache.Expirations c !! key) as [t |]; [| reflexivity].
    cbn. rewrite option_guard_True by exact Hc. reflexivity.
Qed.

Lemma SetInsert_keeps now key k entry c :
  k <> key -> keeps now key c (snd (MockRemoteCache.SetInsert k entry c)).
Proof.
  intros Hk _. unfold MockRemoteCache.SetInsert.
  destruct (MockRemoteCache.found _ _); cbn; [split; reflexivity |].
  rewrite lookup_insert_ne by exact Hk. split; reflexivity.
Qed.

Lemma steady_ret {A} now key (a : A) : steady now key (ret a).
Proof. intros w. cbn. split; [eauto |]. split; [reflexivity | apply keeps_refl]. Qed.

Lemma steady_bind {A A'} now key (m : M _ _ A) (k : A -> M _ _ A') :
  steady now key m -> (forall a, steady now key (k a)) -> steady now key (bind m k).
Proof.
  intros Hm Hk w. unfold bind. destruct (Hm w) as ((a & Ea) & Eb & Ek).
  destruct (m w) as [[a' | err] w']; cbn [fst snd] in *; [| discriminate Ea].
  destruct (Hk a' w') as (Ha' & Eb' & Ek'). split; [exact Ha' |].
  split; [congruence | eapply keeps_trans; eassumption].
Qed.

Lemma steady_callExists now key k : steady now key (callExists now k).
Proof.
  intros w. unfold callExists. cbn. split; [eauto |]. split; [reflexivity |].
  apply CleanupExpiry_keeps.
Qed.

Lemma steady_callSortedInsert now key k entry :
  k <> key -> steady now key (callSortedInsert now k entry).
Proof.
  intros Hk w. unfold callSortedInsert. cbn [SortedInsert MockRemoteCache_RemoteCache].
  pose proof (SetInsert_keeps now key k entry (cache w) Hk) as Hkeep.
  assert (He : (MockRemoteCache.SetInsert k entry (cache w)).1.2 = None).
  { unfold MockRemoteCache.SetInsert. destruct (MockRemoteCache.found _ _); reflexivity. }
  destruct (MockRemoteCache.SetInsert k entry (cache w)) as [[res err] c]. cbn in He. subst err.
  cbn. split; [eauto |]. split; [reflexivity | exact Hkeep].
Qed.

Lemma steady_addCRL now key im dp :
  IssuerMetadata.crlsKey im <> key -> steady now key (IssuerMetadata.addCRL now im dp).
Proof.
  intros Hk. unfold IssuerMetadata.addCRL.
  destruct (url.Parse (strings.TrimSpace dp)) as [[u |] [err |]]; try apply steady_ret.
  destruct (_ || _); [apply steady_ret |].
  destruct (_ && _); [apply steady_ret |].
  apply steady_bind; [apply steady_callSortedInsert, Hk | intros; apply steady_ret].
Qed.

Lemma steady_addCRLs now key im dps :
  IssuerMetadata.crlsKey im <> key -> steady now key (IssuerMetadata.addCRLs now im dps).
Proof.
  intros Hk. induction dps as [| dp dps IH]; cbn [IssuerMetadata.addCRLs]; [apply steady_ret |].
  apply steady_bind; [apply steady_addCRL, Hk | intros; exact IH].
Qed.

Lemma steady_Accumulate now key im aCert :
  IssuerMetadata.crlsKey im <> key -> IssuerMetadata.issuersKey im <> key ->
  steady now key (IssuerMetadata.Accumulate now im aCert).
Proof.
  intros Hc Hi. unfold IssuerMetadata.Accumulate, IssuerMetadata.addIssuerDN.
  apply steady_bind; [apply steady_callExists | intros seen].
  apply steady_bind; [apply steady_addCRLs, Hc | intros _].
  apply steady_bind; [| intros; apply steady_ret].
  apply steady_bind; [apply steady_callSortedInsert, Hi | intros; apply steady_ret].
Qed.

Lemma Mock_AllocateExpDateAndIssuer e issuer db :
  exists db', MockBackend.AllocateExpDateAndIssuer e issuer db = (None, db')
              /\ MockBackend.expDateIssuerIDToSerials db' = MockBackend.expDateIssuerIDToSerials db.
Proof.
  unfold MockBackend.AllocateExpDateAndIssuer. destruct (_ && _); eexists; split; reflexivity.
Qed.

Section MockStore.
Variable slack : Z.
Variable pem_EncodeToMemory : pem.Block -> list byte.
Variable formatRFC3339 : time.Time -> string.
Variable strconv_FormatInt : Z -> string.


(** A resubmitted serial: the insert reports it as known and [Store]
    goes straight to [MarkDirty]. *)
Lemma Store_known now aCert aIssuer aLogURL aEntryId (w : MockWorld) :
  let e := time.Format (x509.NotAfter aCert) in
  let K := serialsKey e (Issuer.ID (NewIssuer aIssuer)) in
  let s := NewSerial aCert in
  MockRemoteCache.found (Serial.ID s) (MockRemoteCache.at_ (cache w) K) = true ->
  FilesystemDatabase.Store slack pem_EncodeToMemory formatRFC3339 strconv_FormatInt
    now aCert aIssuer aLogURL aEntryId w
  = (Ok tt, {| cache := cache w; backend := backend w;
               trace := trace w ++ [CallSortedInsert K (Serial.ID s) false None;
                                    CallMarkDirty e None] |}).
Proof.
  intros e K s Hf.
  unfold FilesystemDatabase.Store, KnownCertificates.WasUnknown,
    FilesystemDatabase.GetKnownCertificates, FilesystemDatabase.markDirty.
  rewrite serialId_serialsKey. fold e K s.
  unfold bind at 1, callSortedInsert. cbn [SortedInsert MockRemoteCache_RemoteCache].
  unfold MockRemoteCache.SetInsert. rewrite Hf. cbn [checked].
  unfold bind, ret, callMarkDirty, logged. cbn. rewrite <- app_assoc. reflexivity.
Qed.

(** The first new serial of a shard: the shard is allocated and the
    known-set gets its expiry. *)
Lemma Store_allocate now (seen : bool) e (issuer : Issuer.t) (w2 : MockWorld) :
  exists w3 evs,
    (if negb seen
     then callAllocateExpDateAndIssuer e issuer ;;;
          KnownCertificates.SetExpiryFlag slack now (NewKnownCertificates e issuer)
     else ret tt) w2 = (Ok tt, w3)
    /\ trace w3 = trace w2 ++ evs
    /\ Forall quiet evs
    /\ MockBackend.expDateIssuerIDToSerials (backend w3)
       = MockBackend.expDateIssuerIDToSerials (backend w2)
    /\ MockRemoteCache.Data (cache w3) = MockRemoteCache.Data (cache w2)
    /\ forall k t, MockRemoteCache.Expirations (cache w3) !! k = Some t ->
         MockRemoteCache.Expirations (cache w2) !! k = Some t
         \/ (k = serialsKey e (Issuer.ID issuer) /\ expiryOf slack e = Some t).
Proof.
  destruct seen; cbn [negb].
  - exists w2, []. rewrite app_nil_r. repeat split; auto.
  - destruct (Mock_AllocateExpDateAndIssuer e issuer (backend w2)) as (db & Edb & Sdb).
    unfold bind, callAllocateExpDateAndIssuer.
    cbn [AllocateExpDateAndIssuer MockBackend_StorageBackend]. rewrite Edb. cbn [checked].
    unfold KnownCertificates.SetExpiryFlag, expiryOf.
    cbn [KnownCertificates.expDate NewKnownCertificates].
    destruct (time.Parse e) as [expireTime [perr |]].
    + eexists _, [_]. split; [reflexivity |]. cbn [logged trace backend cache].
      repeat split; auto; repeat constructor.
    + eexists _, [_; _]. unfold ignoreError, callExpireAt, logged, ret.
      cbn [ExpireAt MockRemoteCache_RemoteCache MockRemoteCache.ExpireAt fst snd
           trace backend cache MockRemoteCache.Data MockRemoteCache.Expirations].
      split; [reflexivity |].
      cbn [trace backend cache MockRemoteCache.Data MockRemoteCache.Expirations].
      rewrite <- app_assoc. repeat split; auto; [repeat constructor |].
      intros k t. rewrite serialId_serialsKey.
      destruct (decide (k = serialsKey e (Issuer.ID issuer))) as [-> | Hne].
      * rewrite lookup_insert_eq. intros [= <-]. right. split; reflexivity.
      * rewrite lookup_insert_ne by congruence. auto.
Qed.

Lemma Store_unknown now aCert aIssuer aLogURL aEntryId (w : MockWorld) :
  let e := time.Format (x509.NotAfter aCert) in
  let i := Issuer.ID (NewIssuer aIssuer) in
  let K := serialsKey e i in
  let s := NewSerial aCert in
  let l := MockRemoteCache.at_ (cache w) K in
  let idx := MockRemoteCache.position (Serial.ID s) l in
  MockRemoteCache.found (Serial.ID s) l = false ->
  exists w' evs b,
    FilesystemDatabase.Store slack pem_EncodeToMemory formatRFC3339 strconv_FormatInt
      now aCert aIssuer aLogURL aEntryId w = (Ok tt, w')
    /\ trace w' = trace w ++ CallSortedInsert K (Serial.ID s) true None
                    :: evs ++ [CallStoreCertificatePEM s e i b None; CallMarkDirty e None]
    /\ Forall quiet evs
    /\ MockBackend.expDateIssuerIDToSerials (backend w')
       = <[String.append e i :=
             default [] (MockBackend.expDateIssuerIDToSerials (backend w) !! String.append e i)
             ++ [s]]> (MockBackend.expDateIssuerIDToSerials (backend w))
    /\ forall e0 i0,
         MockRemoteCache.expired now (cache w) (serialsKey e0 i0) = false ->
         MockRemoteCache.Data (cache w') !! serialsKey e0 i0
         = (if decide (serialsKey e0 i0 = K)
            then Some (take idx l ++ Serial.ID s :: drop idx l)
            else MockRemoteCache.Data (cache w) !! serialsKey e0 i0)
         /\ forall t, MockRemoteCache.Expirations (cache w') !! serialsKey e0 i0 = Some t ->
              MockRemoteCache.Expirations (cache w) !! serialsKey e0 i0 = Some t
              \/ (serialsKey e0 i0 = K /\ expiryOf slack e = Some t).
Proof.
  intros e i K s l idx Hf.
  unfold FilesystemDatabase.Store, KnownCertificates.WasUnknown,
    FilesystemDatabase.GetKnownCertificates, FilesystemDatabase.markDirty.
  rewrite serialId_serialsKey. fold e i K s.
  unfold bind at 1, callSortedInsert. cbn [SortedInsert MockRemoteCache_RemoteCache].
  unfold MockRemoteCache.SetInsert. fold l. rewrite Hf. fold idx. cbn [checked].
  set (w1 := logged w _ _ _).
  set (im := FilesystemDatabase.GetIssuerMetadata e (NewIssuer aIssuer)).
  assert (HA : forall e0 i0,
            (exists a, fst (IssuerMetadata.Accumulate now im aCert w1) = Ok a)
            /\ backend (snd (IssuerMetadata.Accumulate now im aCert w1)) = backend w1
            /\ keeps now (serialsKey e0 i0) (cache w1)
                 (cache (snd (IssuerMetadata.Accumulate now im aCert w1)))).
  { intros. apply steady_Accumulate; [apply crlsKey_serialsKey | apply issuersKey_serialsKey]. }
  destruct (quietly_Accumulate now im aCert w1) as (evsA & EA & QA).
  unfold bind.
  destruct (IssuerMetadata.Accumulate now im aCert w1) as [[seen | err] w2];
    cbn [fst snd] in HA, EA; [| destruct (HA e e) as ((a & Ea) & _); discriminate Ea].
  destruct (Store_allocate now seen e (NewIssuer aIssuer) w2)
    as (w3 & evs3 & E3 & T3 & Q3 & S3 & D3 & X3).
  unfold bind in E3. rewrite E3.
  unfold callStoreCertificatePEM, callMarkDirty, logged.
  cbn [StoreCertificatePEM MarkDirty MockBackend_StorageBackend MockBackend.StoreCertificatePEM
       MockBackend.MarkDirty checked fst snd trace backend cache].
  eexists _, (evsA ++ evs3), _. split; [reflexivity |].
  cbn [trace backend cache MockBackend.expDateIssuerIDToSerials].
  destruct (HA e e) as (_ & Hb & _).
  split; [rewrite T3, EA; subst w1; cbn [logged trace]; rewrite <- !app_assoc; reflexivity |].
  split; [apply Forall_app; split; assumption |].
  split; [rewrite S3, Hb; reflexivity |].
  intros e0 i0 Hexp. destruct (HA e0 i0) as (_ & _ & Hk).
  destruct (Hk Hexp) as [HD HE]. split.
  - rewrite D3, HD. subst w1. cbn [logged cache MockRemoteCache.Data].
    destruct (decide (serialsKey e0 i0 = K)) as [-> | Hne];
      [rewrite lookup_insert_eq | rewrite lookup_insert_ne by congruence]; reflexivity.
  - intros t Ht. destruct (X3 _ _ Ht) as [Ht2 | [Hk' Ht2]]; [left | right; auto].
    rewrite HE in Ht2. exact Ht2.
Qed.

End MockStore.

(** ** Deduplication and the invariant I1 *)

Lemma pemWrites_app e i tr tr' : pemWrites e i (tr ++ tr') = pemWrites e i tr ++ pemWrites e i tr'.
Proof. apply omap_app. Qed.

Lemma pemWrites_quiet e i evs : Forall quiet evs -> pemWrites e i evs = [].
Proof.
  induction 1 as [| ev evs Q _ IH]; [reflexivity |].
  change (ev :: evs) with ([ev] ++ evs). rewrite pemWrites_app, IH, app_nil_r.
  destruct ev; try reflexivity. discriminate Q.
Qed.

Lemma submitted_snoc e i calls c :
  submitted e i (calls ++ [c])
  = submitted e i calls
    ++ (if decide (shard c = (e, i)) then [NewSerial (FilesystemDatabase.cert c)] else []).
Proof.
  unfold submitted. rewrite filter_app, map_app. f_equal.
  rewrite filter_cons, filter_nil. destruct (decide (shard c = (e, i))); reflexivity.
Qed.

Section Shard.
Variable slack : Z.

(** The shard under study; the id of an issuer has 44 characters. *)
Variable e0 i0 : string.
Hypothesis Hi0 : String.length i0 = 44%nat.


(** What holds of the shard once the serials [sub] have been submitted to it. *)
Record inv (sub : list Serial.t) (w : MockWorld) : Prop := {
  inv_sorted : StronglySorted before (MockRemoteCache.at_ (cache w) (serialsKey e0 i0));
  inv_known : forall x, x ∈ MockRemoteCache.at_ (cache w) (serialsKey e0 i0)
                        <-> exists s, s ∈ sub /\ x = Serial.ID s;
  inv_expiry : forall t, MockRemoteCache.Expirations (cache w) !! (serialsKey e0 i0) = Some t ->
                         expiryOf slack e0 = Some t;
  inv_nodup : NoDup (pemWrites e0 i0 (trace w));
  inv_writes : forall s, s ∈ pemWrites e0 i0 (trace w) <-> s ∈ sub;
  inv_listed : default [] (MockBackend.expDateIssuerIDToSerials (backend w)
                             !! String.append e0 i0)
               = pemWrites e0 i0 (trace w)
}.

Lemma inv_empty : inv [] emptyWorld.
Proof using Type.
  split; cbn.
  - constructor.
  - intros x. split; [intros Hx; inversion Hx | intros (s & Hs & _); inversion Hs].
  - intros t. rewrite lookup_empty. discriminate.
  - constructor.
  - intros s. reflexivity.
  - reflexivity.
Qed.

Lemma shard_keys (e i : string) :
  String.length i = 44%nat -> (e, i) <> (e0, i0) ->
  serialsKey e0 i0 <> serialsKey e i /\ String.append e i <> String.append e0 i0.
Proof using Hi0.
  intros Hl Hne. split; intros E.
  - apply serialsKey_inj in E; [| congruence]. destruct E as [E1 E2]. congruence.
  - apply shard_key_inj in E; [| congruence]. destruct E as [E1 E2]. congruence.
Qed.

(** One call of [Store] for the serial [s] in the shard [(e, i)], seen
    from the shard under study. *)
Lemma inv_call sub (w w' : MockWorld) (e i : string) (s : Serial.t) (now : time.Time) :
  inv sub w ->
  String.length i = 44%nat ->
  (forall t, expiryOf slack e0 = Some t -> time.Before t now = false) ->
  let l := MockRemoteCache.at_ (cache w) (serialsKey e i) in
  let idx := MockRemoteCache.position (Serial.ID s) l in
  (MockRemoteCache.found (Serial.ID s) l = true ->
   w' = {| cache := cache w; backend := backend w;
           trace := trace w ++ [CallSortedInsert (serialsKey e i) (Serial.ID s) false None;
                                CallMarkDirty e None] |}) ->
  (MockRemoteCache.found (Serial.ID s) l = false ->
   exists evs b,
     trace w' = trace w ++ CallSortedInsert (serialsKey e i) (Serial.ID s) true None
                     :: evs ++ [CallStoreCertificatePEM s e i b None; CallMarkDirty e None]
     /\ Forall quiet evs
     /\ MockBackend.expDateIssuerIDToSerials (backend w')
        = <[String.append e i :=
              default [] (MockBackend.expDateIssuerIDToSerials (backend w) !! String.append e i)
              ++ [s]]> (MockBackend.expDateIssuerIDToSerials (backend w))
     /\ forall e1 i1,
          MockRemoteCache.expired now (cache w) (serialsKey e1 i1) = false ->
          MockRemoteCache.Data (cache w') !! serialsKey e1 i1
          = (if decide (serialsKey e1 i1 = serialsKey e i)
             then Some (take idx l ++ Serial.ID s :: drop idx l)
             else MockRemoteCache.Data (cache w) !! serialsKey e1 i1)
          /\ forall t, MockRemoteCache.Expirations (cache w') !! serialsKey e1 i1 = Some t ->
               MockRemoteCache.Expirations (cache w) !! serialsKey e1 i1 = Some t
               \/ (serialsKey e1 i1 = serialsKey e i /\ expiryOf slack e = Some t)) ->
  inv (sub ++ (if decide ((e, i) = (e0, i0)) then [s] else [])) w'.
Proof using Hi0.
  intros [Hsorted Hknown Hexpiry Hnodup Hwrites Hlisted] Hi Hnow l idx Hold Hnew.
  assert (Hexp : MockRemoteCache.expired now (cache w) (serialsKey e0 i0) = false).
  { unfold MockRemoteCache.expired.
    destruct (MockRemoteCache.Expirations (cache w) !! (serialsKey e0 i0)) as [t |] eqn:Et;
      [| reflexivity].
    apply Hnow, Hexpiry. reflexivity. }
  assert (Hin : MockRemoteCache.found (Serial.ID s)
                  (MockRemoteCache.at_ (cache w) (serialsKey e0 i0)) = true
                <-> s ∈ sub).
  { rewrite found_sorted by exact Hsorted. rewrite Hknown. split.
    - intros (s' & Hs' & E). apply Serial_ID_inj in E. congruence.
    - intros Hs. exists s. split; [exact Hs | reflexivity]. }
  destruct (MockRemoteCache.found (Serial.ID s) l) eqn:Hf.
  - (* the serial is known *)
    rewrite (Hold eq_refl). clear Hold Hnew.
    assert (Hsub : forall x, x ∈ sub ++ (if decide ((e, i) = (e0, i0)) then [s] else [])
                             <-> x ∈ sub).
    { intros x. destruct (decide ((e, i) = (e0, i0))) as [Es | Es].
      - rewrite elem_of_app, list_elem_of_singleton. split; [| tauto].
        intros [Hx | ->]; [exact Hx |]. apply Hin.
        injection Es as <- <-. exact Hf.
      - rewrite app_nil_r. reflexivity. }
    split; cbn [cache backend trace]; try assumption.
    + intros x. rewrite Hknown.
      split; intros (s' & Hs' & E); exists s'; split; auto; apply Hsub; auto.
    + rewrite pemWrites_app, app_nil_r. exact Hnodup.
    + intros x. rewrite pemWrites_app, app_nil_r, Hsub. apply Hwrites.
    + rewrite pemWrites_app, app_nil_r. exact Hlisted.
  - (* the serial is new *)
    destruct (Hnew eq_refl) as (evs & b & Htr & Hq & Hbe & Hca). clear Hold Hnew.
    destruct (Hca e0 i0 Hexp) as [HD HE].
    assert (Htr' : pemWrites e0 i0 (trace w')
                   = pemWrites e0 i0 (trace w)
                     ++ (if decide ((e, i) = (e0, i0)) then [s] else [])).
    { rewrite Htr, pemWrites_app. f_equal.
      change (CallSortedInsert ?k ?x ?r ?o :: ?t) with ([CallSortedInsert k x r o] ++ t).
      rewrite !pemWrites_app, (pemWrites_quiet _ _ evs Hq).
      unfold pemWrites. cbn [omap list_omap app].
      destruct (decide ((e, i) = (e0, i0))); reflexivity. }
    destruct (decide ((e, i) = (e0, i0))) as [Es | Es].
    + (* in the shard under study *)
      injection Es as -> ->. subst l idx.
      rewrite decide_True in HD by reflexivity.
      assert (Hnot : s ∉ sub).
      { intros Hs. apply Hin in Hs. congruence. }
      assert (Hnot' : Serial.ID s ∉ MockRemoteCache.at_ (cache w) (serialsKey e0 i0)).
      { rewrite <- found_sorted by exact Hsorted. rewrite Hf. discriminate. }
      destruct (insert_sorted _ _ Hsorted Hnot') as [Hs' Hm'].
      split.
      * unfold MockRemoteCache.at_ at 1. rewrite HD. exact Hs'.
      * intros x. unfold MockRemoteCache.at_ at 1. rewrite HD. cbn [default from_option].
        unfold id. rewrite Hm', Hknown. split.
        -- intros [-> | (s' & Hs1 & ->)].
           ++ exists s. split; [apply elem_of_app; right; left | reflexivity].
           ++ exists s'. split; [apply elem_of_app; left; exact Hs1 | reflexivity].
        -- intros (s' & Hs1 & ->). apply elem_of_app in Hs1. destruct Hs1 as [Hs1 | Hs1].
           ++ right. exists s'. split; [exact Hs1 | reflexivity].
           ++ apply list_elem_of_singleton in Hs1. subst s'. left. reflexivity.
      * intros t Ht. destruct (HE t Ht) as [Ht' | [_ Ht']]; [apply Hexpiry, Ht' | exact Ht'].
      * rewrite Htr'. apply NoDup_app. split; [exact Hnodup |]. split; [| apply NoDup_singleton].
        intros x Hx Hx'. apply list_elem_of_singleton in Hx'. subst x. apply Hnot, Hwrites, Hx.
      * intros x. rewrite Htr', !elem_of_app, Hwrites. reflexivity.
      * rewrite Hbe, Htr', lookup_insert_eq, Hlisted. reflexivity.
    + (* in another shard *)
      destruct (shard_keys e i Hi Es) as [HK Hkey].
      rewrite decide_False in HD by exact HK. rewrite app_nil_r in *.
      split.
      * unfold MockRemoteCache.at_. rewrite HD. exact Hsorted.
      * intros x. unfold MockRemoteCache.at_ at 1. rewrite HD. apply Hknown.
      * intros t Ht. destruct (HE t Ht) as [Ht' | [Hk' _]]; [apply Hexpiry, Ht' |].
        contradiction.
      * rewrite Htr'. exact Hnodup.
      * intros x. rewrite Htr'. apply Hwrites.
      * rewrite Hbe, Htr', lookup_insert_ne by exact Hkey. exact Hlisted.
Qed.

End Shard.

Lemma filter_isPEM_quiet (evs : list event) : Forall quiet evs -> List.filter isPEM evs = [].
Proof.
  induction 1 as [| ev evs Q _ IH]; [reflexivity |].
  cbn [List.filter]. rewrite Q. exact IH.
Qed.

Section Dedup.
Variable slack : Z.
Variable pem_EncodeToMemory : pem.Block -> list byte.
Variable formatRFC3339 : time.Time -> string.
Variable strconv_FormatInt : Z -> string.


(** [Store] on the in-process cache and backend: the first call is the
    insert into the known-set, and [StoreCertificatePEM] is called, once
    and for that serial, exactly when the insert reported [true]. *)
Lemma Store_calls (c : FilesystemDatabase.submission) (w : MockWorld) :
  let e := (shard c).1 in
  let i := (shard c).2 in
  let s := NewSerial (FilesystemDatabase.cert c) in
  exists res evs b,
    trace (snd (FilesystemDatabase.Store slack pem_EncodeToMemory formatRFC3339
                  strconv_FormatInt (FilesystemDatabase.at_time c) (FilesystemDatabase.cert c)
                  (FilesystemDatabase.issuerCert c) (FilesystemDatabase.logURL c)
                  (FilesystemDatabase.entryId c) w))
    = trace w ++ CallSortedInsert (serialsKey e i) (Serial.ID s) res None :: evs
    /\ List.filter isPEM evs
       = (if res then [CallStoreCertificatePEM s e i b None] else []).
Proof using Type.
  intros e i s.
  destruct (MockRemoteCache.found (Serial.ID s)
              (MockRemoteCache.at_ (cache w) (serialsKey e i))) eqn:Hf.
  - rewrite (Store_known slack pem_EncodeToMemory formatRFC3339 strconv_FormatInt
               (FilesystemDatabase.at_time c) (FilesystemDatabase.cert c)
               (FilesystemDatabase.issuerCert c) (FilesystemDatabase.logURL c)
               (FilesystemDatabase.entryId c) w Hf).
    exists false, [CallMarkDirty e None], []. split; reflexivity.
  - destruct (Store_unknown slack pem_EncodeToMemory formatRFC3339 strconv_FormatInt
                (FilesystemDatabase.at_time c) (FilesystemDatabase.cert c)
                (FilesystemDatabase.issuerCert c) (FilesystemDatabase.logURL c)
                (FilesystemDatabase.entryId c) w Hf)
      as (w' & evs & b & -> & Htr & Hq & _).
    exists true, (evs ++ [CallStoreCertificatePEM s e i b None; CallMarkDirty e None]), b.
    split; [exact Htr |].
    rewrite List.filter_app, (filter_isPEM_quiet evs Hq). reflexivity.
Qed.

Section OneShard.
Variable e0 i0 : string.
Hypothesis Hi0 : String.length i0 = 44%nat.

Lemma inv_Store done (w : MockWorld) (c : FilesystemDatabase.submission) :
  inv slack e0 i0 (submitted e0 i0 done) w ->
  (forall t, expiryOf slack e0 = Some t ->
             time.Before t (FilesystemDatabase.at_time c) = false) ->
  inv slack e0 i0 (submitted e0 i0 (done ++ [c]))
    (snd (FilesystemDatabase.Store slack pem_EncodeToMemory formatRFC3339 strconv_FormatInt
            (FilesystemDatabase.at_time c) (FilesystemDatabase.cert c)
            (FilesystemDatabase.issuerCert c) (FilesystemDatabase.logURL c)
            (FilesystemDatabase.entryId c) w)).
Proof using Hi0.
  intros Hinv Hnow. rewrite submitted_snoc.
  apply (inv_call slack e0 i0 Hi0 (submitted e0 i0 done) w _ (shard c).1 (shard c).2
           (NewSerial (FilesystemDatabase.cert c)) (FilesystemDatabase.at_time c) Hinv
           (Issuer_ID_length (FilesystemDatabase.issuerCert c)) Hnow).
  - intros Hf.
    rewrite (Store_known slack pem_EncodeToMemory formatRFC3339 strconv_FormatInt
               (FilesystemDatabase.at_time c) (FilesystemDatabase.cert c)
               (FilesystemDatabase.issuerCert c) (FilesystemDatabase.logURL c)
               (FilesystemDatabase.entryId c) w Hf).
    reflexivity.
  - intros Hf.
    destruct (Store_unknown slack pem_EncodeToMemory formatRFC3339 strconv_FormatInt
                (FilesystemDatabase.at_time c) (FilesystemDatabase.cert c)
                (FilesystemDatabase.issuerCert c) (FilesystemDatabase.logURL c)
                (FilesystemDatabase.entryId c) w Hf)
      as (w' & evs & b & -> & Hrest).
    exists evs, b. exact Hrest.
Qed.

Lemma inv_StoreAll rest : forall done (w : MockWorld),
  inv slack e0 i0 (submitted e0 i0 done) w ->
  unexpired slack e0 rest = true ->
  inv slack e0 i0 (submitted e0 i0 (done ++ rest))
    (FilesystemDatabase.StoreAll slack pem_EncodeToMemory formatRFC3339 strconv_FormatInt rest w).
Proof using Hi0.
  induction rest as [| c rest IH]; intros done w Hinv Hun; cbn [FilesystemDatabase.StoreAll].
  - rewrite app_nil_r. exact Hinv.
  - cbn [unexpired forallb] in Hun. apply andb_true_iff in Hun. destruct Hun as [Hc Hun].
    rewrite (cons_middle c done rest), app_assoc. apply IH; [| exact Hun].
    apply inv_Store; [exact Hinv |].
    intros t Et. rewrite Et in Hc. apply negb_true_iff in Hc. exact Hc.
Qed.

End OneShard.

End Dedup.

(** C1, with the condition it needs.  On the in-process cache and
    backend, started empty, take any sequence of calls to [Store] none
    of which is made after the known-set of the shard [(e0, issuer0)]
    has expired ([expDate + slack], the TTL of [SetExpiryFlag]).  Then
    the calls to [StoreCertificatePEM] for the shard carry every serial
    submitted to it exactly once: their number is the number of distinct
    serials submitted.  And in any state, one call of [Store] first
    inserts the serial into the known-set of its shard ([WasUnknown]) and
    then calls [StoreCertificatePEM], once and for that serial, if and
    only if that insert reported [true]: a resubmitted serial performs no
    PEM write. *)
Theorem Store_dedup (slack : Z) (pem_EncodeToMemory : pem.Block -> list byte)
    (formatRFC3339 : time.Time -> string) (strconv_FormatInt : Z -> string)
    (calls : list FilesystemDatabase.submission) (e0 : string) (issuer0 : x509.Certificate) :
  unexpired slack e0 calls = true ->
  let i0 := Issuer.ID (NewIssuer issuer0) in
  let writes :=
    pemWrites e0 i0
      (trace (FilesystemDatabase.StoreAll slack pem_EncodeToMemory formatRFC3339
                strconv_FormatInt calls emptyWorld)) in
  length writes = length (remove_dups (submitted e0 i0 calls))
  /\ NoDup writes
  /\ (forall s, s ∈ writes <-> s ∈ submitted e0 i0 calls)
  /\ (forall (c : FilesystemDatabase.submission) (w : MockWorld),
        let e := (shard c).1 in
        let i := (shard c).2 in
        let s := NewSerial (FilesystemDatabase.cert c) in
        exists res evs b,
          trace (snd (FilesystemDatabase.Store slack pem_EncodeToMemory formatRFC3339
                        strconv_FormatInt (FilesystemDatabase.at_time c)
                        (FilesystemDatabase.cert c) (FilesystemDatabase.issuerCert c)
                        (FilesystemDatabase.logURL c) (FilesystemDatabase.entryId c) w))
          = trace w ++ CallSortedInsert (serialsKey e i) (Serial.ID s) res None :: evs
          /\ List.filter isPEM evs
             = (if res then [CallStoreCertificatePEM s e i b None] else [])).
Proof.
  intros Hun i0 writes.
  pose proof (inv_StoreAll slack pem_EncodeToMemory formatRFC3339 strconv_FormatInt
                e0 i0 (Issuer_ID_length issuer0) calls [] emptyWorld
                (inv_empty slack e0 i0) Hun) as [_ _ _ Hnodup Hwrites _].
  rewrite app_nil_l in Hwrites. fold writes in Hnodup, Hwrites.
  split; [| split; [exact Hnodup | split; [exact Hwrites |]]].
  - apply Permutation_length, NoDup_Permutation; [exact Hnodup | apply NoDup_remove_dups |].
    intros s. rewrite Hwrites, elem_of_remove_dups. reflexivity.
  - intros c w. apply Store_calls.
Qed.

(** C2 (the invariant I1), with the condition it needs.  On the
    in-process cache and backend, started empty, after any sequence of
    calls to [Store] none of which is made after the known-set of the
    shard has expired, the serials the backend holds for the shard are
    those of the PEM writes, and each of them is a member of the
    known-set of the shard in the cache.  For every cache and backend,
    whatever they return, and without that condition: every call of
    [StoreCertificatePEM] comes after a call of [SortedInsert] for that
    serial on the known-set of that shard which returned [true] and no
    error. *)
Theorem known_before_stored (slack : Z) (pem_EncodeToMemory : pem.Block -> list byte)
    (formatRFC3339 : time.Time -> string) (strconv_FormatInt : Z -> string)
    (calls : list FilesystemDatabase.submission) (e0 : string) (issuer0 : x509.Certificate) :
  unexpired slack e0 calls = true ->
  let i0 := Issuer.ID (NewIssuer issuer0) in
  let w := FilesystemDatabase.StoreAll slack pem_EncodeToMemory formatRFC3339
             strconv_FormatInt calls emptyWorld in
  let stored :=
    (MockBackend.ListSerialsForExpirationDateAndIssuer e0 (NewIssuer issuer0) (backend w)).1 in
  stored = pemWrites e0 i0 (trace w)
  /\ (forall s, s ∈ stored -> Serial.ID s ∈ MockRemoteCache.at_ (cache w) (serialsKey e0 i0))
  /\ (forall (C B : Type) (HC : RemoteCache C) (HB : StorageBackend B) (w0 : World C B),
        exists evs,
          trace (FilesystemDatabase.StoreAll slack pem_EncodeToMemory formatRFC3339
                   strconv_FormatInt calls w0)
          = trace w0 ++ evs
          /\ insertedBefore evs).
Proof.
  intros Hun i0 w stored.
  pose proof (inv_StoreAll slack pem_EncodeToMemory formatRFC3339 strconv_FormatInt
                e0 i0 (Issuer_ID_length issuer0) calls [] emptyWorld
                (inv_empty slack e0 i0) Hun) as [_ Hknown _ _ Hwrites Hlisted].
  rewrite app_nil_l in Hknown, Hwrites. fold w in Hknown, Hwrites, Hlisted.
  assert (Es : stored = pemWrites e0 i0 (trace w)) by exact Hlisted.
  split; [exact Es | split].
  - intros s Hs. rewrite Es in Hs. apply Hknown. exists s. split; [| reflexivity].
    apply Hwrites, Hs.
  - intros C B HC HB w0. apply StoreAll_insertedBefore.
Qed.

(** ** A run across the expiry of a known-set *)

(** Stand-ins for [pem.EncodeToMemory], the RFC 3339 time stamp and
    [strconv.FormatInt]; [Store] only passes their results on. *)
Definition blockBytes (b : pem.Block) : list byte := pem.Bytes b.
Definition dayStamp (t : time.Time) : string := time.Format t.
Definition decimalInt (n : Z) : string := time.decimal 1 n.

(** One day, in seconds. *)
Definition oneDay : Z := 86400.

Definition issuerCertR : x509.Certificate :=
  {| x509.Raw := [x30]; x509.SerialNumberBytes := [x01]; x509.RawSubjectPublicKeyInfo := [x30; x59];
     x509.IssuerDN := "CN=root"; x509.NotAfter := time.Unix 1893456000;
     x509.CRLDistributionPoints := [] |}.

(** A certificate expiring on 2019-01-01 with the given serial. *)
Definition leaf (serial : list byte) : x509.Certificate :=
  {| x509.Raw := serial; x509.SerialNumberBytes := serial; x509.RawSubjectPublicKeyInfo := [];
     x509.IssuerDN := "CN=issuer"; x509.NotAfter := time.Unix 1546300800;
     x509.CRLDistributionPoints := [] |}.

Definition submit (now : Z) (serial : list byte) : FilesystemDatabase.submission :=
  {| FilesystemDatabase.at_time := time.Unix now; FilesystemDatabase.cert := leaf serial;
     FilesystemDatabase.issuerCert := issuerCertR; FilesystemDatabase.logURL := "ct.example/log";
     FilesystemDatabase.entryId := 7 |}.

(** 2018-12-28 and 2019-01-03; the known-set of the shard 2019-01-01
    expires on 2019-01-02 with a slack of one day. *)
Definition early : Z := 1546000000.
Definition late : Z := 1546500000.

Definition serialA : Serial.t := NewSerialFromBytes [x0a].
Definition serialB : Serial.t := NewSerialFromBytes [x0b].

(** Three submissions to one shard before its known-set expires, the
    first serial twice. *)
Lemma Store_dedup_witness :
  length (pemWrites "2019-01-01" (Issuer.ID (NewIssuer issuerCertR))
            (trace (FilesystemDatabase.StoreAll oneDay blockBytes dayStamp decimalInt
                      [submit early [x0a]; submit early [x0b]; submit early [x0a]] emptyWorld)))
  = length (remove_dups (submitted "2019-01-01" (Issuer.ID (NewIssuer issuerCertR))
                           [submit early [x0a]; submit early [x0b]; submit early [x0a]])).
Proof.
  refine (proj1 (Store_dedup oneDay blockBytes dayStamp decimalInt
                   [submit early [x0a]; submit early [x0b]; submit early [x0a]]
                   "2019-01-01" issuerCertR _)).
  vm_compute. reflexivity.
Defined.

(** C1, as the claim has it, fails once the known-set has expired.  The
    serial [0a] is stored on 2018-12-28; on 2019-01-03 the serial [0b]
    is stored, and [Exists] in [Accumulate] drops the expired known-set;
    [0a], submitted again, is then reported unknown and written a second
    time: three PEM writes for two distinct serials. *)
Lemma Store_dedup_counterexample :
  pemWrites "2019-01-01" (Issuer.ID (NewIssuer issuerCertR))
    (trace (FilesystemDatabase.StoreAll oneDay blockBytes dayStamp decimalInt
              [submit early [x0a]; submit late [x0b]; submit late [x0a]] emptyWorld))
  = [serialA; serialB; serialA]
  /\ remove_dups (submitted "2019-01-01" (Issuer.ID (NewIssuer issuerCertR))
                    [submit early [x0a]; submit late [x0b]; submit late [x0a]])
     = [serialB; serialA].
Proof. split; vm_compute; reflexivity. Qed.

(** The same three submissions before the expiry. *)
Lemma known_before_stored_witness :
  (MockBackend.ListSerialsForExpirationDateAndIssuer "2019-01-01" (NewIssuer issuerCertR)
     (backend (FilesystemDatabase.StoreAll oneDay blockBytes dayStamp decimalInt
                 [submit early [x0a]; submit early [x0b]; submit early [x0a]] emptyWorld))).1
  = pemWrites "2019-01-01" (Issuer.ID (NewIssuer issuerCertR))
      (trace (FilesystemDatabase.StoreAll oneDay blockBytes dayStamp decimalInt
                [submit early [x0a]; submit early [x0b]; submit early [x0a]] emptyWorld)).
Proof.
  refine (proj1 (known_before_stored oneDay blockBytes dayStamp decimalInt
                   [submit early [x0a]; submit early [x0b]; submit early [x0a]]
                   "2019-01-01" issuerCertR _)).
  vm_compute. reflexivity.
Defined.

(** C2, as the claim has it, fails once the known-set has expired: after
    the first two calls above the backend holds the PEM documents of
    [0a] and [0b] for the shard, and the known-set of the shard is empty. *)
Lemma known_before_stored_counterexample :
  (MockBackend.ListSerialsForExpirationDateAndIssuer "2019-01-01" (NewIssuer issuerCertR)
     (backend (FilesystemDatabase.StoreAll oneDay blockBytes dayStamp decimalInt
                 [submit early [x0a]; submit late [x0b]] emptyWorld))).1
  = [serialA; serialB]
  /\ MockRemoteCache.at_
       (cache (FilesystemDatabase.StoreAll oneDay blockBytes dayStamp decimalInt
                 [submit early [x0a]; submit late [x0b]] emptyWorld))
       (serialsKey "2019-01-01" (Issuer.ID (NewIssuer issuerCertR)))
     = [].
Proof. split; vm_compute; reflexivity. Qed.

(** ** Serials as JSON (types.go) *)

(** A serial written as JSON reads back as itself.  [UnmarshalJSON]
    panics on empty data and on a lone double quote, refuses data that
    does not start and end with a double quote and leaves the receiver
    alone then, and otherwise overwrites the receiver with the bytes
    [hex.DecodeString] returns, also when that fails halfway. *)
Theorem Serial_JSON_round_trip (s s0 : Serial.t) :
  Serial.UnmarshalJSON (fst (Serial.MarshalJSON s)) s0 = Ret (None, s)
  /\ snd (Serial.MarshalJSON s) = None
  /\ Serial.UnmarshalJSON [] s0 = Panic "index out of range"
  /\ Serial.UnmarshalJSON [Serial.quote] s0 = Panic "slice bounds out of range"
  /\ (forall first rest,
        first <> Serial.quote \/ List.last (first :: rest) x00 <> Serial.quote ->
        Serial.UnmarshalJSON (first :: rest) s0
        = Ret (Some (Errorf "Expected surrounding quotes"), s0))
  /\ (forall inner,
        Serial.UnmarshalJSON (Serial.quote :: inner ++ [Serial.quote]) s0
        = Ret (snd (hex.DecodeString (string_of_bytes inner)),
               {| Serial.serial := fst (hex.DecodeString (string_of_bytes inner)) |})).
Proof.
  assert (Hinner : forall inner,
            Serial.UnmarshalJSON (Serial.quote :: inner ++ [Serial.quote]) s0
            = Ret (snd (hex.DecodeString (string_of_bytes inner)),
                   {| Serial.serial := fst (hex.DecodeString (string_of_bytes inner)) |})).
  { intros inner. unfold Serial.UnmarshalJSON.
    change (Serial.quote :: inner ++ [Serial.quote]) with ((Serial.quote :: inner) ++ [Serial.quote]).
    rewrite List.last_last. cbn [Byte.eqb negb orb].
    change (Byte.eqb Serial.quote Serial.quote) with true. cbn [negb orb].
    destruct (inner ++ [Serial.quote]) as [| x r] eqn:E.
    - destruct inner; discriminate E.
    - rewrite <- E, removelast_last.
      destruct (hex.DecodeString (string_of_bytes inner)) as [b err]. reflexivity. }
  split; [| split; [reflexivity | split; [reflexivity | split; [reflexivity | split]]]].
  - unfold Serial.MarshalJSON. cbn [fst]. rewrite Hinner.
    unfold string_of_bytes, bytes_of_string. rewrite string_of_list_byte_of_string.
    pose proof (NewSerialFromHex_HexString s) as H. unfold NewSerialFromHex in H.
    destruct (hex.DecodeString (Serial.HexString s)) as [b [err |]]; [discriminate H |].
    injection H as <-. reflexivity.
  - intros first rest H. unfold Serial.UnmarshalJSON.
    destruct (Byte.eqb first Serial.quote) eqn:E1; cbn [negb orb]; [| reflexivity].
    destruct (Byte.eqb (List.last (first :: rest) x00) Serial.quote) eqn:E2; cbn [negb];
      [| reflexivity].
    apply Byte.byte_dec_bl in E1, E2. tauto.
  - exact Hinner.
Qed.

(** ** Comparing serials (types.go) *)

Lemma Z_of_byte_inj (x y : byte) : Z_of_byte x = Z_of_byte y -> x = y.
Proof. intros E. rewrite <- (byte_of_Z_of_byte x), <- (byte_of_Z_of_byte y), E. reflexivity. Qed.

Lemma Compare_eq (a b : list byte) : bytes.Compare a b = 0 <-> a = b.
Proof.
  revert b. induction a as [| x a IH]; intros [| y b]; cbn [bytes.Compare];
    try (split; [discriminate | discriminate]); [tauto |].
  destruct (Z.ltb_spec (Z_of_byte x) (Z_of_byte y)) as [L | L].
  - split; [discriminate | intros [= -> ->]; lia].
  - destruct (Z.ltb_spec (Z_of_byte y) (Z_of_byte x)) as [L' | L'].
    + split; [discriminate | intros [= -> ->]; lia].
    + assert (x = y) by (apply Z_of_byte_inj; lia). subst y.
      rewrite IH. split; [intros ->; reflexivity | intros [= ->]; reflexivity].
Qed.

Lemma Compare_antisym (a b : list byte) : bytes.Compare b a = - bytes.Compare a b.
Proof.
  revert b. induction a as [| x a IH]; intros [| y b]; cbn [bytes.Compare]; try reflexivity.
  destruct (Z.ltb_spec (Z_of_byte x) (Z_of_byte y)), (Z.ltb_spec (Z_of_byte y) (Z_of_byte x));
    try reflexivity; try lia. apply IH.
Qed.

Lemma Compare_range (a b : list byte) :
  bytes.Compare a b = -1 \/ bytes.Compare a b = 0 \/ bytes.Compare a b = 1.
Proof.
  revert b. induction a as [| x a IH]; intros [| y b]; cbn [bytes.Compare]; auto.
  destruct (_ <? _); [auto |]. destruct (_ <? _); auto.
Qed.

Lemma Compare_trans (a b c : list byte) :
  bytes.Compare a b = -1 -> bytes.Compare b c = -1 -> bytes.Compare a c = -1.
Proof.
  revert b c. induction a as [| x a IH]; intros [| y b] [| z c]; cbn [bytes.Compare];
    try discriminate; try reflexivity.
  destruct (Z.ltb_spec (Z_of_byte x) (Z_of_byte y)) as [L1 | L1];
    destruct (Z.ltb_spec (Z_of_byte y) (Z_of_byte z)) as [L2 | L2];
    destruct (Z.ltb_spec (Z_of_byte x) (Z_of_byte z)) as [L3 | L3];
    try reflexivity; try lia;
    destruct (Z.ltb_spec (Z_of_byte y) (Z_of_byte x)) as [L4 | L4]; try discriminate; try lia;
    destruct (Z.ltb_spec (Z_of_byte z) (Z_of_byte y)) as [L5 | L5]; try discriminate; try lia;
    destruct (Z.ltb_spec (Z_of_byte z) (Z_of_byte x)) as [L6 | L6]; try lia.
  apply IH.
Qed.

(** The value of a big-endian byte string, with the digits read so far. *)
Lemma bigEndian_acc (l : list byte) (acc : Z) :
  fold_left (fun acc b => acc * 256 + Z_of_byte b) l acc
  = acc * 256 ^ Z.of_nat (length l)
    + fold_left (fun acc b => acc * 256 + Z_of_byte b) l 0.
Proof.
  revert acc. induction l as [| x l IH]; intros acc; cbn [fold_left length].
  - cbn. lia.
  - rewrite (IH (acc * 256 + Z_of_byte x)), (IH (0 * 256 + Z_of_byte x)).
    rewrite Nat2Z.inj_succ, Z.pow_succ_r by lia. ring.
Qed.

Lemma bigEndian_range (l : list byte) :
  0 <= fold_left (fun acc b => acc * 256 + Z_of_byte b) l 0 < 256 ^ Z.of_nat (length l).
Proof.
  induction l as [| x l IH]; cbn [fold_left length]; [cbn; lia |].
  rewrite bigEndian_acc, Nat2Z.inj_succ, Z.pow_succ_r by lia.
  pose proof (Z_of_byte_range x). nia.
Qed.

Lemma Compare_bigEndian (a b : list byte) :
  length a = length b ->
  bytes.Compare a b
  = Z.sgn (fold_left (fun acc b => acc * 256 + Z_of_byte b) a 0
           - fold_left (fun acc b => acc * 256 + Z_of_byte b) b 0).
Proof.
  revert b. induction a as [| x a IH]; intros [| y b] Hl; cbn [length] in Hl; try discriminate.
  - reflexivity.
  - injection Hl as Hl. cbn [bytes.Compare fold_left].
    rewrite (bigEndian_acc a), (bigEndian_acc b), <- Hl.
    pose proof (bigEndian_range a) as Ra. pose proof (bigEndian_range b) as Rb.
    rewrite <- Hl in Rb.
    set (va := fold_left _ a 0) in *. set (vb := fold_left _ b 0) in *.
    set (p := 256 ^ Z.of_nat (length a)) in *.
    destruct (Z.ltb_spec (Z_of_byte x) (Z_of_byte y)) as [L | L].
    + symmetry. apply Z.sgn_neg. nia.
    + destruct (Z.ltb_spec (Z_of_byte y) (Z_of_byte x)) as [L' | L'].
      * symmetry. apply Z.sgn_pos. nia.
      * assert (E : Z_of_byte x = Z_of_byte y) by lia. rewrite E, (IH b Hl).
        fold va vb. f_equal. ring.
Qed.

(** [Cmp] is a total order on serials: it is [0] exactly on equal
    serials, antisymmetric, transitive, and one of [-1], [0], [+1].  On
    serials of one length it is the order of the integers [AsBigInt]
    gives; a leading zero byte leaves [AsBigInt] as it is but gives
    another serial for [Cmp]. *)
Theorem Serial_Cmp_order (s o p : Serial.t) :
  (Serial.Cmp s o = 0 <-> s = o)
  /\ Serial.Cmp o s = - Serial.Cmp s o
  /\ (Serial.Cmp s o = -1 \/ Serial.Cmp s o = 0 \/ Serial.Cmp s o = 1)
  /\ (Serial.Cmp s o = -1 -> Serial.Cmp o p = -1 -> Serial.Cmp s p = -1)
  /\ (length (Serial.serial s) = length (Serial.serial o) ->
      Serial.Cmp s o = Z.sgn (Serial.AsBigInt s - Serial.AsBigInt o))
  /\ Serial.AsBigInt (NewSerialFromBytes (x00 :: Serial.serial s)) = Serial.AsBigInt s
  /\ Serial.Cmp (NewSerialFromBytes (x00 :: Serial.serial s)) s <> 0.
Proof.
  unfold Serial.Cmp, Serial.AsBigInt. repeat split.
  - intros E. apply Compare_eq in E. destruct s, o. cbn in E. congruence.
  - intros ->. apply Compare_eq. reflexivity.
  - apply Compare_antisym.
  - apply Compare_range.
  - apply Compare_trans.
  - apply Compare_bigEndian.
  - intros E. apply Compare_eq in E. cbn [NewSerialFromBytes Serial.serial] in E.
    apply (f_equal (@length byte)) in E. cbn [length] in E. lia.
Qed.

(** ** Serials from hexadecimal strings (types.go) *)

Lemma pair_ind {A} (P : list A -> Prop) :
  P [] -> (forall x, P [x]) -> (forall x y l, P l -> P (x :: y :: l)) -> forall l, P l.
Proof.
  intros H0 H1 H2. fix IH 1. intros [| x [| y l]]; [exact H0 | apply H1 | apply H2, IH].
Qed.

Lemma fromHexChar_lower (c : ascii) (a : Z) :
  hex.fromHexChar c = Some a -> 0 <= a < 16 /\ hex.hexAt a = strings.lowerChar c.
Proof.
  assert (Hall : forallb (fun n =>
                    let c := ascii_of_nat n in
                    match hex.fromHexChar c with
                    | Some a => (0 <=? a) && (a <? 16)
                                && Ascii.eqb (hex.hexAt a) (strings.lowerChar c)
                    | None => true
                    end) (seq 0 256) = true) by (vm_compute; reflexivity).
  rewrite forallb_forall in Hall. specialize (Hall (nat_of_ascii c)).
  rewrite ascii_nat_embedding in Hall. cbv zeta in Hall.
  intros E. rewrite E in Hall.
  assert (Hin : In (nat_of_ascii c) (seq 0 256)).
  { apply in_seq. pose proof (nat_ascii_bounded c). lia. }
  specialize (Hall Hin). apply andb_prop in Hall. destruct Hall as [Hr He].
  apply andb_prop in Hr. destruct Hr as [H0 H1]. apply Ascii.eqb_eq in He.
  split; [lia | exact He].
Qed.

Lemma hex_byte (a b : Z) :
  0 <= a < 16 -> 0 <= b < 16 ->
  Z.shiftr (Z_of_byte (byte_of_Z (Z.lor (Z.shiftl a 4) b))) 4 = a
  /\ Z.land (Z_of_byte (byte_of_Z (Z.lor (Z.shiftl a 4) b))) 15 = b.
Proof.
  intros Ha Hb.
  assert (Hall : forallb (fun m => forallb (fun n =>
                    let a := Z.of_nat m in let b := Z.of_nat n in
                    (Z.shiftr (Z_of_byte (byte_of_Z (Z.lor (Z.shiftl a 4) b))) 4 =? a)
                    && (Z.land (Z_of_byte (byte_of_Z (Z.lor (Z.shiftl a 4) b))) 15 =? b))
                  (seq 0 16)) (seq 0 16) = true) by (vm_compute; reflexivity).
  rewrite forallb_forall in Hall. specialize (Hall (Z.to_nat a)).
  rewrite forallb_forall in Hall. specialize (fun H => Hall H (Z.to_nat b)).
  cbv zeta in Hall. rewrite !Z2Nat.id in Hall by lia.
  assert (H1 : In (Z.to_nat a) (seq 0 16)) by (apply in_seq; lia).
  assert (H2 : In (Z.to_nat b) (seq 0 16)) by (apply in_seq; lia).
  specialize (Hall H1 H2). apply andb_prop in Hall. lia.
Qed.

Lemma Decode_lower (l : list ascii) (bs : list byte) :
  hex.Decode l = (bs, None) -> hex.Encode bs = map strings.lowerChar l.
Proof.
  revert bs. induction l as [| c | p q l IH] using pair_ind; intros bs; cbn [hex.Decode].
  - intros [= <-]. reflexivity.
  - destruct (hex.fromHexChar c); discriminate.
  - destruct (hex.fromHexChar p) as [a |] eqn:Ep; [| discriminate].
    destruct (hex.fromHexChar q) as [b |] eqn:Eq; [| discriminate].
    destruct (hex.Decode l) as [bs' e] eqn:Ed. intros [= <- ->].
    destruct (fromHexChar_lower _ _ Ep) as [Ra Ha]. destruct (fromHexChar_lower _ _ Eq) as [Rb Hb].
    destruct (hex_byte a b Ra Rb) as [H1 H2].
    cbn [hex.Encode map]. rewrite H1, H2, Ha, Hb, (IH bs' eq_refl). reflexivity.
Qed.

Lemma Decode_ok (l : list ascii) :
  (exists bs, hex.Decode l = (bs, None))
  <-> Nat.even (length l) = true /\ Forall (fun c => hex.fromHexChar c <> None) l.
Proof.
  induction l as [| c | p q l IH] using pair_ind; cbn [hex.Decode length].
  - split; [intros _; split; [reflexivity | constructor] | eauto].
  - split; [| intros [H _]; discriminate H].
    intros [bs H]. destruct (hex.fromHexChar c); discriminate H.
  - change (Nat.even (S (S (length l)))) with (Nat.even (length l)). split.
    + intros [bs H].
      destruct (hex.fromHexChar p) as [a |] eqn:Ep; [| discriminate].
      destruct (hex.fromHexChar q) as [b |] eqn:Eq; [| discriminate].
      destruct (hex.Decode l) as [bs' e] eqn:Ed. injection H as _ ->.
      destruct (proj1 IH (ex_intro _ bs' eq_refl)) as [He Hf].
      split; [exact He |]. repeat constructor; congruence.
    + intros [He Hf]. inversion Hf as [| ? ? Hp Hf']; subst.
      inversion Hf' as [| ? ? Hq Hf'']; subst.
      destruct (proj2 IH (conj He Hf'')) as [bs' Hd].
      destruct (hex.fromHexChar p) as [a |]; [| congruence].
      destruct (hex.fromHexChar q) as [b |]; [| congruence].
      rewrite Hd. eauto.
Qed.

Lemma ToLower_map (s : string) :
  strings.ToLower s = string_of_list_ascii (map strings.lowerChar (list_ascii_of_string s)).
Proof. induction s as [| c s IH]; [reflexivity |]. cbn. rewrite IH. reflexivity. Qed.

(** [NewSerialFromHex] returns a serial exactly on the strings of an
    even number of hexadecimal digits, of either case, and panics on
    every other string; the serial prints ([HexString]) as the string in
    lower case. *)
Theorem NewSerialFromHex_canonical (str : string) :
  (forall s, NewSerialFromHex str = Ret s -> Serial.HexString s = strings.ToLower str)
  /\ ((exists s, NewSerialFromHex str = Ret s)
      <-> Nat.even (String.length str) = true
          /\ Forall (fun c => hex.fromHexChar c <> None) (list_ascii_of_string str))
  /\ ((forall s, NewSerialFromHex str <> Ret s) -> NewSerialFromHex str = Panic "encoding/hex").
Proof.
  unfold NewSerialFromHex, hex.DecodeString. rewrite <- length_list_ascii_of_string.
  pose proof (Decode_ok (list_ascii_of_string str)) as Hok.
  pose proof (Decode_lower (list_ascii_of_string str)) as Hlow.
  destruct (hex.Decode (list_ascii_of_string str)) as [bs [err |]].
  - split; [discriminate |]. split; [| reflexivity].
    rewrite <- Hok. split; intros [x H]; discriminate H.
  - split; [| split].
    + intros s [= <-]. unfold Serial.HexString, hex.EncodeToString. cbn [Serial.serial].
      rewrite (Hlow bs eq_refl), ToLower_map. reflexivity.
    + rewrite <- Hok. split; eauto.
    + intros H. destruct (H _ eq_refl).
Qed.

(** ** Expiry and removal in the in-process cache *)

Lemma CleanupExpiry_unexpired now ec key :
  MockRemoteCache.expired now (MockRemoteCache.CleanupExpiry now ec) key = false.
Proof.
  unfold MockRemoteCache.expired, MockRemoteCache.CleanupExpiry.
  cbn [MockRemoteCache.Expirations].
  destruct (filter _ (MockRemoteCache.Expirations ec) !! key) as [t |] eqn:E; [| reflexivity].
  apply map_lookup_filter_Some in E. destruct E as [_ E]. exact E.
Qed.

Lemma CleanupExpiry_idem now ec :
  MockRemoteCache.CleanupExpiry now (MockRemoteCache.CleanupExpiry now ec)
  = MockRemoteCache.CleanupExpiry now ec.
Proof.
  set (c := MockRemoteCache.CleanupExpiry now ec).
  assert (HD : filter (fun kv : string * list string => MockRemoteCache.expired now c kv.1 = false)
                 (MockRemoteCache.Data c) = MockRemoteCache.Data c).
  { apply map_filter_id. intros k l _. apply CleanupExpiry_unexpired. }
  assert (HE : filter (fun kv : string * time.Time => time.Before kv.2 now = false)
                 (MockRemoteCache.Expirations c) = MockRemoteCache.Expirations c).
  { apply map_filter_id. intros k t E. subst c.
    cbn [MockRemoteCache.CleanupExpiry MockRemoteCache.Expirations] in E.
    apply map_lookup_filter_Some in E. destruct E as [_ E]. exact E. }
  unfold MockRemoteCache.CleanupExpiry at 1. fold c. rewrite HD, HE. destruct c. reflexivity.
Qed.

Lemma found_nil entry : MockRemoteCache.found entry [] = false.
Proof. reflexivity. Qed.

Lemma found_length entry l : MockRemoteCache.found entry l = true -> l <> [].
Proof. intros H ->. discriminate H. Qed.

(** [SetRemove] removes nothing: it reports what [SetContains] reports
    and leaves the cache as the clean-up of expired keys leaves it, so an
    entry it reports as removed is still contained and listed. *)
Theorem SetRemove_removes_nothing (now : time.Time) (key entry : string)
    (ec : MockRemoteCache.t) :
  let r := MockRemoteCache.SetRemove now key entry ec in
  r.2 = MockRemoteCache.CleanupExpiry now ec
  /\ r.1 = (MockRemoteCache.SetContains now key entry ec).1
  /\ MockRemoteCache.SetContains now key entry r.2 = MockRemoteCache.SetContains now key entry ec
  /\ MockRemoteCache.SetList now key r.2 = MockRemoteCache.SetList now key ec.
Proof.
  intros r.
  assert (E2 : r.2 = MockRemoteCache.CleanupExpiry now ec).
  { subst r. unfold MockRemoteCache.SetRemove.
    set (c := MockRemoteCache.CleanupExpiry now ec).
    destruct (MockRemoteCache.found entry (MockRemoteCache.at_ c key)) eqn:Ef; [| reflexivity].
    cbn [snd]. rewrite take_drop.
    apply found_length in Ef. unfold MockRemoteCache.at_ in *.
    destruct (MockRemoteCache.Data c !! key) as [l |] eqn:El; [| contradiction Ef; reflexivity].
    cbn [default from_option]. unfold id. rewrite insert_id by exact El.
    destruct c. reflexivity. }
  split; [exact E2 |]. split.
  - subst r. unfold MockRemoteCache.SetRemove, MockRemoteCache.SetContains.
    destruct (MockRemoteCache.found entry _); reflexivity.
  - rewrite E2. unfold MockRemoteCache.SetContains, MockRemoteCache.SetList.
    rewrite CleanupExpiry_idem. split; reflexivity.
Qed.

(** [ExpireAt] never fails and leaves the data alone.  Once the time
    set lies before the clock, [Exists], [SetList] and [SetContains] find
    the key gone, and its expiration with it; until then they find what
    was there, and the expiration stays. *)
Theorem ExpireAt_expires (key : string) (t now : time.Time) (ec : MockRemoteCache.t) :
  let ec' := (MockRemoteCache.ExpireAt key t ec).2 in
  (MockRemoteCache.ExpireAt key t ec).1 = None
  /\ MockRemoteCache.Data ec' = MockRemoteCache.Data ec
  /\ (time.Before t now = true ->
      (MockRemoteCache.Exists now key ec').1 = (false, None)
      /\ (MockRemoteCache.SetList now key ec').1 = ([], None)
      /\ (forall entry, (MockRemoteCache.SetContains now key entry ec').1 = (false, None))
      /\ MockRemoteCache.Expirations (MockRemoteCache.Exists now key ec').2 !! key = None)
  /\ (time.Before t now = false ->
      (MockRemoteCache.Exists now key ec').1
      = (bool_decide (is_Some (MockRemoteCache.Data ec !! key)), None)
      /\ (MockRemoteCache.SetList now key ec').1 = (MockRemoteCache.at_ ec key, None)
      /\ MockRemoteCache.Expirations (MockRemoteCache.Exists now key ec').2 !! key = Some t).
Proof.
  intros ec'. split; [reflexivity |]. split; [reflexivity |].
  assert (Hexp : MockRemoteCache.expired now ec' key = time.Before t now).
  { unfold MockRemoteCache.expired. subst ec'. cbn. rewrite lookup_insert_eq. reflexivity. }
  assert (HE : MockRemoteCache.Expirations ec' !! key = Some t).
  { subst ec'. cbn. apply lookup_insert_eq. }
  split; intros Hb.
  - assert (HD : MockRemoteCache.Data (MockRemoteCache.CleanupExpiry now ec') !! key = None).
    { unfold MockRemoteCache.CleanupExpiry. cbn [MockRemoteCache.Data].
      apply map_lookup_filter_None. right. intros l _. cbn [fst]. rewrite Hexp, Hb. discriminate. }
    unfold MockRemoteCache.Exists, MockRemoteCache.SetList, MockRemoteCache.SetContains,
      MockRemoteCache.at_. cbn [fst snd]. rewrite HD. cbn [default from_option].
    split; [reflexivity |]. split; [reflexivity |]. split; [reflexivity |].
    unfold MockRemoteCache.CleanupExpiry. cbn [MockRemoteCache.Expirations].
    apply map_lookup_filter_None. right. intros t' Ht'. rewrite HE in Ht'.
    injection Ht' as <-. cbn [snd]. rewrite Hb. discriminate.
  - assert (HD : MockRemoteCache.Data (MockRemoteCache.CleanupExpiry now ec') !! key
                 = MockRemoteCache.Data ec !! key).
    { unfold MockRemoteCache.CleanupExpiry. cbn [MockRemoteCache.Data].
      rewrite map_lookup_filter. change (MockRemoteCache.Data ec') with (MockRemoteCache.Data ec).
      destruct (MockRemoteCache.Data ec !! key) as [l |]; [| reflexivity].
      cbn [fst mbind option_bind]. rewrite option_guard_True by (rewrite Hexp; exact Hb). reflexivity. }
    unfold MockRemoteCache.Exists, MockRemoteCache.SetList, MockRemoteCache.at_.
    cbn [fst snd]. rewrite HD. split; [reflexivity |]. split; [reflexivity |].
    unfold MockRemoteCache.CleanupExpiry. cbn [MockRemoteCache.Expirations].
    apply map_lookup_filter_Some. split; [exact HE | exact Hb].
Qed.

(** ** The in-memory backend: certificates and shards (mockbackend.go) *)

(** The in-memory backend returns the bytes last stored for a
    certificate, fails with "Couldn't find" for one never stored, lists a
    serial once for every call that stored it, leaves the issuers of the
    dates alone, and streams the listed serials on a channel it does not
    close. *)
Theorem Mock_PEM_store_load (serial : Serial.t) (expDate : string) (issuer : Issuer.t)
    (b b' : list byte) (db : MockBackend.t) :
  let db1 := (MockBackend.StoreCertificatePEM serial expDate issuer b db).2 in
  let db2 := (MockBackend.StoreCertificatePEM serial expDate issuer b' db1).2 in
  (MockBackend.StoreCertificatePEM serial expDate issuer b db).1 = None
  /\ MockBackend.LoadCertificatePEM serial expDate issuer db1 = (b, None)
  /\ MockBackend.LoadCertificatePEM serial expDate issuer db2 = (b', None)
  /\ (MockBackend.ListSerialsForExpirationDateAndIssuer expDate issuer db2).1
     = (MockBackend.ListSerialsForExpirationDateAndIssuer expDate issuer db).1
       ++ [serial; serial]
  /\ MockBackend.LoadCertificatePEM serial expDate issuer MockBackend.New
     = ([], Some (Errorf "Couldn't find"))
  /\ MockBackend.expDateToIssuer db2 = MockBackend.expDateToIssuer db
  /\ MockBackend.StreamSerialsForExpirationDateAndIssuer expDate issuer db2
     = (Some {| sent := (MockBackend.ListSerialsForExpirationDateAndIssuer expDate issuer db).1
                        ++ [serial; serial];
                closed := false |}, None).
Proof.
  intros db1 db2. subst db1 db2.
  unfold MockBackend.StreamSerialsForExpirationDateAndIssuer,
    MockBackend.StoreCertificatePEM, MockBackend.LoadCertificatePEM,
    MockBackend.ListSerialsForExpirationDateAndIssuer.
  cbn [fst snd MockBackend.store MockBackend.expDateIssuerIDToSerials MockBackend.expDateToIssuer
       MockBackend.New].
  rewrite !lookup_insert_eq, lookup_empty. cbn [default from_option]. unfold id.
  rewrite <- app_assoc. repeat split.
Qed.

(** [sort.Search] only reads its predicate below [n]. *)
Lemma searchLoop_ext (f g : nat -> bool) (n : nat) :
  (forall k, (k < n)%nat -> f k = g k) ->
  forall fuel i j, (j <= n)%nat -> sort.searchLoop fuel f i j = sort.searchLoop fuel g i j.
Proof.
  intros Hfg. induction fuel as [| fuel IH]; intros i j Hj; cbn [sort.searchLoop]; [reflexivity |].
  destruct (Nat.ltb_spec i j) as [Hij | Hij]; [| reflexivity].
  assert (Hh : ((i + j) / 2 < j)%nat) by (apply Nat.Div0.div_lt_upper_bound; lia).
  rewrite <- Hfg by lia. destruct (f ((i + j) / 2)%nat); apply IH; lia.
Qed.

Lemma Search_ext (f g : nat -> bool) (n : nat) :
  (forall k, (k < n)%nat -> f k = g k) -> sort.Search n f = sort.Search n g.
Proof. intros H. unfold sort.Search. apply (searchLoop_ext f g n H). lia. Qed.

(** [AllocateExpDateAndIssuer], on the IDs of the issuers of the date. *)
Lemma Mock_Allocate_ids (expDate : string) (issuer : Issuer.t) (db : MockBackend.t) :
  let ids e d := map Issuer.ID (default [] (MockBackend.expDateToIssuer d !! e)) in
  let l := ids expDate db in
  let idx := MockRemoteCache.position (Issuer.ID issuer) l in
  let db' := (MockBackend.AllocateExpDateAndIssuer expDate issuer db).2 in
  ids expDate db'
  = (if MockRemoteCache.found (Issuer.ID issuer) l then l
     else take idx l ++ Issuer.ID issuer :: drop idx l)
  /\ (forall e, e <> expDate -> MockBackend.expDateToIssuer db' !! e
                                = MockBackend.expDateToIssuer db !! e)
  /\ (MockRemoteCache.found (Issuer.ID issuer) l = false ->
      MockBackend.expDateToIssuer db' !! expDate <> None).
Proof.
  intros ids l idx db'. subst ids l idx db'. cbv beta.
  unfold MockBackend.AllocateExpDateAndIssuer.
  set (issuers := default [] (MockBackend.expDateToIssuer db !! expDate)).
  assert (Ei : sort.Search (length issuers)
                 (fun i => strings.le (Issuer.ID issuer)
                             (Issuer.ID (nth i issuers (NewIssuerFromString ""))))
               = MockRemoteCache.position (Issuer.ID issuer) (map Issuer.ID issuers)).
  { unfold MockRemoteCache.position. rewrite length_map. apply Search_ext. intros k Hk.
    rewrite (nth_indep _ ""%string (Issuer.ID (NewIssuerFromString ""))) by (rewrite length_map; exact Hk).
    rewrite map_nth. reflexivity. }
  rewrite Ei. set (idx := MockRemoteCache.position (Issuer.ID issuer) (map Issuer.ID issuers)).
  assert (Ef : (idx <? length issuers)%nat
               && String.eqb (Issuer.ID (nth idx issuers (NewIssuerFromString ""))) (Issuer.ID issuer)
               = MockRemoteCache.found (Issuer.ID issuer) (map Issuer.ID issuers)).
  { unfold MockRemoteCache.found. fold idx. rewrite length_map.
    destruct (Nat.ltb_spec idx (length issuers)) as [Hlt | Hlt]; [| reflexivity].
    cbn [andb]. rewrite String.eqb_sym.
    rewrite (nth_indep _ ""%string (Issuer.ID (NewIssuerFromString ""))) by (rewrite length_map; exact Hlt).
    rewrite map_nth. reflexivity. }
  rewrite Ef. destruct (MockRemoteCache.found _ _) eqn:Efound; cbn [snd MockBackend.expDateToIssuer].
  - repeat split; auto; discriminate.
  - rewrite lookup_insert_eq. cbn [default from_option]. unfold id.
    rewrite map_app, map_cons, <- firstn_map, <- skipn_map.
    split; [reflexivity |]. split; [| discriminate].
    intros e He. rewrite lookup_insert_ne by congruence. reflexivity.
Qed.

Definition allocateAll (allocs : list (string * Issuer.t)) (db : MockBackend.t) : MockBackend.t :=
  fold_left (fun d a => (MockBackend.AllocateExpDateAndIssuer a.1 a.2 d).2) allocs db.

(** After any sequence of [AllocateExpDateAndIssuer] on an empty
    in-memory backend, the issuers listed for a date are strictly sorted
    by ID and are those allocated for it, a date is known exactly when an
    issuer was allocated for it, and allocating an issuer a second time
    changes nothing. *)
Theorem Mock_Allocate_sorted (allocs : list (string * Issuer.t)) (expDate : string) :
  let db := allocateAll allocs MockBackend.New in
  let issuers := (MockBackend.ListIssuersForExpirationDate expDate db).1 in
  StronglySorted before (map Issuer.ID issuers)
  /\ (forall x, x ∈ map Issuer.ID issuers <-> exists a, a ∈ allocs /\ a.1 = expDate /\ x = Issuer.ID a.2)
  /\ (is_Some (MockBackend.expDateToIssuer db !! expDate) <-> exists a, a ∈ allocs /\ a.1 = expDate)
  /\ (forall issuer,
        (MockBackend.ListIssuersForExpirationDate expDate
           (MockBackend.AllocateExpDateAndIssuer expDate issuer
              (MockBackend.AllocateExpDateAndIssuer expDate issuer db).2).2).1
        = (MockBackend.ListIssuersForExpirationDate expDate
             (MockBackend.AllocateExpDateAndIssuer expDate issuer db).2).1).
Proof.
  intros db issuers. subst issuers. unfold MockBackend.ListIssuersForExpirationDate. cbn [fst].
  assert (Hinv : forall done d,
            (forall e, StronglySorted before
                         (map Issuer.ID (default [] (MockBackend.expDateToIssuer d !! e)))
                       /\ (forall x, x ∈ map Issuer.ID (default [] (MockBackend.expDateToIssuer d !! e))
                                     <-> exists a, a ∈ done /\ a.1 = e /\ x = Issuer.ID a.2)
                       /\ (is_Some (MockBackend.expDateToIssuer d !! e)
                           <-> exists a, a ∈ done /\ a.1 = e)) ->
            forall rest e,
              StronglySorted before
                (map Issuer.ID (default [] (MockBackend.expDateToIssuer (allocateAll rest d) !! e)))
              /\ (forall x, x ∈ map Issuer.ID
                                  (default [] (MockBackend.expDateToIssuer (allocateAll rest d) !! e))
                            <-> exists a, a ∈ done ++ rest /\ a.1 = e /\ x = Issuer.ID a.2)
              /\ (is_Some (MockBackend.expDateToIssuer (allocateAll rest d) !! e)
                  <-> exists a, a ∈ done ++ rest /\ a.1 = e)).
  { intros done d Hd rest. revert done d Hd.
    induction rest as [| [e1 i1] rest IH]; intros done d Hd e.
    - rewrite app_nil_r. apply Hd.
    - cbn [allocateAll fold_left fst snd].
      change (fold_left _ rest ?x) with (allocateAll rest x).
      rewrite (cons_middle (e1, i1) done rest), app_assoc. apply IH. clear IH e. intros e.
      destruct (Mock_Allocate_ids e1 i1 d) as (Hids & Hother & Hsome). cbv zeta in *.
      destruct (Hd e1) as (Hs1 & Hm1 & Hk1).
      destruct (decide (e = e1)) as [-> | Hne].
      + rewrite Hids.
        destruct (MockRemoteCache.found (Issuer.ID i1) _) eqn:Ef.
        * apply found_sorted in Ef; [| exact Hs1].
          split; [exact Hs1 |]. split.
          -- intros x. rewrite Hm1. split.
             ++ intros (a & Ha & E1 & E2). exists a. rewrite elem_of_app. auto.
             ++ intros (a & Ha & E1 & E2). apply elem_of_app in Ha. destruct Ha as [Ha | Ha].
                ** exists a. auto.
                ** apply list_elem_of_singleton in Ha. subst a. cbn [snd] in E2. subst x.
                   apply Hm1. exact Ef.
          -- split.
             ++ intros _. exists (e1, i1). split; [apply elem_of_app; right; left | reflexivity].
             ++ intros _. unfold MockBackend.AllocateExpDateAndIssuer.
                apply Hm1 in Ef. destruct Ef as (a & Ha & E1 & _). 
                assert (Hk : is_Some (MockBackend.expDateToIssuer d !! e1)) by (apply Hk1; eauto).
                destruct (_ && _); cbn [snd MockBackend.expDateToIssuer]; [exact Hk |].
                rewrite lookup_insert_eq. eauto.
        * assert (Hnot : Issuer.ID i1 ∉ map Issuer.ID (default [] (MockBackend.expDateToIssuer d !! e1))).
          { intros Hin. apply found_sorted in Hin; [congruence | exact Hs1]. }
          destruct (insert_sorted _ _ Hs1 Hnot) as [Hs' Hm'].
          split; [exact Hs' |]. split.
          -- intros x. rewrite Hm', Hm1. split.
             ++ intros [-> | (a & Ha & E1 & E2)].
                ** exists (e1, i1). split; [apply elem_of_app; right; left | auto].
                ** exists a. rewrite elem_of_app. auto.
             ++ intros (a & Ha & E1 & E2). apply elem_of_app in Ha. destruct Ha as [Ha | Ha].
                ** right. exists a. auto.
                ** apply list_elem_of_singleton in Ha. subst a. left. exact E2.
          -- split.
             ++ intros _. exists (e1, i1). split; [apply elem_of_app; right; left | reflexivity].
             ++ intros _. specialize (Hsome eq_refl).
                destruct (MockBackend.expDateToIssuer (MockBackend.AllocateExpDateAndIssuer e1 i1 d).2 !! e1);
                  [eauto | exfalso; apply Hsome; reflexivity].
      + rewrite (Hother e Hne). destruct (Hd e) as (Hs & Hm & Hk).
        split; [exact Hs |]. split.
        * intros x. rewrite Hm. split.
          -- intros (a & Ha & E1 & E2). exists a. rewrite elem_of_app. auto.
          -- intros (a & Ha & E1 & E2). apply elem_of_app in Ha. destruct Ha as [Ha | Ha].
             ++ exists a. auto.
             ++ apply list_elem_of_singleton in Ha. subst a. cbn [fst] in E1. congruence.
        * rewrite Hk. split.
          -- intros (a & Ha & E1). exists a. rewrite elem_of_app. auto.
          -- intros (a & Ha & E1). apply elem_of_app in Ha. destruct Ha as [Ha | Ha].
             ++ exists a. auto.
             ++ apply list_elem_of_singleton in Ha. subst a. cbn [fst] in E1. congruence. }
  assert (H0 : forall e,
            StronglySorted before
              (map Issuer.ID (default [] (MockBackend.expDateToIssuer MockBackend.New !! e)))
            /\ (forall x, x ∈ map Issuer.ID (default [] (MockBackend.expDateToIssuer MockBackend.New !! e))
                          <-> exists a, a ∈ [] /\ a.1 = e /\ x = Issuer.ID a.2)
            /\ (is_Some (MockBackend.expDateToIssuer MockBackend.New !! e)
                <-> exists a : string * Issuer.t, a ∈ [] /\ a.1 = e)).
  { intros e. cbn. rewrite lookup_empty. cbn. split; [constructor |]. split.
    - intros x. split; [intros Hx; inversion Hx | intros (a & Ha & _); inversion Ha].
    - split; [intros [x Hx]; discriminate Hx | intros (a & Ha & _); inversion Ha]. }
  destruct (Hinv [] MockBackend.New H0 allocs expDate) as (Hs & Hm & Hk).
  rewrite app_nil_l in Hm, Hk. fold db in Hs, Hm, Hk.
  split; [exact Hs |]. split; [exact Hm |]. split; [exact Hk |].
  intros issuer.
  destruct (Hinv [] MockBackend.New H0 (allocs ++ [(expDate, issuer)]) expDate) as (Hs1 & Hm1 & _).
  unfold allocateAll in Hs1, Hm1. rewrite fold_left_app in Hs1, Hm1. cbn [fold_left fst snd] in Hs1, Hm1.
  fold (allocateAll allocs MockBackend.New) in Hs1, Hm1. fold db in Hs1, Hm1.
  set (db1 := (MockBackend.AllocateExpDateAndIssuer expDate issuer db).2) in *.
  unfold MockBackend.AllocateExpDateAndIssuer at 1.
  destruct (Mock_Allocate_ids expDate issuer db1) as (Hids & _ & _). cbv zeta in Hids.
  assert (Ef : MockRemoteCache.found (Issuer.ID issuer)
                 (map Issuer.ID (default [] (MockBackend.expDateToIssuer db1 !! expDate))) = true).
  { apply found_sorted; [exact Hs1 |]. apply Hm1. exists (expDate, issuer).
    split; [apply elem_of_app; right; apply elem_of_app; right; left | auto]. }
  revert Hids. rewrite Ef. unfold MockBackend.AllocateExpDateAndIssuer at 1.
  destruct (_ && _) eqn:Ec; cbn [snd MockBackend.expDateToIssuer]; [reflexivity |].
  rewrite lookup_insert_eq. cbn [default from_option]. unfold id.
  intros Hids. exfalso. apply (f_equal (@length string)) in Hids.
  rewrite !length_map, length_app in Hids. cbn [length] in Hids.
  rewrite length_take, length_drop in Hids. lia.
Qed.

(** ** The file-backed issuer metadata (storage/issuermetadata.go) *)

(** The distribution points [Accumulate] hands to [addCRL]. *)
Fixpoint added (dps : list string) : list string :=
  match dps with
  | [] => []
  | dp :: dps' =>
      match url.Parse dp with
      | (_, Some _) => added dps'
      | (None, None) => added dps'
      | (Some u, None) =>
          if String.eqb (url.Scheme u) "http" || String.eqb (url.Scheme u) "https"
          then dp :: added dps'
          else if String.eqb (url.Scheme u) "ldap" || String.eqb (url.Scheme u) "ldaps"
          then []
          else added dps'
      end
  end.

Lemma accumulate_added (dps : list string) (im : IssuerMetadataFile.t) :
  IssuerMetadataFile.accumulate dps im
  = fold_left (fun im dp => IssuerMetadataFile.addCRL dp im) (added dps) im.
Proof.
  revert im. induction dps as [| dp dps IH]; intros im; cbn [IssuerMetadataFile.accumulate added];
    [reflexivity |].
  destruct (url.Parse dp) as [[u |] [err |]]; try apply IH.
  destruct (_ || _); [apply IH |]. destruct (_ || _); [reflexivity | apply IH].
Qed.

Lemma added_incl (dps : list string) : forall x, x ∈ added dps -> x ∈ dps.
Proof.
  induction dps as [| dp dps IH]; intros x; cbn [added]; [auto |].
  destruct (url.Parse dp) as [[u |] [err |]]; try (intros H; right; apply IH, H).
  destruct (_ || _).
  - intros H. apply elem_of_cons in H. destruct H as [-> | H]; [left | right; apply IH, H].
  - destruct (_ || _); [intros H; inversion H | intros H; right; apply IH, H].
Qed.

Lemma addCRL_sorted (x : string) (im : IssuerMetadataFile.t) :
  StronglySorted before (IssuerMetadataFile.Crls (IssuerMetadataFile.meta im)) ->
  StronglySorted before
    (IssuerMetadataFile.Crls (IssuerMetadataFile.meta (IssuerMetadataFile.addCRL x im)))
  /\ (forall y, y ∈ IssuerMetadataFile.Crls (IssuerMetadataFile.meta (IssuerMetadataFile.addCRL x im))
                <-> y = x \/ y ∈ IssuerMetadataFile.Crls (IssuerMetadataFile.meta im))
  /\ IssuerMetadataFile.filePath (IssuerMetadataFile.addCRL x im) = IssuerMetadataFile.filePath im
  /\ (x ∈ IssuerMetadataFile.Crls (IssuerMetadataFile.meta im) -> IssuerMetadataFile.addCRL x im = im).
Proof.
  intros Hs. unfold IssuerMetadataFile.addCRL.
  set (crls := IssuerMetadataFile.Crls (IssuerMetadataFile.meta im)) in *.
  change (sort.Search (length crls) (fun i => strings.le x (nth i crls "")))
    with (MockRemoteCache.position x crls).
  change ((MockRemoteCache.position x crls <? length crls)%nat
          && String.eqb x (nth (MockRemoteCache.position x crls) crls ""))
    with (MockRemoteCache.found x crls).
  pose proof (found_sorted x crls Hs) as Hf.
  destruct (MockRemoteCache.found x crls) eqn:Ef.
  - fold crls. assert (Hin : x ∈ crls) by (apply Hf; reflexivity).
    repeat split; auto. intros [-> | H]; assumption.
  - assert (Hnot : x ∉ crls) by (intros Hin; apply Hf in Hin; discriminate Hin).
    destruct (insert_sorted x crls Hs Hnot) as [Hs' Hm']. cbn [IssuerMetadataFile.Crls
      IssuerMetadataFile.meta IssuerMetadataFile.filePath].
    repeat split; auto; try apply Hm'. intros Hin. contradiction.
Qed.

Lemma addCRLs_sorted (xs : list string) : forall (im : IssuerMetadataFile.t),
  StronglySorted before (IssuerMetadataFile.Crls (IssuerMetadataFile.meta im)) ->
  let im' := fold_left (fun im dp => IssuerMetadataFile.addCRL dp im) xs im in
  StronglySorted before (IssuerMetadataFile.Crls (IssuerMetadataFile.meta im'))
  /\ (forall y, y ∈ IssuerMetadataFile.Crls (IssuerMetadataFile.meta im')
                <-> y ∈ xs \/ y ∈ IssuerMetadataFile.Crls (IssuerMetadataFile.meta im))
  /\ IssuerMetadataFile.filePath im' = IssuerMetadataFile.filePath im
  /\ ((forall y, y ∈ xs -> y ∈ IssuerMetadataFile.Crls (IssuerMetadataFile.meta im)) -> im' = im).
Proof.
  induction xs as [| x xs IH]; intros im Hs; cbn [fold_left].
  - repeat split; auto. intros [H | H]; [inversion H | exact H].
  - destruct (addCRL_sorted x im Hs) as (Hs1 & Hm1 & Hp1 & Hn1).
    destruct (IH _ Hs1) as (Hs2 & Hm2 & Hp2 & Hn2). cbv zeta in *.
    split; [exact Hs2 |]. split; [| split; [congruence |]].
    + intros y. rewrite Hm2, Hm1, elem_of_cons. tauto.
    + intros Hall. rewrite Hn1 in * by (apply Hall; left).
      apply Hn2. intros y Hy. apply Hall. right. exact Hy.
Qed.

(** [Accumulate] of the file-backed metadata tolerates duplicates: on a
    strictly sorted list of CRLs it keeps the list strictly sorted, keeps
    what was there, adds only distribution points of the certificate,
    and accumulating the same certificate again changes nothing. *)
Theorem IssuerMetadataFile_Accumulate_duplicates (aCert : x509.Certificate)
    (im : IssuerMetadataFile.t) :
  StronglySorted before (IssuerMetadataFile.Crls (IssuerMetadataFile.meta im)) ->
  let im' := IssuerMetadataFile.Accumulate aCert im in
  StronglySorted before (IssuerMetadataFile.Crls (IssuerMetadataFile.meta im'))
  /\ (forall y, y ∈ IssuerMetadataFile.Crls (IssuerMetadataFile.meta im)
                -> y ∈ IssuerMetadataFile.Crls (IssuerMetadataFile.meta im'))
  /\ (forall y, y ∈ IssuerMetadataFile.Crls (IssuerMetadataFile.meta im')
                -> y ∈ IssuerMetadataFile.Crls (IssuerMetadataFile.meta im)
                   \/ y ∈ x509.CRLDistributionPoints aCert)
  /\ IssuerMetadataFile.Accumulate aCert im' = im'
  /\ IssuerMetadataFile.filePath im' = IssuerMetadataFile.filePath im.
Proof.
  intros Hs im'. subst im'. unfold IssuerMetadataFile.Accumulate.
  rewrite !accumulate_added.
  destruct (addCRLs_sorted (added (x509.CRLDistributionPoints aCert)) im Hs)
    as (Hs1 & Hm1 & Hp1 & _). cbv zeta in *.
  split; [exact Hs1 |]. split; [intros y Hy; apply Hm1; auto |].
  split; [intros y Hy; apply Hm1 in Hy; destruct Hy as [Hy | Hy]; [right; apply added_incl, Hy | auto] |].
  split; [| exact Hp1].
  apply (addCRLs_sorted (added (x509.CRLDistributionPoints aCert)) _ Hs1).
  intros y Hy. apply Hm1. left. exact Hy.
Qed.

Lemma IssuerMetadataFile_Accumulate_duplicates_witness :
  IssuerMetadataFile.Accumulate certE3
    (IssuerMetadataFile.Accumulate certE3 (IssuerMetadataFile.New "meta"))
  = IssuerMetadataFile.Accumulate certE3 (IssuerMetadataFile.New "meta").
Proof.
  refine (proj1 (proj2 (proj2 (proj2
            (IssuerMetadataFile_Accumulate_duplicates certE3 (IssuerMetadataFile.New "meta") _))))).
  constructor.
Defined.

(** ** Loading and listing certificates (firestorebackend.go) *)

(** After a write that succeeded, [LoadCertificatePEM] returns the
    bytes written when the document was not there before; a later write
    to the same document does not change what is loaded (the first bytes
    stay); and an error of the server is returned with no bytes. *)
Theorem Firestore_PEM_store_load (serial : Serial.t) (expDate : string) (issuer : Issuer.t)
    (b b' : list byte) (db db1 : FirestoreBackend.t) :
  FirestoreBackend.StoreCertificatePEM None serial expDate issuer b db = (Ret None, db1) ->
  (firestore.documents (FirestoreBackend.client db)
     !! filepath.Join ["ct"%string; expDate; "issuer"%string; Issuer.ID issuer;
                       "certs"%string; Serial.ID serial] = None ->
   FirestoreBackend.LoadCertificatePEM None serial expDate issuer db1 = Ret (b, None))
  /\ (forall db2,
        FirestoreBackend.StoreCertificatePEM None serial expDate issuer b' db1 = (Ret None, db2) ->
        FirestoreBackend.LoadCertificatePEM None serial expDate issuer db2
        = FirestoreBackend.LoadCertificatePEM None serial expDate issuer db1)
  /\ (forall err,
        FirestoreBackend.LoadCertificatePEM (Some err) serial expDate issuer db1
        = Ret ([], Some err)).
Proof.
  intros Hfirst.
  set (id := filepath.Join ["ct"%string; expDate; "issuer"%string; Issuer.ID issuer;
                            "certs"%string; Serial.ID serial]) in *.
  assert (Hdoc : firestore.Doc id = Some id).
  { revert Hfirst. unfold FirestoreBackend.StoreCertificatePEM. fold id.
    destruct (len expDate =? 0); [discriminate |].
    unfold firestore.Doc. destruct (_ && _); [reflexivity | discriminate]. }
  assert (Hlen : (len expDate =? 0) = false).
  { revert Hfirst. unfold FirestoreBackend.StoreCertificatePEM.
    destruct (len expDate =? 0); [discriminate | reflexivity]. }
  split; [| split].
  - intros Habsent. revert Hfirst.
    unfold FirestoreBackend.StoreCertificatePEM, FirestoreBackend.LoadCertificatePEM,
      firestore.Create, firestore.Get.
    fold id. rewrite Hlen, Hdoc, Habsent. intros [= <-].
    cbn [FirestoreBackend.client FirestoreBackend.IncrCounter FirestoreBackend.withClient
         firestore.documents].
    rewrite lookup_insert_eq. unfold firestore.DataAt, kFieldData, kFieldType.
    rewrite lookup_insert_ne by discriminate. rewrite lookup_insert_eq. reflexivity.
  - intros db2.
    assert (Hthere : is_Some (firestore.documents (FirestoreBackend.client db1) !! id)).
    { revert Hfirst. unfold FirestoreBackend.StoreCertificatePEM, firestore.Create.
      fold id. rewrite Hlen, Hdoc.
      destruct (firestore.documents (FirestoreBackend.client db) !! id) as [x |] eqn:Ed;
        cbn [status_Code]; intros [= <-];
        cbn [FirestoreBackend.client FirestoreBackend.IncrCounter FirestoreBackend.withClient
             firestore.documents].
      - rewrite Ed. eauto.
      - rewrite lookup_insert_eq. eauto. }
    rewrite (StoreCertificatePEM_existing serial expDate issuer b' db1 id Hlen Hdoc Hthere).
    intros [= <-]. reflexivity.
  - intros err. unfold FirestoreBackend.LoadCertificatePEM. fold id. rewrite Hdoc. reflexivity.
Qed.

Lemma Firestore_PEM_store_load_witness :
  FirestoreBackend.LoadCertificatePEM None serial7 "2019-11-30" issuerX
    (snd (FirestoreBackend.StoreCertificatePEM None serial7 "2019-11-30" issuerX [xda; xda]
            emptyFirestore))
  = Ret ([xda; xda], None).
Proof.
  refine (proj1 (Firestore_PEM_store_load serial7 "2019-11-30" issuerX [xda; xda] []
                   emptyFirestore _ _) _).
  - vm_compute. reflexivity.
  - vm_compute. reflexivity.
Defined.

(** ** Listing the serials of a shard (firestorebackend.go) *)

(** [ListSerialsForExpirationDateAndIssuer] never returns an error:
    without faults it lists the serials of the shard, and when a query
    fails after [n] documents with an error that is not a deadline, it
    returns the first [n] serials and [nil]. *)
Theorem ListSerials_swallows_errors (expDate : string) (issuer : Issuer.t)
    (db : FirestoreBackend.t) (serials : list Serial.t) (n : nat) (e : error) :
  firestore.matching
    (firestore.CollectionWhereType (shardCollection expDate issuer) kTypePEM
       (FirestoreBackend.client db))
  = map Serial.ID serials ->
  isDeadline e = false -> e <> IteratorDone ->
  (n <= 4096)%nat -> (n <= length serials)%nat ->
  FirestoreBackend.ListSerialsForExpirationDateAndIssuer [Some (n, e)] expDate issuer db
  = Some (take n serials, None)
  /\ FirestoreBackend.ListSerialsForExpirationDateAndIssuer [] expDate issuer db
     = Some (serials, None)
  /\ (forall faults r,
        FirestoreBackend.ListSerialsForExpirationDateAndIssuer faults expDate issuer db = Some r ->
        r.2 = None).
Proof.
  intros Hdocs He Hdone Hn Hlen.
  assert (Hquery : firestore.Limit 4096
                     (firestore.CollectionWhereType (shardCollection expDate issuer) kTypePEM
                        (FirestoreBackend.client db)) = shardQuery serials).
  { unfold shardQuery. f_equal. revert Hdocs. unfold firestore.CollectionWhereType.
    cbn [firestore.matching]. intros ->. reflexivity. }
  unfold FirestoreBackend.ListSerialsForExpirationDateAndIssuer,
    FirestoreBackend.StreamSerialsForExpirationDateAndIssuer.
  fold (shardCollection expDate issuer). rewrite Hquery.
  split; [| split].
  - unfold FirestoreBackend.streamQuery.
    rewrite streamLoop_other_error; try assumption.
    + cbn [option_map sent]. rewrite drop_0, take_take. do 3 f_equal. lia.
    + rewrite drop_0, length_take. lia.
  - change (@nil (option (nat * error)))
      with (map (option_map (fun f : nat * string => (f.1, deadline f.2))) []).
    rewrite (streamQuery_deadlines serials []). reflexivity.
  - intros faults r. destruct (FirestoreBackend.streamQuery faults (shardQuery serials));
      [| discriminate]. intros [= <-]. reflexivity.
Qed.

Lemma processItems_app (ss : list Serial.t) (rest : list (option string)) (final : error)
    (count : nat) :
  FirestoreBackend.processItems (map Some (map Serial.ID ss) ++ rest) final count
  = let '(err, n, out) := FirestoreBackend.processItems rest final (count + length ss) in
    (err, n, ss ++ out).
Proof.
  revert count. induction ss as [| s ss IH]; intros count.
  - cbn [map app length]. rewrite Nat.add_0_r.
    destruct (FirestoreBackend.processItems rest final count) as [[err n] out]. reflexivity.
  - cbn [map app FirestoreBackend.processItems length].
    rewrite NewSerialFromIDString_ID, IH.
    replace (count + 1 + length ss)%nat with (count + S (length ss))%nat by lia.
    destruct (FirestoreBackend.processItems rest final _) as [[err n] out]. reflexivity.
Qed.

Lemma streamLoop_nofault (fuel : nat) (q : firestore.Query) (off : nat) :
  FirestoreBackend.streamLoop (S fuel) q off []
  = let '(err, count, out) :=
      FirestoreBackend.processSerialDocumentQuery None (firestore.Offset off q) in
    match err with
    | Some e =>
        if strings.Contains (Error_ e) "DeadlineExceeded"
        then option_map (app out) (FirestoreBackend.streamLoop fuel q (off + count) [])
        else Some out
    | None =>
        if (count =? 0)%nat then Some out
        else option_map (app out) (FirestoreBackend.streamLoop fuel q (off + count) [])
    end.
Proof. reflexivity. Qed.

(** A document whose ID is not the base64 of a serial is skipped
    without being counted, so the offset of the next query falls one
    short: in a shard of one page with such a document before the last
    serial, the last serial is sent twice. *)
Theorem stream_serials_undecodable_id (expDate : string) (issuer : Issuer.t)
    (db : FirestoreBackend.t) (pre post : list Serial.t) (bad : string) (final : Serial.t) :
  firestore.matching
    (firestore.CollectionWhereType (shardCollection expDate issuer) kTypePEM
       (FirestoreBackend.client db))
  = map Serial.ID pre ++ bad :: map Serial.ID (post ++ [final]) ->
  (NewSerialFromIDString bad).2 <> None ->
  (length pre + length post + 2 <= 4096)%nat ->
  FirestoreBackend.StreamSerialsForExpirationDateAndIssuer [] expDate issuer db
  = Some {| sent := pre ++ post ++ [final; final]; closed := true |}.
Proof.
  intros Hdocs Hbad Hlen.
  unfold FirestoreBackend.StreamSerialsForExpirationDateAndIssuer.
  fold (shardCollection expDate issuer).
  set (q := firestore.Limit 4096 _).
  assert (Hm : firestore.matching q = map Serial.ID pre ++ bad :: map Serial.ID (post ++ [final])).
  { subst q. exact Hdocs. }
  assert (Hl : firestore.limit q = Some 4096%nat) by reflexivity.
  clearbody q.
  assert (Hpage : forall off, firestore.page (firestore.Offset off q)
                              = drop off (firestore.matching q)).
  { intros off. unfold firestore.page, firestore.Offset. cbn [firestore.limit firestore.offset
      firestore.matching]. rewrite Hl. apply take_ge.
    rewrite length_drop, Hm, length_app. cbn [length]. rewrite !length_map, length_app.
    cbn [length]. lia. }
  assert (Hq : forall off, FirestoreBackend.processSerialDocumentQuery None (firestore.Offset off q)
                           = FirestoreBackend.processItems
                               (map Some (drop off (firestore.matching q))) IteratorDone 0).
  { intros off. unfold FirestoreBackend.processSerialDocumentQuery, firestore.Documents.
    cbn [firestore.items firestore.final]. rewrite Hpage. reflexivity. }
  assert (Hbad' : forall rest c,
            FirestoreBackend.processItems (Some bad :: rest) IteratorDone c
            = FirestoreBackend.processItems rest IteratorDone c).
  { intros rest c. cbn [FirestoreBackend.processItems].
    destruct (NewSerialFromIDString bad) as [x [err |]]; [reflexivity | contradiction Hbad; reflexivity]. }
  set (m := S (length pre + length post)).
  assert (Hlenm : length (firestore.matching q) = S m).
  { rewrite Hm, length_app. cbn [length]. rewrite !length_map, length_app. cbn [length]. lia. }
  unfold FirestoreBackend.streamQuery. rewrite Hlenm. cbn [length Nat.add].
  (* the first page: every document, the stray one skipped and not counted *)
  rewrite streamLoop_nofault, Hq, drop_0, Hm, map_app, processItems_app. cbn [map]. rewrite Hbad'.
  rewrite <- (app_nil_r (map Some (map Serial.ID (post ++ [final])))), processItems_app.
  cbn [FirestoreBackend.processItems]. rewrite length_app. cbn [length].
  replace (0 + length pre + (length post + 1))%nat with m by (subst m; lia).
  replace (0 + m)%nat with m by lia.
  assert (Em : (m =? 0)%nat = false) by reflexivity. rewrite Em.
  (* the second page starts at the last serial *)
  assert (Hdrop : drop m (map Serial.ID pre ++ bad :: map Serial.ID (post ++ [final]))
                  = [Serial.ID final]).
  { rewrite map_app. change (bad :: ?l) with ([bad] ++ l). rewrite !app_assoc.
    rewrite drop_app_length'; [reflexivity |].
    rewrite !length_app, !length_map. cbn [length]. subst m. lia. }
  subst m.
  rewrite streamLoop_nofault, Hq, Hm, Hdrop. cbn [map FirestoreBackend.processItems].
  rewrite NewSerialFromIDString_ID. cbn [Nat.add Nat.eqb].
  (* the third page is empty *)
  rewrite streamLoop_nofault, Hq, drop_ge by (rewrite Hlenm; lia).
  cbn [map FirestoreBackend.processItems Nat.eqb option_map app].
  rewrite app_nil_r, <- !app_assoc. reflexivity.
Qed.

Lemma ListSerials_swallows_errors_witness :
  FirestoreBackend.ListSerialsForExpirationDateAndIssuer
    [Some (1%nat, StatusError Unavailable "connection reset")] "2019-11-30" issuerX twoSerials
  = Some ([serial9], None).
Proof.
  refine (proj1 (ListSerials_swallows_errors "2019-11-30" issuerX twoSerials [serial9; serial7]
                   1 (StatusError Unavailable "connection reset") _ _ _ _ _)).
  - vm_compute. reflexivity.
  - vm_compute. reflexivity.
  - discriminate.
  - lia.
  - cbn. lia.
Defined.

(** The shard of [twoSerials] with a document more, of the ID ["stray"]. *)
Definition strayDocument : FirestoreBackend.t :=
  FirestoreBackend.withClient
    (snd (firestore.Set_ None "ct/2019-11-30/issuer/issuerX/certs/stray"
            (<[kFieldType := firestore.VString kTypePEM]> ∅)
            (FirestoreBackend.client twoSerials)))
    twoSerials.

Lemma stream_serials_undecodable_id_witness :
  FirestoreBackend.StreamSerialsForExpirationDateAndIssuer [] "2019-11-30" issuerX strayDocument
  = Some {| sent := [serial9; serial7; serial7]; closed := true |}.
Proof.
  refine (stream_serials_undecodable_id "2019-11-30" issuerX strayDocument [] [serial9]
            "stray" serial7 _ _ _).
  - vm_compute. reflexivity.
  - vm_compute. discriminate.
  - cbn. lia.
Defined.

(** ** The cache-backed issuer metadata on the in-process cache *)

(** The URLs [Accumulate] inserts under the key of the CRLs. *)
Fixpoint crlURLs (dps : list string) : list string :=
  match dps with
  | [] => []
  | dp :: dps' =>
      match url.Parse (strings.TrimSpace dp) with
      | (Some u, None) =>
          if String.eqb (url.Scheme u) "ldap" || String.eqb (url.Scheme u) "ldaps"
          then crlURLs dps'
          else if negb (String.eqb (url.Scheme u) "http")
                  && negb (String.eqb (url.Scheme u) "https")
          then crlURLs dps'
          else url.String_ u :: crlURLs dps'
      | _ => crlURLs dps'
      end
  end.

Definition insertAll (key : string) (entries : list string) (ec : MockRemoteCache.t)
  : MockRemoteCache.t :=
  fold_left (fun c u => (MockRemoteCache.SetInsert key u c).2) entries ec.

Lemma SetInsert_cache key x ec :
  StronglySorted before (MockRemoteCache.at_ ec key) ->
  let ec' := (MockRemoteCache.SetInsert key x ec).2 in
  StronglySorted before (MockRemoteCache.at_ ec' key)
  /\ (forall y, y ∈ MockRemoteCache.at_ ec' key <-> y = x \/ y ∈ MockRemoteCache.at_ ec key)
  /\ (forall k, k <> key -> MockRemoteCache.Data ec' !! k = MockRemoteCache.Data ec !! k)
  /\ MockRemoteCache.Expirations ec' = MockRemoteCache.Expirations ec
  /\ (x ∈ MockRemoteCache.at_ ec key -> ec' = ec)
  /\ is_Some (MockRemoteCache.Data ec' !! key).
Proof.
  intros Hs ec'. subst ec'. unfold MockRemoteCache.SetInsert.
  pose proof (found_sorted x _ Hs) as Hf.
  destruct (MockRemoteCache.found x (MockRemoteCache.at_ ec key)) eqn:Ef; cbn [snd].
  - assert (Hin : x ∈ MockRemoteCache.at_ ec key) by (apply Hf; reflexivity).
    split; [exact Hs |]. split; [intros y; split; [auto | intros [-> | H]; assumption] |].
    split; [auto |]. split; [reflexivity |]. split; [auto |].
    unfold MockRemoteCache.at_ in Hin.
    destruct (MockRemoteCache.Data ec !! key); [eauto | inversion Hin].
  - assert (Hnot : x ∉ MockRemoteCache.at_ ec key) by (intros Hin; apply Hf in Hin; discriminate Hin).
    destruct (insert_sorted x _ Hs Hnot) as [Hs' Hm'].
    set (l' := take _ _ ++ x :: drop _ _) in *.
    assert (Hat : MockRemoteCache.at_
                    {| MockRemoteCache.Data := <[key := l']> (MockRemoteCache.Data ec);
                       MockRemoteCache.Expirations := MockRemoteCache.Expirations ec |} key = l').
    { unfold MockRemoteCache.at_. cbn [MockRemoteCache.Data]. rewrite lookup_insert_eq.
      reflexivity. }
    rewrite Hat. cbn [MockRemoteCache.Data MockRemoteCache.Expirations].
    rewrite lookup_insert_eq.
    split; [exact Hs' |]. split; [exact Hm' |].
    split; [intros k Hk; apply lookup_insert_ne; congruence |].
    split; [reflexivity |]. split; [intros Hin; contradiction | eauto].
Qed.

Lemma insertAll_cache key xs : forall ec,
  StronglySorted before (MockRemoteCache.at_ ec key) ->
  let ec' := insertAll key xs ec in
  StronglySorted before (MockRemoteCache.at_ ec' key)
  /\ (forall y, y ∈ MockRemoteCache.at_ ec' key <-> y ∈ xs \/ y ∈ MockRemoteCache.at_ ec key)
  /\ (forall k, k <> key -> MockRemoteCache.Data ec' !! k = MockRemoteCache.Data ec !! k)
  /\ MockRemoteCache.Expirations ec' = MockRemoteCache.Expirations ec
  /\ ((forall y, y ∈ xs -> y ∈ MockRemoteCache.at_ ec key) -> ec' = ec).
Proof.
  induction xs as [| x xs IH]; intros ec Hs; cbn [insertAll fold_left].
  - repeat split; auto. intros [H | H]; [inversion H | exact H].
  - destruct (SetInsert_cache key x ec Hs) as (Hs1 & Hm1 & Hk1 & He1 & Hn1 & _).
    destruct (IH _ Hs1) as (Hs2 & Hm2 & Hk2 & He2 & Hn2). cbv zeta in *.
    unfold insertAll in *. split; [exact Hs2 |].
    split; [intros y; rewrite Hm2, Hm1, elem_of_cons; tauto |].
    split; [intros k Hk; rewrite Hk2, Hk1 by exact Hk; reflexivity |].
    split; [congruence |].
    intros Hall. rewrite Hn1 in * by (apply Hall; left).
    apply Hn2. intros y Hy. apply Hall. right. exact Hy.
Qed.

Lemma CleanupExpiry_fresh now ec :
  (forall k t, MockRemoteCache.Expirations ec !! k = Some t -> time.Before t now = false) ->
  MockRemoteCache.CleanupExpiry now ec = ec.
Proof.
  intros H. unfold MockRemoteCache.CleanupExpiry.
  assert (HD : filter (fun kv : string * list string => MockRemoteCache.expired now ec kv.1 = false)
                 (MockRemoteCache.Data ec) = MockRemoteCache.Data ec).
  { apply map_filter_id. intros k l _. cbn [fst]. unfold MockRemoteCache.expired.
    destruct (MockRemoteCache.Expirations ec !! k) as [t |] eqn:E; [apply (H k), E | reflexivity]. }
  assert (HE : filter (fun kv : string * time.Time => time.Before kv.2 now = false)
                 (MockRemoteCache.Expirations ec) = MockRemoteCache.Expirations ec).
  { apply map_filter_id. intros k t E. apply (H k), E. }
  rewrite HD, HE. destruct ec. reflexivity.
Qed.

Lemma CleanupExpiry_expirations now ec k t :
  MockRemoteCache.Expirations (MockRemoteCache.CleanupExpiry now ec) !! k = Some t ->
  time.Before t now = false.
Proof.
  unfold MockRemoteCache.CleanupExpiry. cbn [MockRemoteCache.Expirations].
  intros E. apply map_lookup_filter_Some in E. destruct E as [_ E]. exact E.
Qed.

Lemma CleanupExpiry_at now ec key :
  MockRemoteCache.at_ (MockRemoteCache.CleanupExpiry now ec) key = MockRemoteCache.at_ ec key
  \/ MockRemoteCache.at_ (MockRemoteCache.CleanupExpiry now ec) key = [].
Proof.
  unfold MockRemoteCache.at_, MockRemoteCache.CleanupExpiry. cbn [MockRemoteCache.Data].
  destruct (filter _ (MockRemoteCache.Data ec) !! key) as [l |] eqn:E; [| right; reflexivity].
  apply map_lookup_filter_Some in E. destruct E as [E _]. rewrite E. left. reflexivity.
Qed.

(** The cache [Accumulate] leaves behind. *)
Definition accumulated (now : time.Time) (im : IssuerMetadata.t) (aCert : x509.Certificate)
    (ec : MockRemoteCache.t) : MockRemoteCache.t :=
  (MockRemoteCache.SetInsert (IssuerMetadata.issuersKey im) (x509.IssuerDN aCert)
     (insertAll (IssuerMetadata.crlsKey im) (crlURLs (x509.CRLDistributionPoints aCert))
        (MockRemoteCache.CleanupExpiry now ec))).2.

Lemma SetInsert_no_error key x ec : (MockRemoteCache.SetInsert key x ec).1.2 = None.
Proof. unfold MockRemoteCache.SetInsert. destruct (MockRemoteCache.found _ _); reflexivity. Qed.

Lemma callSortedInsert_mock now key x (w : MockWorld) :
  exists res evs,
    callSortedInsert now key x w
    = (Ok res, {| cache := (MockRemoteCache.SetInsert key x (cache w)).2;
                  backend := backend w; trace := trace w ++ evs |}).
Proof.
  unfold callSortedInsert. cbn [SortedInsert MockRemoteCache_RemoteCache].
  pose proof (SetInsert_no_error key x (cache w)) as He.
  destruct (MockRemoteCache.SetInsert key x (cache w)) as [[res err] c].
  cbn [fst snd] in He. subst err. exists res. eexists. reflexivity.
Qed.

Lemma addCRLs_mock now im dps : forall w : MockWorld,
  exists evs,
    IssuerMetadata.addCRLs now im dps w
    = (Ok tt, {| cache := insertAll (IssuerMetadata.crlsKey im) (crlURLs dps) (cache w);
                 backend := backend w; trace := trace w ++ evs |}).
Proof.
  induction dps as [| dp dps IH]; intros w; cbn [IssuerMetadata.addCRLs crlURLs].
  - exists []. rewrite app_nil_r. destruct w. reflexivity.
  - assert (Hskip : exists evs,
              bind (ret tt) (fun _ : unit => IssuerMetadata.addCRLs now im dps) w
              = (Ok tt, {| cache := insertAll (IssuerMetadata.crlsKey im) (crlURLs dps) (cache w);
                           backend := backend w; trace := trace w ++ evs |}))
      by (unfold bind, ret; apply IH).
    unfold IssuerMetadata.addCRL.
    destruct (url.Parse (strings.TrimSpace dp)) as [[u |] [err |]]; try exact Hskip.
    destruct (_ || _); [exact Hskip |]. destruct (_ && _); [exact Hskip |].
    destruct (callSortedInsert_mock now (IssuerMetadata.crlsKey im) (url.String_ u) w)
      as (res & evs & E).
    unfold bind at 1 2. rewrite E. unfold ret.
    destruct (IH {| cache := (MockRemoteCache.SetInsert (IssuerMetadata.crlsKey im)
                                (url.String_ u) (cache w)).2;
                    backend := backend w; trace := trace w ++ evs |}) as (evs' & E').
    rewrite E'. cbn [cache backend trace insertAll fold_left].
    exists (evs ++ evs'). rewrite app_assoc. reflexivity.
Qed.

Lemma Accumulate_mock now im aCert (w : MockWorld) :
  exists evs,
    IssuerMetadata.Accumulate now im aCert w
    = (Ok (bool_decide (is_Some (MockRemoteCache.Data
                                   (MockRemoteCache.CleanupExpiry now (cache w))
                                 !! IssuerMetadata.issuersKey im))),
       {| cache := accumulated now im aCert (cache w);
          backend := backend w; trace := trace w ++ evs |}).
Proof.
  unfold IssuerMetadata.Accumulate, IssuerMetadata.addIssuerDN, accumulated.
  unfold bind at 1, callExists.
  cbn [Exists MockRemoteCache_RemoteCache MockRemoteCache.Exists checked].
  set (w1 := logged w _ _ _).
  destruct (addCRLs_mock now im (x509.CRLDistributionPoints aCert) w1) as (evs1 & E1).
  unfold bind at 1. rewrite E1.
  set (w2 := Build_World _ _ _).
  destruct (callSortedInsert_mock now (IssuerMetadata.issuersKey im) (x509.IssuerDN aCert) w2)
    as (res & evs2 & E2).
  unfold bind, ret. rewrite E2. subst w2 w1. cbn [cache backend trace logged].
  eexists. rewrite <- !app_assoc. reflexivity.
Qed.

(** The cache-backed [Accumulate] tolerates a duplicate.  On the
    in-process cache, with the two sets of the issuer sorted,
    accumulating the same certificate again at the same instant reports
    the issuer as seen, leaves the cache as the first call left it and
    never touches the backend; after the first call the two sets are
    sorted, hold the DN of the issuer and every http(s) distribution
    point of the certificate, and are what [Issuers()] and [CRLs()]
    return. *)
Theorem Accumulate_tolerates_duplicates (now : time.Time) (im : IssuerMetadata.t)
    (aCert : x509.Certificate) (w : MockWorld) :
  StronglySorted before (MockRemoteCache.at_ (cache w) (IssuerMetadata.crlsKey im)) ->
  StronglySorted before (MockRemoteCache.at_ (cache w) (IssuerMetadata.issuersKey im)) ->
  let w1 := snd (IssuerMetadata.Accumulate now im aCert w) in
  let w2 := snd (IssuerMetadata.Accumulate now im aCert w1) in
  fst (IssuerMetadata.Accumulate now im aCert w1) = Ok true
  /\ cache w2 = cache w1
  /\ backend w2 = backend w
  /\ StronglySorted before (MockRemoteCache.at_ (cache w1) (IssuerMetadata.crlsKey im))
  /\ StronglySorted before (MockRemoteCache.at_ (cache w1) (IssuerMetadata.issuersKey im))
  /\ x509.IssuerDN aCert ∈ MockRemoteCache.at_ (cache w1) (IssuerMetadata.issuersKey im)
  /\ (forall u, u ∈ crlURLs (x509.CRLDistributionPoints aCert) ->
                u ∈ MockRemoteCache.at_ (cache w1) (IssuerMetadata.crlsKey im))
  /\ fst (IssuerMetadata.Issuers now im w1)
     = Ok (MockRemoteCache.at_ (cache w1) (IssuerMetadata.issuersKey im))
  /\ fst (IssuerMetadata.CRLs now im w1)
     = Ok (MockRemoteCache.at_ (cache w1) (IssuerMetadata.crlsKey im)).
Proof.
  intros Hc Hi w1 w2.
  destruct (Accumulate_mock now im aCert w) as (evs1 & A1).
  assert (Ec1 : cache w1 = accumulated now im aCert (cache w)) by (subst w1; rewrite A1; reflexivity).
  assert (Eb1 : backend w1 = backend w) by (subst w1; rewrite A1; reflexivity).
  destruct (Accumulate_mock now im aCert w1) as (evs2 & A2).
  assert (Eo2 : fst (IssuerMetadata.Accumulate now im aCert w1)
                = Ok (bool_decide (is_Some (MockRemoteCache.Data
                                              (MockRemoteCache.CleanupExpiry now (cache w1))
                                            !! IssuerMetadata.issuersKey im))))
    by (rewrite A2; reflexivity).
  assert (Ec2 : cache w2 = accumulated now im aCert (cache w1)) by (subst w2; rewrite A2; reflexivity).
  assert (Eb2 : backend w2 = backend w1) by (subst w2; rewrite A2; reflexivity).
  clearbody w1 w2. clear A1 A2.
  set (cK := IssuerMetadata.crlsKey im) in *. set (iK := IssuerMetadata.issuersKey im) in *.
  assert (Hne : iK <> cK) by (subst iK cK; discriminate).
  set (c0 := MockRemoteCache.CleanupExpiry now (cache w)).
  assert (Hc0 : StronglySorted before (MockRemoteCache.at_ c0 cK)).
  { destruct (CleanupExpiry_at now (cache w) cK) as [E | E]; subst c0; rewrite E;
      [exact Hc | constructor]. }
  assert (Hi0 : StronglySorted before (MockRemoteCache.at_ c0 iK)).
  { destruct (CleanupExpiry_at now (cache w) iK) as [E | E]; subst c0; rewrite E;
      [exact Hi | constructor]. }
  set (urls := crlURLs (x509.CRLDistributionPoints aCert)) in *.
  destruct (insertAll_cache cK urls c0 Hc0) as (Hs1 & Hm1 & Hk1 & He1 & _). cbv zeta in *.
  set (c1 := insertAll cK urls c0) in *.
  assert (Hi1 : StronglySorted before (MockRemoteCache.at_ c1 iK)).
  { unfold MockRemoteCache.at_. rewrite Hk1 by exact Hne. exact Hi0. }
  destruct (SetInsert_cache iK (x509.IssuerDN aCert) c1 Hi1) as (Hs2 & Hm2 & Hk2 & He2 & _ & Hsome).
  cbv zeta in *.
  assert (E1 : cache w1 = (MockRemoteCache.SetInsert iK (x509.IssuerDN aCert) c1).2)
    by exact Ec1.
  set (c2 := (MockRemoteCache.SetInsert iK (x509.IssuerDN aCert) c1).2) in *.
  assert (Hat : MockRemoteCache.at_ c2 cK = MockRemoteCache.at_ c1 cK).
  { unfold MockRemoteCache.at_. rewrite Hk2 by congruence. reflexivity. }
  assert (Hfresh : MockRemoteCache.CleanupExpiry now c2 = c2).
  { apply CleanupExpiry_fresh. intros k t. rewrite He2, He1. apply CleanupExpiry_expirations. }
  assert (Hdn : x509.IssuerDN aCert ∈ MockRemoteCache.at_ c2 iK) by (apply Hm2; left; reflexivity).
  assert (Hurls : forall u, u ∈ urls -> u ∈ MockRemoteCache.at_ c2 cK).
  { intros u Hu. rewrite Hat. apply Hm1. left. exact Hu. }
  assert (Hsame : accumulated now im aCert c2 = c2).
  { unfold accumulated. fold iK cK urls. rewrite Hfresh.
    assert (Hc2 : StronglySorted before (MockRemoteCache.at_ c2 cK)) by (rewrite Hat; exact Hs1).
    destruct (insertAll_cache cK urls c2 Hc2) as (_ & _ & _ & _ & Hn). cbv zeta in Hn.
    rewrite (Hn Hurls).
    destruct (SetInsert_cache iK (x509.IssuerDN aCert) c2 Hs2) as (_ & _ & _ & _ & Hn' & _).
    apply Hn', Hdn. }
  rewrite E1 in *. split.
  - rewrite Eo2, Hfresh. f_equal. apply bool_decide_eq_true. exact Hsome.
  - split; [rewrite Ec2; exact Hsame |]. split; [congruence |].
    split; [rewrite Hat; exact Hs1 |]. split; [exact Hs2 |]. split; [exact Hdn |].
    split; [exact Hurls |].
    unfold IssuerMetadata.Issuers, IssuerMetadata.CRLs, callSortedList.
    cbn [SortedList MockRemoteCache_RemoteCache MockRemoteCache.SetList checked fst].
    rewrite E1, Hfresh. split; reflexivity.
Qed.

Lemma Accumulate_tolerates_duplicates_witness :
  fst (IssuerMetadata.Accumulate june2020 (NewIssuerMetadata "2019-11-30" issuerX) certE3
         (snd (IssuerMetadata.Accumulate june2020 (NewIssuerMetadata "2019-11-30" issuerX) certE3
                 emptyWorld)))
  = Ok true.
Proof.
  refine (proj1 (Accumulate_tolerates_duplicates june2020
                   (NewIssuerMetadata "2019-11-30" issuerX) certE3 emptyWorld _ _));
    constructor.
Defined.

(** ** Paths of documents (filepath.Join, firestore.Doc) *)

(** A character of a path element that [filepath.Clean] leaves alone. *)
Definition pathChar (c : ascii) : bool := negb (Ascii.eqb c "/") && negb (Ascii.eqb c ".").

(** A path element that names a document or a collection as it is. *)
Definition plain (s : string) : Prop :=
  s <> ""%string /\ forallb pathChar (list_ascii_of_string s) = true.

Lemma split_plain (p : list ascii) :
  forallb pathChar p = true -> filepath.split p = [p].
Proof.
  induction p as [| c p IH]; [reflexivity |].
  cbn [forallb]. intros [Hc Hp]%andb_prop.
  unfold pathChar in Hc. apply andb_prop in Hc as [Hsep _]. apply negb_true_iff in Hsep.
  cbn [filepath.split]. rewrite Hsep, IH by assumption. reflexivity.
Qed.

Lemma split_plain_app (p rest : list ascii) :
  forallb pathChar p = true ->
  filepath.split (p ++ "/"%char :: rest) = p :: filepath.split rest.
Proof.
  induction p as [| c p IH]; intros Hp.
  - cbn [app filepath.split]. change (Ascii.eqb "/" "/") with true. reflexivity.
  - cbn [forallb] in Hp. apply andb_prop in Hp as [Hc Hp].
    unfold pathChar in Hc. apply andb_prop in Hc as [Hsep _]. apply negb_true_iff in Hsep.
    cbn [app filepath.split]. rewrite Hsep, IH by assumption. reflexivity.
Qed.

Lemma split_joinParts (parts : list (list ascii)) :
  parts <> [] -> Forall (fun p => forallb pathChar p = true) parts ->
  filepath.split (filepath.joinParts parts) = parts.
Proof.
  induction parts as [| p parts IH]; intros Hne Hall; [contradiction |].
  inversion Hall as [| ? ? Hp Hrest]; subst.
  destruct parts as [| q parts].
  - cbn [filepath.joinParts]. apply split_plain, Hp.
  - change (filepath.joinParts (p :: q :: parts))
      with (p ++ "/"%char :: filepath.joinParts (q :: parts)).
    rewrite split_plain_app by exact Hp. rewrite IH by (try discriminate; exact Hrest).
    reflexivity.
Qed.

Lemma concat_joinParts (es : list string) :
  list_ascii_of_string (String.concat "/" es)
  = filepath.joinParts (map list_ascii_of_string es).
Proof.
  induction es as [| e es IH]; [reflexivity |].
  destruct es as [| e' es]; [reflexivity |].
  change (String.concat "/" (e :: e' :: es))
    with (String.append e (String.append "/" (String.concat "/" (e' :: es)))).
  rewrite list_ascii_of_string_append.
  change (String.append "/" ?s) with (String "/" s). cbn [list_ascii_of_string].
  rewrite IH. reflexivity.
Qed.

Lemma cleanParts_plain (rooted : bool) (parts : list (list ascii)) :
  Forall (fun p => p <> [] /\ forallb pathChar p = true) parts ->
  forall acc, filepath.cleanParts rooted parts acc = rev parts ++ acc.
Proof.
  induction 1 as [| p parts [Hne Hp] _ IH]; intros acc; [reflexivity |].
  destruct p as [| c p]; [contradiction |].
  cbn [forallb] in Hp. apply andb_prop in Hp as [Hc _].
  unfold pathChar in Hc. apply andb_prop in Hc as [_ Hdot]. apply negb_true_iff in Hdot.
  assert (Hd : filepath.isDot (c :: p) = false /\ filepath.isDotDot (c :: p) = false).
  { apply Ascii.eqb_neq in Hdot. unfold filepath.isDot, filepath.isDotDot.
    destruct c as [[] [] [] [] [] [] [] []]; try (split; reflexivity);
      exfalso; apply Hdot; reflexivity. }
  destruct Hd as [E1 E2].
  cbn [filepath.cleanParts]. rewrite E1, E2, IH. cbn [rev]. rewrite <- app_assoc. reflexivity.
Qed.

Lemma plain_parts (es : list string) :
  Forall plain es ->
  Forall (fun p => p <> [] /\ forallb pathChar p = true) (map list_ascii_of_string es).
Proof.
  induction 1 as [| e es [Hne Hp] _ IH]; constructor; [| exact IH].
  split; [| exact Hp]. destruct e; [contradiction | discriminate].
Qed.

(** [filepath.Join] of plain elements puts a ['/'] between them, and
    the path splits into them again. *)
Lemma Join_plain (es : list string) :
  es <> [] -> Forall plain es ->
  filepath.Join es = String.concat "/" es
  /\ filepath.split (list_ascii_of_string (String.concat "/" es)) = map list_ascii_of_string es.
Proof.
  intros Hne Hall. pose proof (plain_parts es Hall) as Hparts.
  assert (Hsplit : filepath.split (list_ascii_of_string (String.concat "/" es))
                   = map list_ascii_of_string es).
  { rewrite concat_joinParts. apply split_joinParts; [destruct es; [contradiction | discriminate] |].
    eapply Forall_impl; [exact Hparts |]. intros p [_ Hp]. exact Hp. }
  split; [| exact Hsplit].
  unfold filepath.Join.
  assert (Hfilter : List.filter (fun e => negb (String.eqb e "")) es = es).
  { clear Hne Hparts Hsplit. induction Hall as [| e es [He _] _ IH]; [reflexivity |].
    cbn [List.filter]. destruct (String.eqb_spec e ""); [contradiction |].
    cbn [negb]. rewrite IH. reflexivity. }
  rewrite Hfilter. destruct es as [| e es]; [contradiction |].
  unfold filepath.Clean. rewrite Hsplit, cleanParts_plain by exact Hparts.
  rewrite app_nil_r, rev_involutive, <- concat_joinParts.
  inversion Hall as [| ? ? [He Hp] _]; subst.
  destruct e as [| c e]; [contradiction |].
  assert (Hc : Ascii.eqb c "/" = false).
  { cbn [list_ascii_of_string forallb] in Hp. apply andb_prop in Hp as [Hc _].
    unfold pathChar in Hc. apply andb_prop in Hc as [Hc _]. apply negb_true_iff in Hc. exact Hc. }
  assert (Hcs : exists r, list_ascii_of_string (String.concat "/" (String c e :: es)) = c :: r).
  { destruct es; [exists (list_ascii_of_string e); reflexivity |].
    eexists. change (String.concat "/" (String c e :: s :: es))
      with (String c (String.append e (String.append "/" (String.concat "/" (s :: es))))).
    reflexivity. }
  destruct Hcs as [r Hr]. rewrite Hr, Hc. rewrite <- Hr, string_of_list_ascii_of_string.
  reflexivity.
Qed.

(** A path of an even number of plain elements names a document. *)
Lemma Doc_plain (es : list string) :
  es <> [] -> Forall plain es -> Nat.even (length es) = true ->
  firestore.Doc (filepath.Join es) = Some (String.concat "/" es).
Proof.
  intros Hne Hall Heven. destruct (Join_plain es Hne Hall) as [-> Hsplit].
  unfold firestore.Doc. rewrite Hsplit, length_map, Heven.
  assert (Hnon : forallb (fun p => negb (length p =? 0)%nat) (map list_ascii_of_string es) = true).
  { apply forallb_forall. intros p Hin. pose proof (plain_parts es Hall) as Hparts.
    rewrite Forall_forall in Hparts. apply list_elem_of_In, Hparts in Hin.
    destruct Hin as [Hp _]. destruct p; [contradiction | reflexivity]. }
  rewrite Hnon. reflexivity.
Qed.

(** A path of an odd number of plain elements names a collection. *)
Lemma Collection_plain (es : list string) :
  es <> [] -> Forall plain es -> Nat.odd (length es) = true ->
  firestore.Collection (filepath.Join es) = Some (String.concat "/" es).
Proof.
  intros Hne Hall Hodd. destruct (Join_plain es Hne Hall) as [-> Hsplit].
  unfold firestore.Collection. rewrite Hsplit, length_map, Hodd.
  assert (Hnon : forallb (fun p => negb (length p =? 0)%nat) (map list_ascii_of_string es) = true).
  { apply forallb_forall. intros p Hin. pose proof (plain_parts es Hall) as Hparts.
    rewrite Forall_forall in Hparts. apply list_elem_of_In, Hparts in Hin.
    destruct Hin as [Hp _]. destruct p; [contradiction | reflexivity]. }
  rewrite Hnon. reflexivity.
Qed.

(** ** Dates as names of shards (time.Format, time.Parse, MockBackend.ListExpirationDates) *)

(** [f] holds of the [n] integers from [z] on. *)
Fixpoint allFrom (n : nat) (z : Z) (f : Z -> bool) : bool :=
  match n with
  | O => true
  | S n' => f z && allFrom n' (z + 1) f
  end.

Lemma allFrom_spec (n : nat) (f : Z -> bool) : forall z0,
  allFrom n z0 f = true -> forall z, z0 <= z < z0 + Z.of_nat n -> f z = true.
Proof.
  induction n as [| n IH]; intros z0 H z Hz; [lia |].
  cbn [allFrom] in H. apply andb_prop in H as [H0 H1].
  destruct (Z.eq_dec z z0) as [-> | Hne]; [exact H0 |].
  apply (IH (z0 + 1)); [exact H1 | lia].
Qed.

(** The year of the era of 400 years, counted from March, and the day
    of that year. *)
Lemma yearOfEra_range (doe : Z) :
  0 <= doe < 146097 ->
  let yoe := (doe - doe / 1460 + doe / 36524 - doe / 146096) / 365 in
  0 <= yoe <= 399 /\ 0 <= doe - (365 * yoe + yoe / 4 - yoe / 100) <= 365
  /\ (doe - (365 * yoe + yoe / 4 - yoe / 100) = 365 ->
      (yoe + 1) mod 4 = 0 /\ ((yoe + 1) mod 100 <> 0 \/ (yoe + 1) mod 400 = 0)).
Proof. intros H. cbv zeta. div_mod_lia. Qed.

Lemma dayOfYear_range (doy : Z) :
  0 <= doy <= 365 ->
  let mp := (5 * doy + 2) / 153 in
  let d := doy - (153 * mp + 2) / 5 + 1 in
  0 <= mp <= 11 /\ 1 <= d <= 31
  /\ (mp = 11 -> d <= 29 /\ (d = 29 -> doy = 365))
  /\ (mp = 1 \/ mp = 3 \/ mp = 6 \/ mp = 8 -> d <= 30).
Proof. intros H. cbv zeta. div_mod_lia. Qed.

Lemma isLeap_era (y era : Z) : time.isLeap (y + era * 400) = time.isLeap y.
Proof.
  unfold time.isLeap.
  replace ((y + era * 400) mod 4) with (y mod 4) by div_mod_lia.
  replace ((y + era * 400) mod 100) with (y mod 100) by div_mod_lia.
  replace ((y + era * 400) mod 400) with (y mod 400) by div_mod_lia.
  reflexivity.
Qed.

(** A day number names a date of the calendar, and the date names it. *)
Lemma civil_round_trip (z : Z) :
  let '(y, m, d) := time.civilFromDays z in
  time.daysFromCivil y m d = z /\ 1 <= m <= 12 /\ 1 <= d <= time.daysIn m y.
Proof.
  unfold time.civilFromDays.
  set (era := (z + 719468) / 146097).
  set (doe := z + 719468 - era * 146097).
  assert (Hdoe : 0 <= doe < 146097) by (subst doe era; div_mod_lia).
  destruct (yearOfEra_range doe Hdoe) as (Hyoe & Hdoy & Hleap). cbv zeta in Hyoe, Hdoy, Hleap.
  set (yoe := (doe - doe / 1460 + doe / 36524 - doe / 146096) / 365) in *.
  set (doy := doe - (365 * yoe + yoe / 4 - yoe / 100)) in *.
  destruct (dayOfYear_range doy Hdoy) as (Hmp & Hd & Hfeb & H30). cbv zeta in Hmp, Hd, Hfeb, H30.
  set (mp := (5 * doy + 2) / 153) in *.
  set (d := doy - (153 * mp + 2) / 5 + 1) in *.
  assert (Hz : z = era * 146097 + doe - 719468) by (subst doe; lia).
  destruct (Z.ltb_spec mp 10) as [Hlt | Hge].
  - (* March to December *)
    destruct (Z.leb_spec (mp + 3) 2) as [Hm | Hm]; [lia |].
    split; [| split; [lia |]].
    + unfold time.daysFromCivil. destruct (Z.leb_spec (mp + 3) 2); [lia |].
      destruct (Z.ltb_spec 2 (mp + 3)); [| lia].
      replace ((yoe + era * 400) / 400) with era by div_mod_lia.
      replace (mp + 3 - 3) with mp by lia.
      replace (yoe + era * 400 - era * 400) with yoe by lia.
      subst d doy. lia.
    + split; [lia |]. unfold time.daysIn.
      destruct (Z.eqb_spec (mp + 3) 2); [lia |].
      destruct (Z.eqb_spec (mp + 3) 4); [cbn [orb]; lia |].
      destruct (Z.eqb_spec (mp + 3) 6); [cbn [orb]; lia |].
      destruct (Z.eqb_spec (mp + 3) 9); [cbn [orb]; lia |].
      destruct (Z.eqb_spec (mp + 3) 11); [cbn [orb]; lia |].
      cbn [orb]. lia.
  - (* January and February *)
    destruct (Z.leb_spec (mp - 9) 2) as [Hm | Hm]; [| lia].
    split; [| split; [lia |]].
    + unfold time.daysFromCivil. destruct (Z.leb_spec (mp - 9) 2); [| lia].
      destruct (Z.ltb_spec 2 (mp - 9)); [lia |].
      replace (yoe + era * 400 + 1 - 1) with (yoe + era * 400) by lia.
      replace ((yoe + era * 400) / 400) with era by div_mod_lia.
      replace (mp - 9 + 9) with mp by lia.
      replace (yoe + era * 400 - era * 400) with yoe by lia.
      subst d doy. lia.
    + split; [lia |]. unfold time.daysIn.
      replace (yoe + era * 400 + 1) with (yoe + 1 + era * 400) by lia.
      rewrite isLeap_era.
      destruct (Z.eqb_spec (mp - 9) 2) as [E2 | N2].
      * assert (E11 : mp = 11) by lia. destruct (Hfeb E11) as [H29 Hlast].
        destruct (time.isLeap (yoe + 1)) eqn:El; [lia |].
        destruct (Z.eq_dec d 29) as [Ed | Nd]; [| lia].
        exfalso. destruct (Hleap (Hlast Ed)) as [H4 H100].
        unfold time.isLeap in El. rewrite H4 in El. cbn [Z.eqb andb] in El.
        destruct H100 as [H100 | H400].
        -- destruct (Z.eqb_spec ((yoe + 1) mod 100) 0); [contradiction | discriminate El].
        -- rewrite H400 in El. cbn [Z.eqb] in El. rewrite orb_true_r in El. discriminate El.
      * destruct (Z.eqb_spec (mp - 9) 4); [lia |].
        destruct (Z.eqb_spec (mp - 9) 6); [lia |].
        destruct (Z.eqb_spec (mp - 9) 9); [lia |].
        destruct (Z.eqb_spec (mp - 9) 11); [lia |].
        cbn [orb]. lia.
Qed.

(** [v] is printed with [width] digits that read back as [v]. *)
Definition printed (width : nat) (v : Z) : bool :=
  let cs := list_ascii_of_string (time.decimal width v) in
  (length cs =? width)%nat
  && match time.number cs 0 with Some v' => v' =? v | None => false end.

Lemma printed_four : allFrom (Z.to_nat 10000) 0 (printed 4) = true.
Proof. vm_compute. reflexivity. Qed.

Lemma printed_two : allFrom (Z.to_nat 100) 0 (printed 2) = true.
Proof. vm_compute. reflexivity. Qed.

Lemma printed_spec (width : nat) (v : Z) :
  printed width v = true ->
  length (list_ascii_of_string (time.decimal width v)) = width
  /\ time.number (list_ascii_of_string (time.decimal width v)) 0 = Some v.
Proof.
  unfold printed. intros [Hl Hn]%andb_prop. apply Nat.eqb_eq in Hl. split; [exact Hl |].
  destruct (time.number _ 0) as [v' |]; [| discriminate Hn].
  apply Z.eqb_eq in Hn. congruence.
Qed.

(** The year of an instant. *)
Definition year (t : time.Time) : Z := fst (fst (time.Date t)).

(** A date that was formatted parses, to midnight of its day. *)
Lemma Parse_Format (t : time.Time) :
  0 <= year t <= 9999 ->
  time.Parse (time.Format t) = (time.Unix (time.sec t / 86400 * 86400), None).
Proof.
  unfold year, time.Format, time.Date. intros Hy.
  pose proof (civil_round_trip (time.sec t / 86400)) as Hc.
  destruct (time.civilFromDays (time.sec t / 86400)) as [[y m] d]. cbn [fst] in Hy.
  destruct Hc as (Hback & Hm & Hd).
  assert (Hd31 : d <= 31).
  { revert Hd. unfold time.daysIn. destruct (m =? 2); [destruct (time.isLeap y); lia |].
    destruct (_ || _); lia. }
  destruct (printed_spec 4 y) as [Ly Ny];
    [apply (allFrom_spec _ _ 0 printed_four); lia |].
  destruct (printed_spec 2 m) as [Lm Nm];
    [apply (allFrom_spec _ _ 0 printed_two); lia |].
  destruct (printed_spec 2 d) as [Ld Nd];
    [apply (allFrom_spec _ _ 0 printed_two); lia |].
  unfold time.Parse.
  rewrite list_ascii_of_string_append. cbn [list_ascii_of_string].
  rewrite list_ascii_of_string_append. cbn [list_ascii_of_string].
  destruct (list_ascii_of_string (time.decimal 4 y)) as [| y1 [| y2 [| y3 [| y4 [| ? ?]]]]];
    try discriminate Ly.
  destruct (list_ascii_of_string (time.decimal 2 m)) as [| m1 [| m2 [| ? ?]]];
    try discriminate Lm.
  destruct (list_ascii_of_string (time.decimal 2 d)) as [| d1 [| d2 [| ? ?]]];
    try discriminate Ld.
  cbn [app]. rewrite Ny, Nm, Nd.
  change (Ascii.eqb "-" "-") with true. cbn [andb].
  destruct (Z.leb_spec 1 m); [| lia]. destruct (Z.leb_spec m 12); [| lia].
  destruct (Z.leb_spec 1 d); [| lia]. destruct (Z.leb_spec d (time.daysIn m y)); [| lia].
  cbn [andb]. unfold time.midnight. rewrite Hback. reflexivity.
Qed.

Lemma truncated_day (t : time.Time) :
  truncated t = time.Unix (time.sec t / 86400 * 86400).
Proof.
  unfold truncated, time.Date, time.midnight.
  pose proof (civil_round_trip (time.sec t / 86400)) as Hc.
  destruct (time.civilFromDays (time.sec t / 86400)) as [[y m] d].
  destruct Hc as [-> _]. reflexivity.
Qed.

Lemma listFrom_parsed (trunc : time.Time) (keys : list string) :
  (forall k, In k keys -> snd (time.Parse k) = None) ->
  forall acc, exists dates, MockBackend.listFrom trunc keys acc = (dates, None).
Proof.
  induction keys as [| key keys IH]; intros Hall acc; cbn [MockBackend.listFrom]; [eauto |].
  pose proof (Hall key (or_introl eq_refl)) as Hk.
  destruct (time.Parse key) as [v [e |]]; [discriminate Hk |].
  destruct (negb _); apply IH; intros k Hin; apply Hall; right; exact Hin.
Qed.

Lemma listFrom_malformed (trunc : time.Time) (keys : list string) (k : string) :
  In k keys -> snd (time.Parse k) <> None ->
  forall acc, exists err, MockBackend.listFrom trunc keys acc = ([], Some err).
Proof.
  induction keys as [| key keys IH]; intros Hin Hbad acc; [destruct Hin |].
  cbn [MockBackend.listFrom].
  destruct (time.Parse key) as [v [e |]] eqn:Ekey; [eauto |].
  destruct Hin as [-> | Hin]; [rewrite Ekey in Hbad; contradiction |].
  destruct (negb _); apply IH; assumption.
Qed.

Lemma allocated_keys (db : MockBackend.t) (d : string) :
  In d (map fst (map_to_list (MockBackend.expDateToIssuer db)))
  <-> is_Some (MockBackend.expDateToIssuer db !! d).
Proof.
  rewrite in_map_iff. split.
  - intros ([k v] & <- & Hin). apply list_elem_of_In, elem_of_map_to_list in Hin. eauto.
  - intros [v Hv]. exists (d, v). split; [reflexivity |].
    apply list_elem_of_In, elem_of_map_to_list. exact Hv.
Qed.

(** When every allocated date was named by [time.Format] (the years 0
    to 9999), [ListExpirationDates] of the in-memory backend returns
    without an error, and the date of an instant is listed exactly when
    it is allocated and its day is not before the day of [aNotBefore]. *)
Theorem Mock_ListExpirationDates_by_day (aNotBefore : time.Time) (db : MockBackend.t) :
  (forall k, is_Some (MockBackend.expDateToIssuer db !! k) ->
             exists t, 0 <= year t <= 9999 /\ k = time.Format t) ->
  exists dates,
    MockBackend.ListExpirationDates aNotBefore db = (dates, None)
    /\ forall t, 0 <= year t <= 9999 ->
         (In (time.Format t) dates
          <-> is_Some (MockBackend.expDateToIssuer db !! time.Format t)
              /\ time.sec aNotBefore / 86400 <= time.sec t / 86400).
Proof.
  intros Hkeys.
  assert (Hrun : exists dates, MockBackend.ListExpirationDates aNotBefore db = (dates, None)).
  { unfold MockBackend.ListExpirationDates. destruct (time.Date aNotBefore) as [[y m] d].
    apply listFrom_parsed. intros k Hin. apply allocated_keys in Hin.
    destruct (Hkeys k Hin) as (t & Ht & ->). rewrite Parse_Format by exact Ht. reflexivity. }
  destruct Hrun as [dates Hrun]. exists dates. split; [exact Hrun |]. intros t Ht.
  revert Hrun. unfold MockBackend.ListExpirationDates.
  pose proof (truncated_day aNotBefore) as Htr. unfold truncated in Htr.
  destruct (time.Date aNotBefore) as [[y m] d]. rewrite Htr. intros Hrun.
  rewrite (listFrom_spec _ _ _ _ Hrun (time.Format t)), allocated_keys.
  rewrite Parse_Format by exact Ht. cbn [In fst].
  unfold time.Before, time.Unix. cbn [time.sec time.nsec].
  rewrite Z.ltb_irrefl, andb_false_r, orb_false_r.
  split.
  - intros [[] | [Hin Hb]]. split; [exact Hin |]. apply Z.ltb_ge in Hb. lia.
  - intros [Hin Hle]. right. split; [exact Hin |]. apply Z.ltb_ge. lia.
Qed.

Lemma listFrom_failed (trunc : time.Time) (keys : list string) :
  forall acc dates err,
    MockBackend.listFrom trunc keys acc = (dates, Some err) ->
    dates = [] /\ exists k, In k keys /\ snd (time.Parse k) <> None.
Proof.
  induction keys as [| key keys IH]; intros acc dates err Hrun; [discriminate Hrun |].
  cbn [MockBackend.listFrom] in Hrun.
  destruct (time.Parse key) as [v [e |]] eqn:Ekey.
  - injection Hrun as <- _. split; [reflexivity |]. exists key.
    split; [left; reflexivity | rewrite Ekey; discriminate].
  - destruct (negb _); destruct (IH _ _ _ Hrun) as (Hd & k & Hin & Hbad);
      (split; [exact Hd |]); exists k; (split; [right; exact Hin | exact Hbad]).
Qed.

(** [ListExpirationDates] of the in-memory backend fails, with no
    dates, exactly when some allocated date does not parse: one such
    key spoils the listing, whatever the order of the map. *)
Theorem Mock_ListExpirationDates_malformed (aNotBefore : time.Time) (db : MockBackend.t) :
  (exists err, MockBackend.ListExpirationDates aNotBefore db = ([], Some err))
  <-> (exists k, is_Some (MockBackend.expDateToIssuer db !! k) /\ snd (time.Parse k) <> None).
Proof.
  unfold MockBackend.ListExpirationDates. destruct (time.Date aNotBefore) as [[y m] d]. split.
  - intros [err Hrun]. destruct (listFrom_failed _ _ _ _ _ Hrun) as (_ & k & Hin & Hbad).
    exists k. split; [apply allocated_keys, Hin | exact Hbad].
  - intros (k & Hin & Hbad). apply (listFrom_malformed _ _ k); [apply allocated_keys, Hin | exact Hbad].
Qed.

Lemma Mock_ListExpirationDates_by_day_witness :
  exists dates,
    MockBackend.ListExpirationDates june2020 oneShardMock = (dates, None)
    /\ forall t, 0 <= year t <= 9999 ->
         (In (time.Format t) dates
          <-> is_Some (MockBackend.expDateToIssuer oneShardMock !! time.Format t)
              /\ time.sec june2020 / 86400 <= time.sec t / 86400).
Proof.
  refine (Mock_ListExpirationDates_by_day june2020 oneShardMock _).
  intros k [v Hk]. exists (time.Unix 1546300800).
  split; [vm_compute; split; discriminate |].
  assert (E : MockBackend.expDateToIssuer oneShardMock = {[ "2019-01-01"%string := [issuerX] ]})
    by reflexivity.
  rewrite E in Hk. apply lookup_singleton_Some in Hk. destruct Hk as [<- _].
  vm_compute. reflexivity.
Defined.

(** ** Allocation of a shard in the document store (firestorebackend.go) *)

(** No document holds an [issuer] field that is not a string. *)
Definition stringIssuers (db : FirestoreBackend.t) : Prop :=
  forall path doc v,
    firestore.documents (FirestoreBackend.client db) !! path = Some doc ->
    doc !! kFieldIssuer = Some v -> exists s, v = firestore.VString s.

(** The paths of the documents of a date and of a shard. *)
Definition datePath (expDate : string) : string := String.concat "/" ["ct"; expDate]%string.
Definition shardPath (expDate : string) (issuer : Issuer.t) : string :=
  String.concat "/" ["ct"; expDate; "issuer"; Issuer.ID issuer]%string.

Lemma childID_child (coll id : string) :
  plain id -> firestore.childID coll (String.append coll (String "/" id)) = Some id.
Proof.
  intros [Hne Hp]. unfold firestore.childID.
  rewrite list_ascii_of_string_append. cbn [list_ascii_of_string].
  rewrite take_app_length, bool_decide_eq_true_2 by reflexivity.
  rewrite drop_app_length. change (Ascii.eqb "/" "/") with true.
  assert (Hlen : (length (list_ascii_of_string id) =? 0)%nat = false).
  { destruct id; [contradiction | reflexivity]. }
  assert (Hslash : forallb (fun x => negb (Ascii.eqb x "/")) (list_ascii_of_string id) = true).
  { apply forallb_forall. intros x Hx. rewrite forallb_forall in Hp.
    apply Hp in Hx. unfold pathChar in Hx. apply andb_prop in Hx as [Hx _]. exact Hx. }
  rewrite Hlen, Hslash. cbn [negb andb]. rewrite string_of_list_ascii_of_string. reflexivity.
Qed.

Lemma childID_inv (coll path id : string) :
  firestore.childID coll path = Some id ->
  path = String.append coll (String "/" id)
  /\ forallb (fun x => negb (Ascii.eqb x "/")) (list_ascii_of_string id) = true.
Proof.
  unfold firestore.childID. intros H.
  destruct (bool_decide _) eqn:Etake; [| discriminate H].
  apply bool_decide_eq_true in Etake.
  destruct (drop _ _) as [| sep rest] eqn:Edrop; [discriminate H |].
  destruct (Ascii.eqb sep "/") eqn:Esep; [| discriminate H].
  destruct (negb (length rest =? 0)%nat) eqn:Elen; [| discriminate H].
  destruct (forallb _ rest) eqn:Eall; [| discriminate H].
  cbn [andb] in H. injection H as <-. apply Ascii.eqb_eq in Esep. subst sep.
  rewrite list_ascii_of_string_of_list_ascii. split; [| exact Eall].
  rewrite <- (string_of_list_ascii_of_string path).
  rewrite <- (take_drop (length (list_ascii_of_string coll)) (list_ascii_of_string path)).
  rewrite Etake, Edrop, string_of_list_ascii_app, string_of_list_ascii_of_string. reflexivity.
Qed.

(** The documents a query on a collection and a type matches. *)
Lemma matching_spec (coll ty : string) (c : firestore.Client) (id : string) :
  In id (firestore.matching (firestore.CollectionWhereType coll ty c))
  <-> exists path doc,
        firestore.documents c !! path = Some doc
        /\ firestore.childID coll path = Some id
        /\ doc !! "type"%string = Some (firestore.VString ty).
Proof.
  unfold firestore.CollectionWhereType. cbn [firestore.matching].
  rewrite <- list_elem_of_In, list_elem_of_omap. split.
  - intros ([path doc] & Hin & Hsome). apply elem_of_map_to_list in Hin. cbn [fst snd] in Hsome.
    destruct (firestore.childID coll path) as [id' |] eqn:Eid; [| discriminate Hsome].
    destruct (doc !! "type"%string) as [[t | |] |] eqn:Ety; try discriminate Hsome.
    destruct (String.eqb_spec t ty) as [-> |]; [| discriminate Hsome].
    injection Hsome as ->. eauto.
  - intros (path & doc & Hdoc & Hid & Hty). exists (path, doc).
    split; [apply elem_of_map_to_list, Hdoc |]. cbn [fst snd].
    rewrite Hid, Hty, String.eqb_refl. reflexivity.
Qed.

Lemma snapshots_spec (coll ty : string) (c : firestore.Client) (doc : gmap string firestore.value) :
  In doc (firestore.SnapshotsWhereType coll ty c)
  <-> exists path id,
        firestore.documents c !! path = Some doc
        /\ firestore.childID coll path = Some id
        /\ doc !! "type"%string = Some (firestore.VString ty).
Proof.
  unfold firestore.SnapshotsWhereType.
  rewrite <- list_elem_of_In, list_elem_of_omap. split.
  - intros ([path doc'] & Hin & Hsome). apply elem_of_map_to_list in Hin. cbn [fst snd] in Hsome.
    destruct (firestore.childID coll path) as [id' |] eqn:Eid; [| discriminate Hsome].
    destruct (doc' !! "type"%string) as [[t | |] |] eqn:Ety; try discriminate Hsome.
    destruct (String.eqb_spec t ty) as [-> |]; [| discriminate Hsome].
    injection Hsome as ->. eauto.
  - intros (path & id & Hdoc & Hid & Hty). exists (path, doc).
    split; [apply elem_of_map_to_list, Hdoc |]. cbn [fst snd].
    rewrite Hid, Hty, String.eqb_refl. reflexivity.
Qed.

Lemma sendIDs_all (ids : list string) : FirestoreBackend.sendIDs (map Some ids) = ids.
Proof. induction ids as [| id ids IH]; [reflexivity |]. cbn. rewrite IH. reflexivity. Qed.

Lemma Firestore_dates (aNotBefore : time.Time) (db : FirestoreBackend.t) :
  FirestoreBackend.ListExpirationDates None aNotBefore db
  = (firestore.matching
       (firestore.CollectionWhereType "ct" kTypeExpDate (FirestoreBackend.client db)), None).
Proof.
  unfold FirestoreBackend.ListExpirationDates, FirestoreBackend.StreamExpirationDates,
    firestore.Documents, firestore.page, firestore.CollectionWhereType.
  cbn [firestore.limit firestore.offset firestore.matching firestore.items sent drop].
  rewrite sendIDs_all. reflexivity.
Qed.

Lemma sendIssuers_strings (docs : list (gmap string firestore.value)) :
  (forall doc v, In doc docs -> doc !! kFieldIssuer = Some v -> exists s, v = firestore.VString s) ->
  exists out,
    FirestoreBackend.sendIssuers docs = Ret out
    /\ forall name, In name (map Issuer.ID out)
                    <-> exists doc, In doc docs /\ doc !! kFieldIssuer = Some (firestore.VString name).
Proof.
  induction docs as [| doc docs IH]; intros Hall.
  - exists []. split; [reflexivity |]. intros name. cbn. split; [tauto | intros (? & [] & _)].
  - destruct IH as (out & Eout & Hout); [intros d v Hd; apply Hall; right; exact Hd |].
    cbn [FirestoreBackend.sendIssuers]. unfold firestore.DataAt.
    destruct (doc !! kFieldIssuer) as [v |] eqn:Ev.
    + destruct (Hall doc v (or_introl eq_refl) Ev) as [s ->]. rewrite Eout.
      exists (NewIssuerFromString s :: out). split; [reflexivity |].
      intros name. cbn [map In]. rewrite Hout. split.
      * intros [<- | (d & Hd & Hn)]; [exists doc; split; [left; reflexivity | exact Ev] |].
        exists d. split; [right; exact Hd | exact Hn].
      * intros (d & [<- | Hd] & Hn); [left; rewrite Ev in Hn; injection Hn as ->; reflexivity |].
        right. exists d. split; assumption.
    + exists out. split; [exact Eout |]. intros name. rewrite Hout. split.
      * intros (d & Hd & Hn). exists d. split; [right; exact Hd | exact Hn].
      * intros (d & [<- | Hd] & Hn); [rewrite Ev in Hn; discriminate Hn |].
        exists d. split; assumption.
Qed.

Lemma append_assoc (a b c : string) :
  String.append (String.append a b) c = String.append a (String.append b c).
Proof.
  induction a as [| x a IH]; [reflexivity |].
  change (String.append (String.append (String x a) b) c)
    with (String x (String.append (String.append a b) c)).
  change (String.append (String x a) (String.append b c))
    with (String x (String.append a (String.append b c))).
  rewrite IH. reflexivity.
Qed.

Lemma shardPath_child (expDate : string) (issuer : Issuer.t) :
  shardPath expDate issuer
  = String.append (String.concat "/" ["ct"; expDate; "issuer"]%string)
      (String "/" (Issuer.ID issuer)).
Proof.
  unfold shardPath. cbn [String.concat].
  change (String.append "ct" ?s) with (String "c" (String "t" s)).
  change (String "c" (String "t" ?s)) with (String.append "ct" s).
  rewrite !append_assoc. reflexivity.
Qed.

Lemma shardPath_not_date (expDate d : string) (issuer : Issuer.t) :
  firestore.childID "ct" (shardPath expDate issuer) <> Some d.
Proof.
  intros H. apply childID_inv in H as [Hpath Hall].
  unfold shardPath in Hpath. cbn [String.concat] in Hpath.
  change (String.append "ct" ?s) with (String "c" (String "t" s)) in Hpath.
  change (String.append "/" ?s) with (String "/" s) in Hpath.
  injection Hpath as <-.
  rewrite list_ascii_of_string_append, forallb_app in Hall.
  apply andb_prop in Hall as [_ Hall]. discriminate Hall.
Qed.

Lemma datePath_child (expDate : string) :
  datePath expDate = String.append "ct" (String "/" expDate).
Proof. reflexivity. Qed.

Lemma datePath_shardPath (expDate : string) (issuer : Issuer.t) :
  datePath expDate <> shardPath expDate issuer.
Proof.
  intros E. apply (f_equal String.length) in E.
  unfold datePath, shardPath in E. cbn [String.concat] in E.
  rewrite !length_append in E. cbn [String.length] in E. lia.
Qed.

Definition dateDocument (expDate : string) : gmap string firestore.value :=
  <[kFieldType := firestore.VString kTypeExpDate]>
    (<[kFieldExpDate := firestore.VString expDate]> ∅).

Definition shardDocument (expDate : string) (issuer : Issuer.t) : gmap string firestore.value :=
  <[kFieldType := firestore.VString kTypeMetadata]>
    (<[kFieldExpDate := firestore.VString expDate]>
       (<[kFieldIssuer := firestore.VString (Issuer.ID issuer)]> ∅)).

(** What an allocation that meets no fault writes. *)
Lemma Firestore_allocate (expDate : string) (issuer : Issuer.t) (db : FirestoreBackend.t) :
  plain expDate -> plain (Issuer.ID issuer) ->
  FirestoreBackend.AllocateExpDateAndIssuer None None expDate issuer db
  = (None,
     FirestoreBackend.withClient
       {| firestore.documents :=
            <[shardPath expDate issuer := shardDocument expDate issuer]>
              (<[datePath expDate := dateDocument expDate]>
                 (firestore.documents (FirestoreBackend.client db))) |} db).
Proof.
  intros He Hi.
  assert (Hplain : plain "ct" /\ plain "issuer") by (split; split; (discriminate || reflexivity)).
  destruct Hplain as [Hct Hiss].
  unfold FirestoreBackend.AllocateExpDateAndIssuer, FirestoreBackend.allocateExpDate,
    FirestoreBackend.allocateIssuerExpDate.
  rewrite (Doc_plain ["ct"; expDate]%string)
    by first [discriminate | reflexivity
             | repeat (apply Forall_cons_2; [assumption |]); apply Forall_nil_2].
  rewrite (Doc_plain ["ct"; expDate; "issuer"; Issuer.ID issuer]%string)
    by first [discriminate | reflexivity
             | repeat (apply Forall_cons_2; [assumption |]); apply Forall_nil_2].
  cbn [firestore.Set_ FirestoreBackend.withClient FirestoreBackend.client
         FirestoreBackend.counters firestore.documents].
  reflexivity.
Qed.

Lemma dateDocument_type (expDate : string) :
  dateDocument expDate !! "type"%string = Some (firestore.VString kTypeExpDate).
Proof. apply lookup_insert_eq. Qed.

Lemma shardDocument_type (expDate : string) (issuer : Issuer.t) :
  shardDocument expDate issuer !! "type"%string = Some (firestore.VString kTypeMetadata).
Proof. apply lookup_insert_eq. Qed.

Lemma shardDocument_issuer (expDate : string) (issuer : Issuer.t) :
  shardDocument expDate issuer !! kFieldIssuer = Some (firestore.VString (Issuer.ID issuer)).
Proof.
  unfold shardDocument. rewrite !lookup_insert_ne by discriminate. apply lookup_insert_eq.
Qed.

Lemma dateDocument_issuer (expDate : string) : dateDocument expDate !! kFieldIssuer = None.
Proof.
  unfold dateDocument. rewrite !lookup_insert_ne by discriminate. apply lookup_empty.
Qed.

(** The dates listed once the document of [expDate] is written,
    whatever else is written at the path of a shard. *)
Lemma dates_allocated (expDate : string) (issuer : Issuer.t) (docs docs' : gmap string (gmap string firestore.value)) :
  plain expDate ->
  docs' !! datePath expDate = Some (dateDocument expDate) ->
  (forall path, path <> datePath expDate -> path <> shardPath expDate issuer ->
                docs' !! path = docs !! path) ->
  forall d,
    In d (firestore.matching (firestore.CollectionWhereType "ct" kTypeExpDate
                                {| firestore.documents := docs' |}))
    <-> d = expDate
        \/ In d (firestore.matching (firestore.CollectionWhereType "ct" kTypeExpDate
                                       {| firestore.documents := docs |})).
Proof.
  intros He Hdate Hrest d. rewrite !matching_spec. cbn [firestore.documents].
  assert (Hid : firestore.childID "ct" (datePath expDate) = Some expDate)
    by (rewrite datePath_child; apply childID_child, He).
  split.
  - intros (path & doc & Hdoc & Hchild & Hty).
    destruct (decide (path = shardPath expDate issuer)) as [-> | Hn2];
      [exfalso; exact (shardPath_not_date _ _ _ Hchild) |].
    destruct (decide (path = datePath expDate)) as [-> | Hn1];
      [left; congruence |].
    right. exists path, doc. rewrite <- Hrest by assumption. auto.
  - intros [-> | (path & doc & Hdoc & Hchild & Hty)].
    + exists (datePath expDate), (dateDocument expDate).
      split; [exact Hdate |]. split; [exact Hid | apply dateDocument_type].
    + destruct (decide (path = shardPath expDate issuer)) as [-> | Hn2];
        [exfalso; exact (shardPath_not_date _ _ _ Hchild) |].
      destruct (decide (path = datePath expDate)) as [-> | Hn1].
      * exists (datePath expDate), (dateDocument expDate).
        split; [exact Hdate |]. split; [exact Hchild | apply dateDocument_type].
      * exists path, doc. rewrite Hrest by assumption. auto.
Qed.

(** An allocation that meets no fault, of a date and an issuer whose
    names are plain path elements, in a store where no [issuer] field
    holds anything but a string: it returns [nil]; the dates listed
    afterwards are those listed before and the new one; the issuers
    listed for the date include the issuer; the store still holds only
    string [issuer] fields, the counters are untouched, and allocating
    the same shard again changes nothing. *)
Theorem Firestore_allocate_enumerates (expDate : string) (issuer : Issuer.t)
    (db : FirestoreBackend.t) (aNotBefore : time.Time) :
  plain expDate -> plain (Issuer.ID issuer) -> stringIssuers db ->
  exists db',
    FirestoreBackend.AllocateExpDateAndIssuer None None expDate issuer db = (None, db')
    /\ (forall d, In d (fst (FirestoreBackend.ListExpirationDates None aNotBefore db'))
                  <-> d = expDate
                      \/ In d (fst (FirestoreBackend.ListExpirationDates None aNotBefore db)))
    /\ (exists issuers,
          FirestoreBackend.ListIssuersForExpirationDate None expDate db' = Ret (issuers, None)
          /\ In (Issuer.ID issuer) (map Issuer.ID issuers))
    /\ stringIssuers db'
    /\ FirestoreBackend.counters db' = FirestoreBackend.counters db
    /\ FirestoreBackend.AllocateExpDateAndIssuer None None expDate issuer db' = (None, db').
Proof.
  intros He Hi Hstr. rewrite (Firestore_allocate expDate issuer db He Hi).
  set (docs := firestore.documents (FirestoreBackend.client db)).
  set (docs' := <[shardPath expDate issuer := shardDocument expDate issuer]>
                  (<[datePath expDate := dateDocument expDate]> docs)).
  pose proof (datePath_shardPath expDate issuer) as Hne.
  assert (Hdate : docs' !! datePath expDate = Some (dateDocument expDate)).
  { subst docs'. rewrite lookup_insert_ne by congruence. apply lookup_insert_eq. }
  assert (Hshard : docs' !! shardPath expDate issuer = Some (shardDocument expDate issuer))
    by apply lookup_insert_eq.
  assert (Hrest : forall path, path <> datePath expDate -> path <> shardPath expDate issuer ->
                               docs' !! path = docs !! path).
  { intros path H1 H2. subst docs'. rewrite !lookup_insert_ne by congruence. reflexivity. }
  assert (Hstr' : stringIssuers
                    (FirestoreBackend.withClient {| firestore.documents := docs' |} db)).
  { intros path doc v Hdoc Hv. cbn [FirestoreBackend.withClient FirestoreBackend.client
                                      firestore.documents] in Hdoc.
    destruct (decide (path = shardPath expDate issuer)) as [-> | Hn2].
    - rewrite Hshard in Hdoc. injection Hdoc as <-.
      rewrite shardDocument_issuer in Hv. injection Hv as <-. eauto.
    - destruct (decide (path = datePath expDate)) as [-> | Hn1].
      + rewrite Hdate in Hdoc. injection Hdoc as <-.
        rewrite dateDocument_issuer in Hv. discriminate Hv.
      + rewrite Hrest in Hdoc by assumption. exact (Hstr path doc v Hdoc Hv). }
  eexists. split; [reflexivity |]. split; [| split; [| split; [exact Hstr' | split]]].
  - intros d. rewrite !Firestore_dates. cbn [fst].
    cbn [FirestoreBackend.withClient FirestoreBackend.client].
    destruct db as [[docs0] ctr]. cbn [FirestoreBackend.client firestore.documents] in *.
    apply (dates_allocated expDate issuer docs0 docs' He Hdate Hrest).
  - unfold FirestoreBackend.ListIssuersForExpirationDate,
      FirestoreBackend.StreamIssuersForExpirationDate.
    assert (Hplain : plain "ct" /\ plain "issuer")
      by (split; split; (discriminate || reflexivity)).
    destruct Hplain as [Hct Hiss].
    rewrite (Collection_plain ["ct"; expDate; "issuer"]%string)
      by first [discriminate | reflexivity
               | repeat (apply Forall_cons_2; [assumption |]); apply Forall_nil_2].
    cbn [FirestoreBackend.withClient FirestoreBackend.client].
    set (snaps := firestore.SnapshotsWhereType _ _ _).
    destruct (sendIssuers_strings snaps) as (out & Eout & Hout).
    { intros doc v Hin Hv. apply snapshots_spec in Hin.
      destruct Hin as (path & id & Hdoc & _ & _). exact (Hstr' path doc v Hdoc Hv). }
    rewrite Eout. exists out. split; [reflexivity |]. cbn [sent].
    apply Hout. exists (shardDocument expDate issuer).
    split; [| apply shardDocument_issuer].
    apply snapshots_spec. exists (shardPath expDate issuer), (Issuer.ID issuer).
    split; [exact Hshard |]. split; [| apply shardDocument_type].
    rewrite shardPath_child. apply childID_child, Hi.
  - reflexivity.
  - rewrite (Firestore_allocate expDate issuer _ He Hi).
    cbn [FirestoreBackend.withClient FirestoreBackend.client FirestoreBackend.counters
           firestore.documents].
    rewrite (insert_id docs' _ _ Hdate), (insert_id docs' _ _ Hshard). reflexivity.
Qed.

(** The failures of an allocation.  When the write of the document of
    the date fails, the error is returned and nothing is written; when
    the write of the document of the shard fails, the error is
    returned, but the document of the date is written and the date is
    listed, while the document of the shard is as before; the empty
    date is refused before any write. *)
Theorem Firestore_allocate_failures (expDate : string) (issuer : Issuer.t)
    (db : FirestoreBackend.t) (aNotBefore : time.Time) :
  plain expDate -> plain (Issuer.ID issuer) ->
  (forall err fault2,
     FirestoreBackend.AllocateExpDateAndIssuer (Some err) fault2 expDate issuer db
     = (Some err, db))
  /\ (forall err,
        exists db1,
          FirestoreBackend.AllocateExpDateAndIssuer None (Some err) expDate issuer db
          = (Some err, db1)
          /\ In expDate (fst (FirestoreBackend.ListExpirationDates None aNotBefore db1))
          /\ firestore.documents (FirestoreBackend.client db1) !! shardPath expDate issuer
             = firestore.documents (FirestoreBackend.client db) !! shardPath expDate issuer)
  /\ (forall fault1 fault2,
        FirestoreBackend.AllocateExpDateAndIssuer fault1 fault2 "" issuer db
        = (Some (Errorf "Couldn't allocate document for exp date"), db)).
Proof.
  intros He Hi.
  assert (Hplain : plain "ct" /\ plain "issuer") by (split; split; (discriminate || reflexivity)).
  destruct Hplain as [Hct Hiss].
  assert (Hdoc1 : firestore.Doc (filepath.Join ["ct"; expDate]%string) = Some (datePath expDate)).
  { apply (Doc_plain ["ct"; expDate]%string);
      first [discriminate | reflexivity
            | repeat (apply Forall_cons_2; [assumption |]); apply Forall_nil_2]. }
  assert (Hdoc2 : firestore.Doc (filepath.Join ["ct"; expDate; "issuer"; Issuer.ID issuer]%string)
                  = Some (shardPath expDate issuer)).
  { apply (Doc_plain ["ct"; expDate; "issuer"; Issuer.ID issuer]%string);
      first [discriminate | reflexivity
            | repeat (apply Forall_cons_2; [assumption |]); apply Forall_nil_2]. }
  split; [| split].
  - intros err fault2.
    unfold FirestoreBackend.AllocateExpDateAndIssuer, FirestoreBackend.allocateExpDate.
    rewrite Hdoc1. cbn [firestore.Set_]. destruct db as [c ctr]. reflexivity.
  - intros err.
    unfold FirestoreBackend.AllocateExpDateAndIssuer, FirestoreBackend.allocateExpDate,
      FirestoreBackend.allocateIssuerExpDate.
    rewrite Hdoc1, Hdoc2. cbn [firestore.Set_ FirestoreBackend.withClient
                                 FirestoreBackend.client FirestoreBackend.counters].
    eexists. split; [destruct db as [c ctr]; reflexivity |].
    pose proof (datePath_shardPath expDate issuer) as Hne.
    cbn [FirestoreBackend.client firestore.documents]. split.
    + rewrite Firestore_dates. cbn [fst FirestoreBackend.client].
      apply matching_spec. exists (datePath expDate), (dateDocument expDate).
      cbn [firestore.documents]. split; [apply lookup_insert_eq |].
      split; [rewrite datePath_child; apply childID_child, He | apply dateDocument_type].
    + apply lookup_insert_ne. exact Hne.
  - intros fault1 fault2. reflexivity.
Qed.

(** ** The names [Store] gives to shards, as paths of documents *)

Lemma encodeAt_pathChar (x : Z) :
  pathChar (base64.encodeAt base64.URLEncoding (Z.land x 63)) = true.
Proof.
  destruct (idChar_not_sep _ (encodeAt_idChar x)) as [Hsep Hdot].
  unfold pathChar. rewrite Hsep, Hdot. reflexivity.
Qed.

Lemma Encode_padded_pathChars (bs : list byte) :
  forallb pathChar (base64.Encode base64.URLEncoding bs) = true.
Proof.
  induction bs as [| b0 | b0 b1 | b0 b1 b2 bs IH] using list_ind3;
    cbn [base64.Encode forallb base64.padding base64.padChar base64.URLEncoding repeat];
    rewrite ?encodeAt_pathChar, ?IH; reflexivity.
Qed.

Lemma Encode_padded_nonempty (bs : list byte) :
  bs <> [] -> base64.Encode base64.URLEncoding bs <> [].
Proof.
  intros Hne E. apply (f_equal (@length ascii)) in E. apply (f_equal Z.of_nat) in E.
  rewrite Encode_padded_length_exact in E. cbn [length] in E.
  destruct bs as [| b bs]; [contradiction |]. cbn [length] in E.
  rewrite Nat2Z.inj_succ in E. div_mod_lia.
Qed.

Lemma encoded_plain (bs : list byte) :
  bs <> [] -> plain (base64.EncodeToString base64.URLEncoding bs).
Proof.
  intros Hne. unfold plain, base64.EncodeToString.
  rewrite list_ascii_of_string_of_list_ascii. split; [| apply Encode_padded_pathChars].
  intros E. apply (f_equal list_ascii_of_string) in E.
  rewrite list_ascii_of_string_of_list_ascii in E. exact (Encode_padded_nonempty bs Hne E).
Qed.

Lemma Issuer_ID_plain (aCert : x509.Certificate) : plain (Issuer.ID (NewIssuer aCert)).
Proof.
  unfold Issuer.ID, NewIssuer. cbn [Issuer.id Issuer.spki].
  unfold SPKI.Sha256DigestURLEncodedBase64. apply encoded_plain.
  intros E. apply (f_equal (@length byte)) in E. rewrite Sum256_length in E. discriminate E.
Qed.

(** [v] is printed with characters of a plain path element. *)
Definition printedPlain (width : nat) (v : Z) : bool :=
  forallb pathChar (list_ascii_of_string (time.decimal width v)).

Lemma printedPlain_four : allFrom (Z.to_nat 10000) 0 (printedPlain 4) = true.
Proof. vm_compute. reflexivity. Qed.

Lemma printedPlain_two : allFrom (Z.to_nat 100) 0 (printedPlain 2) = true.
Proof. vm_compute. reflexivity. Qed.

Lemma Format_plain (t : time.Time) : 0 <= year t <= 9999 -> plain (time.Format t).
Proof.
  unfold year, time.Format, time.Date. intros Hy.
  pose proof (civil_round_trip (time.sec t / 86400)) as Hc.
  destruct (time.civilFromDays (time.sec t / 86400)) as [[y m] d]. cbn [fst] in Hy.
  destruct Hc as (_ & Hm & Hd).
  assert (Hd31 : d <= 31).
  { revert Hd. unfold time.daysIn. destruct (m =? 2); [destruct (time.isLeap y); lia |].
    destruct (_ || _); lia. }
  pose proof (allFrom_spec _ _ 0 printedPlain_four y ltac:(lia)) as Py.
  pose proof (allFrom_spec _ _ 0 printedPlain_two m ltac:(lia)) as Pm.
  pose proof (allFrom_spec _ _ 0 printedPlain_two d ltac:(lia)) as Pd.
  unfold printedPlain in Py, Pm, Pd. split.
  - intros E. apply (f_equal String.length) in E. rewrite length_append in E.
    cbn [String.length] in E. lia.
  - rewrite list_ascii_of_string_append. cbn [list_ascii_of_string].
    rewrite list_ascii_of_string_append. cbn [list_ascii_of_string].
    rewrite forallb_app. cbn [forallb]. rewrite forallb_app. cbn [forallb].
    rewrite Py, Pm, Pd. reflexivity.
Qed.

Lemma Doc_plain_odd (es : list string) :
  es <> [] -> Forall plain es -> Nat.even (length es) = false ->
  firestore.Doc (filepath.Join es) = None.
Proof.
  intros Hne Hall Hodd. destruct (Join_plain es Hne Hall) as [-> Hsplit].
  unfold firestore.Doc. rewrite Hsplit, length_map, Hodd, andb_false_r. reflexivity.
Qed.

(** [filepath.Join] drops an empty element. *)
Lemma Join_trailing_empty (es : list string) :
  filepath.Join (es ++ [""%string]) = filepath.Join es.
Proof.
  unfold filepath.Join. rewrite List.filter_app. cbn [List.filter String.eqb negb].
  rewrite app_nil_r. reflexivity.
Qed.

(** The names [Store] gives a shard (the date as [time.Format] prints
    it for the years 0 to 9999, and the issuer ID of a certificate) are
    paths of documents: the allocation succeeds, and so does the write
    of a certificate of a serial that has bytes, when no fault strikes;
    a serial of no bytes is refused, with the error of a document that
    cannot be opened, and nothing is written. *)
Theorem Firestore_stores_certificates (t : time.Time) (aIssuer : x509.Certificate)
    (serial : Serial.t) (b : list byte) (db : FirestoreBackend.t) :
  0 <= year t <= 9999 ->
  fst (FirestoreBackend.AllocateExpDateAndIssuer None None (time.Format t) (NewIssuer aIssuer) db)
  = None
  /\ (Serial.serial serial <> [] ->
      fst (FirestoreBackend.StoreCertificatePEM None serial (time.Format t) (NewIssuer aIssuer)
             b db) = Ret None)
  /\ (Serial.serial serial = [] ->
      forall fault,
        FirestoreBackend.StoreCertificatePEM fault serial (time.Format t) (NewIssuer aIssuer) b db
        = (Ret (Some (Errorf "Couldn't open Document")), db)).
Proof.
  intros Hy. pose proof (Format_plain t Hy) as He.
  pose proof (Issuer_ID_plain aIssuer) as Hi.
  assert (Hplain : plain "ct" /\ plain "issuer" /\ plain "certs")
    by (repeat split; (discriminate || reflexivity)).
  destruct Hplain as (Hct & Hiss & Hcerts).
  assert (Hlen : (len (time.Format t) =? 0) = false).
  { destruct He as [Hne _]. unfold len. destruct (time.Format t); [contradiction | reflexivity]. }
  split; [rewrite (Firestore_allocate _ _ db He Hi); reflexivity |]. split.
  - intros Hs. assert (Hsid : plain (Serial.ID serial)) by (apply encoded_plain, Hs).
    unfold FirestoreBackend.StoreCertificatePEM. rewrite Hlen.
    rewrite (Doc_plain ["ct"; time.Format t; "issuer"; Issuer.ID (NewIssuer aIssuer); "certs";
                        Serial.ID serial]%string)
      by first [discriminate | reflexivity
               | repeat (apply Forall_cons_2; [assumption |]); apply Forall_nil_2].
    unfold firestore.Create.
    destruct (firestore.documents (FirestoreBackend.client db) !! _); reflexivity.
  - intros Hs fault. unfold FirestoreBackend.StoreCertificatePEM. rewrite Hlen.
    assert (Hid : Serial.ID serial = ""%string) by (unfold Serial.ID; rewrite Hs; reflexivity).
    rewrite Hid.
    change ["ct"; time.Format t; "issuer"; Issuer.ID (NewIssuer aIssuer); "certs"; ""]%string
      with (["ct"; time.Format t; "issuer"; Issuer.ID (NewIssuer aIssuer); "certs"]%string
            ++ [""%string]).
    rewrite Join_trailing_empty, Doc_plain_odd
      by first [discriminate | reflexivity
               | repeat (apply Forall_cons_2; [assumption |]); apply Forall_nil_2].
    reflexivity.
Qed.

(** Two instants of the years 0 to 9999 get the same shard date
    exactly when they fall on the same UTC day. *)
Theorem expDate_same_day (t t' : time.Time) :
  0 <= year t <= 9999 -> 0 <= year t' <= 9999 ->
  (time.Format t = time.Format t' <-> time.sec t / 86400 = time.sec t' / 86400).
Proof.
  intros Ht Ht'. split.
  - intros E. pose proof (Parse_Format t Ht) as P. rewrite E, (Parse_Format t' Ht') in P.
    injection P as P. lia.
  - intros E. unfold time.Format, time.Date. rewrite E. reflexivity.
Qed.

Lemma expDate_same_day_witness :
  time.Format (time.Unix 1546300800) = time.Format (time.Unix 1546387199)
  <-> time.sec (time.Unix 1546300800) / 86400 = time.sec (time.Unix 1546387199) / 86400.
Proof.
  apply (expDate_same_day (time.Unix 1546300800) (time.Unix 1546387199));
    vm_compute; split; discriminate.
Defined.

Lemma Firestore_allocate_enumerates_witness :
  exists db',
    FirestoreBackend.AllocateExpDateAndIssuer None None "2019-01-01" issuerX emptyFirestore
    = (None, db')
    /\ In "2019-01-01"%string (fst (FirestoreBackend.ListExpirationDates None june2020 db'))
    /\ exists issuers,
         FirestoreBackend.ListIssuersForExpirationDate None "2019-01-01" db' = Ret (issuers, None)
         /\ In "issuerX"%string (map Issuer.ID issuers).
Proof.
  destruct (Firestore_allocate_enumerates "2019-01-01" issuerX emptyFirestore june2020)
    as (db' & E & Hdates & Hissuers & _).
  - split; [discriminate | reflexivity].
  - split; [discriminate | reflexivity].
  - intros path doc v Hdoc. cbn in Hdoc. rewrite lookup_empty in Hdoc. discriminate Hdoc.
  - exists db'. split; [exact E |]. split; [apply Hdates; left; reflexivity | exact Hissuers].
Defined.

Lemma Firestore_allocate_failures_witness :
  FirestoreBackend.AllocateExpDateAndIssuer (Some (StatusError Unavailable "down")) None
    "2019-01-01" issuerX emptyFirestore
  = (Some (StatusError Unavailable "down"), emptyFirestore).
Proof.
  refine (proj1 (Firestore_allocate_failures "2019-01-01" issuerX emptyFirestore june2020 _ _)
            (StatusError Unavailable "down") None);
    split; (discriminate || reflexivity).
Defined.

Lemma Firestore_stores_certificates_witness :
  fst (FirestoreBackend.AllocateExpDateAndIssuer None None (time.Format june2020)
         (NewIssuer certE3) emptyFirestore) = None.
Proof.
  refine (proj1 (Firestore_stores_certificates june2020 certE3 serial7 [] emptyFirestore _)).
  vm_compute. split; discriminate.
Defined.

(** ** The in-memory backend: shards kept apart (mockbackend.go) *)

(** The in-memory backend keys a shard by the date and the issuer ID
    put together, and a certificate by these and the serial ID.  A write
    to one shard leaves the serials of every other shard alone when the
    issuer IDs are of one length, as those of certificates are, and
    leaves every other certificate alone when the dates are of one
    length too; without that shards collide: the shards [a, bc] and
    [ab, c] are one. *)
Theorem Mock_shards_apart (serial serial' : Serial.t) (expDate expDate' : string)
    (issuer issuer' : Issuer.t) (b : list byte) (db : MockBackend.t) :
  String.length (Issuer.ID issuer) = String.length (Issuer.ID issuer') ->
  let db1 := (MockBackend.StoreCertificatePEM serial expDate issuer b db).2 in
  ((expDate, Issuer.ID issuer) <> (expDate', Issuer.ID issuer') ->
   MockBackend.ListSerialsForExpirationDateAndIssuer expDate' issuer' db1
   = MockBackend.ListSerialsForExpirationDateAndIssuer expDate' issuer' db)
  /\ (String.length expDate = String.length expDate' ->
      (expDate, Issuer.ID issuer, serial) <> (expDate', Issuer.ID issuer', serial') ->
      MockBackend.LoadCertificatePEM serial' expDate' issuer' db1
      = MockBackend.LoadCertificatePEM serial' expDate' issuer' db)
  /\ MockBackend.ListSerialsForExpirationDateAndIssuer "ab" (NewIssuerFromString "c")
       (MockBackend.StoreCertificatePEM serial "a" (NewIssuerFromString "bc") b
          MockBackend.New).2
     = ([serial], None).
Proof.
  intros Hlen db1. subst db1. split; [| split].
  - intros Hne. unfold MockBackend.ListSerialsForExpirationDateAndIssuer,
      MockBackend.StoreCertificatePEM.
    cbn [snd MockBackend.expDateIssuerIDToSerials].
    rewrite lookup_insert_ne; [reflexivity |].
    intros E. apply shard_key_inj in E; [| exact Hlen]. destruct E as [-> E].
    apply Hne. rewrite E. reflexivity.
  - intros Hlen' Hne. unfold MockBackend.LoadCertificatePEM, MockBackend.StoreCertificatePEM.
    cbn [snd MockBackend.store].
    rewrite lookup_insert_ne; [reflexivity |].
    intros E. change (String.append "pem" ?s) with (String "p" (String "e" (String "m" s))) in E.
    injection E as E.
    apply (f_equal list_ascii_of_string) in E. rewrite !list_ascii_of_string_append in E.
    apply app_inj_1 in E; [| rewrite !length_list_ascii_of_string; exact Hlen'].
    destruct E as [E1 E]. apply app_inj_1 in E; [| rewrite !length_list_ascii_of_string; exact Hlen].
    destruct E as [E2 E3].
    apply list_ascii_of_string_inj in E1, E2, E3. apply Serial_ID_inj in E3.
    apply Hne. rewrite E1, E2, E3. reflexivity.
  - reflexivity.
Qed.

Lemma Mock_shards_apart_witness :
  MockBackend.ListSerialsForExpirationDateAndIssuer "2019-01-02" issuerX
    (MockBackend.StoreCertificatePEM serial7 "2019-01-01" issuerX [xda] MockBackend.New).2
  = MockBackend.ListSerialsForExpirationDateAndIssuer "2019-01-02" issuerX MockBackend.New.
Proof.
  refine (proj1 (Mock_shards_apart serial7 serial7 "2019-01-01" "2019-01-02" issuerX issuerX
                   [xda] MockBackend.New _) _).
  - reflexivity.
  - discriminate.
Defined.

(** ** The ID of a log (types.go) *)

Lemma bytes_of_string_inj (s s' : string) : bytes_of_string s = bytes_of_string s' -> s = s'.
Proof.
  unfold bytes_of_string. intros E. apply (f_equal string_of_list_byte) in E.
  rewrite !string_of_list_byte_of_string in E. exact E.
Qed.

(** The ID of a log decodes to the bytes of its short URL, so two logs
    have one ID exactly when they have one short URL, whatever their
    checkpoints; the ID has a multiple of four characters, none of them
    a ['/'] or a ['.']. *)
Theorem CertificateLog_ID_round_trip (log log' : CertificateLog.t) :
  base64.DecodeString base64.URLEncoding (CertificateLog.ID log)
  = (bytes_of_string (CertificateLog.ShortURL log), None)
  /\ string_of_bytes (fst (base64.DecodeString base64.URLEncoding (CertificateLog.ID log)))
     = CertificateLog.ShortURL log
  /\ (CertificateLog.ID log = CertificateLog.ID log'
      <-> CertificateLog.ShortURL log = CertificateLog.ShortURL log')
  /\ (Z.of_nat (String.length (CertificateLog.ID log))) mod 4 = 0
  /\ forallb pathChar (list_ascii_of_string (CertificateLog.ID log)) = true.
Proof.
  assert (Hdec : forall l, base64.DecodeString base64.URLEncoding (CertificateLog.ID l)
                           = (bytes_of_string (CertificateLog.ShortURL l), None)).
  { intros l. unfold base64.DecodeString, CertificateLog.ID, CertificateLogIDFromShortURL,
      base64.EncodeToString.
    rewrite list_ascii_of_string_of_list_ascii. apply base64_decode_encode. }
  split; [apply Hdec |]. split; [| split; [| split]].
  - rewrite Hdec. cbn [fst]. unfold string_of_bytes, bytes_of_string.
    apply string_of_list_byte_of_string.
  - split.
    + intros E. pose proof (Hdec log) as H1. rewrite E, Hdec in H1.
      injection H1 as H1. symmetry. apply bytes_of_string_inj, H1.
    + intros E. unfold CertificateLog.ID. rewrite E. reflexivity.
  - apply ID_length_mod4.
  - unfold CertificateLog.ID, CertificateLogIDFromShortURL, base64.EncodeToString.
    rewrite list_ascii_of_string_of_list_ascii. apply Encode_padded_pathChars.
Qed.
